(** * The float manager (layout/generic/nsFloatManager.cpp)

    A shallow embedding of the float registry, the flow-area query, the
    shape strategies behind [shape-outside], the push/pop checkpoints and
    the clear computation, followed by the properties established about
    them.

    Coordinates are [nscoord] values: 32-bit signed integers.  They are
    carried as [Z]; every arithmetic operation of the source is written with
    its two's-complement wrap-around ([wrap32]). *)

From Stdlib Require Import ZArith List Bool Lia Floats Uint63 Permutation Sorted.
From Stdlib Require Import Setoid Morphisms.
Import ListNotations.

Local Open Scope Z_scope.

(** ** 32-bit coordinates *)

Definition wrap32 (z : Z) : Z := (z + 2 ^ 31) mod 2 ^ 32 - 2 ^ 31.

Definition int32_ok (z : Z) : Prop := - 2 ^ 31 <= z < 2 ^ 31.

Definition nscoord_add (a b : Z) : Z := wrap32 (a + b).
Definition nscoord_sub (a b : Z) : Z := wrap32 (a - b).
Definition nscoord_mul (a b : Z) : Z := wrap32 (a * b).
(** C++ integer division truncates toward zero.  The 32-bit division has no
    result for a zero divisor and for [INT_MIN / -1], whose quotient 2^31 is
    no int32: the processor traps on both.  [nscoord_div_traps] tells those
    operands.  [nscoord_div] is the quotient of all other operands; at the
    trapping ones it is 0, which stands for no value of the code: the
    checked variants of the callers name the fault there. *)
Definition nscoord_div_traps (a b : Z) : bool :=
  (b =? 0) || ((a =? - 2 ^ 31) && (b =? -1)).
Definition nscoord_div (a b : Z) : Z :=
  if nscoord_div_traps a b then 0 else wrap32 (Z.quot a b).

Declare Scope nscoord_scope.
Delimit Scope nscoord_scope with nscoord.
Infix ".+" := nscoord_add (at level 50, left associativity) : nscoord_scope.
Infix ".-" := nscoord_sub (at level 50, left associativity) : nscoord_scope.
Infix ".*" := nscoord_mul (at level 40, left associativity) : nscoord_scope.
Infix "./" := nscoord_div (at level 40, left associativity) : nscoord_scope.
Local Open Scope nscoord_scope.

(** Modelled from the spec: the maximum and minimum coordinate sentinels
    ([MAX], [MIN], the "-infinity sentinel").  They are declared in nsCoord.h,
    which is not among the sources: [nscoord_MAX] is [(1 << 30) - 1] and
    [nscoord_MIN] its negation. *)
Definition nscoord_MAX : Z := 2 ^ 30 - 1.
Definition nscoord_MIN : Z := - nscoord_MAX.

(** A coordinate inside the range the sentinels delimit. *)
Definition nscoord_ok (z : Z) : Prop := nscoord_MIN <= z <= nscoord_MAX.

(** ** Double-precision helpers

    [XInterceptAtY] of the ellipse evaluates one expression in IEEE-754
    binary64; it is embedded with the kernel's primitive floats. *)

(** int -> double conversion (exact for every 32-bit integer). *)
Definition Z2double (z : Z) : float :=
  if z <? 0 then PrimFloat.opp (PrimFloat.of_uint63 (Uint63.of_Z (- z)))
  else PrimFloat.of_uint63 (Uint63.of_Z z).

(** double -> nscoord conversion: truncation toward zero.  Outside the 32-bit
    range, and on NaN and infinities, the conversion is undefined in C++; the
    value here is the "integer indefinite" [INT_MIN] that x86 produces. *)
Definition double2nscoord (f : float) : Z :=
  match Prim2SF f with
  | S754_zero _ => 0
  | S754_finite s m e =>
      let a := if 0 <=? e then Z.shiftl (Zpos m) e else Z.shiftr (Zpos m) (- e) in
      let v := if s then - a else a in
      if (- 2 ^ 31 <=? v) && (v <? 2 ^ 31) then v else - 2 ^ 31
  | _ => - 2 ^ 31
  end.

(** ** Geometry primitives *)

(** Modelled from the spec: the point, size and rectangle primitives
    (nsPoint.h, nsSize.h, nsRect.h are not among the sources). *)
Record nsPoint := mkPoint { pt_x : Z; pt_y : Z }.
Record nsSize := mkSize { sz_width : Z; sz_height : Z }.
Record nsRect := mkRect { x : Z; y : Z; width : Z; height : Z }.

Definition point_sub (p q : nsPoint) : nsPoint :=
  mkPoint (pt_x p .- pt_x q) (pt_y p .- pt_y q).
Definition point_MoveBy (p : nsPoint) (dx dy : Z) : nsPoint :=
  mkPoint (pt_x p .+ dx) (pt_y p .+ dy).

Definition XMost (r : nsRect) : Z := x r .+ width r.
Definition YMost (r : nsRect) : Z := y r .+ height r.
Definition rect_IsEmpty (r : nsRect) : bool := (height r <=? 0) || (width r <=? 0).
Definition size_IsEmpty (s : nsSize) : bool := (sz_width s <=? 0) || (sz_height s <=? 0).
Definition ContainsY (r : nsRect) (aY : Z) : bool := (y r <=? aY) && (aY <? YMost r).
Definition rect_MoveBy (r : nsRect) (dx dy : Z) : nsRect :=
  mkRect (x r .+ dx) (y r .+ dy) (width r) (height r).

(** Modelled from the spec: the writing mode, reduced to what the float
    manager consults (WritingModes.h is not among the sources): the bidi
    direction and whether the inline axis is vertical. *)
Record WritingMode := mkWM { IsBidiLTR : bool; IsVertical : bool }.

(** Modelled from the spec: a logical rectangle with its inline start, block
    start, inline size and block size; [LineLeft] and [LineRight] mirror the
    inline axis in the container under RTL. *)
Record LogicalRect := mkLRect { IStart : Z; BStartL : Z; ISize : Z; BSizeL : Z }.

Definition IEnd (r : LogicalRect) : Z := IStart r .+ ISize r.

(** [LogicalSize(aWM, aContainerSize).ISize(aWM)]. *)
Definition containerISize (wm : WritingMode) (cs : nsSize) : Z :=
  if IsVertical wm then sz_height cs else sz_width cs.

Definition LRect_LineLeft (r : LogicalRect) (wm : WritingMode) (cs : nsSize) : Z :=
  if IsBidiLTR wm then IStart r else containerISize wm cs .- IEnd r.
Definition LRect_LineRight (r : LogicalRect) (wm : WritingMode) (cs : nsSize) : Z :=
  if IsBidiLTR wm then IEnd r else containerISize wm cs .- IStart r.

(** ** Shape strategies *)

(** *** Helpers shared by the rounded box and the ellipse *)

(** [ShapeInfo::XInterceptAtY]: solve for x in the ellipse equation.  The two
    squares are products of [nscoord]s, taken in 32 bits before the
    conversion to double. *)
Definition Ellipse_XInterceptAtY (aY aRadiusX aRadiusY : Z) : Z :=
  double2nscoord
    (PrimFloat.mul (Z2double aRadiusX)
       (PrimFloat.sqrt
          (PrimFloat.sub (Z2double 1)
             (PrimFloat.div (Z2double (aY .* aY))
                            (Z2double (aRadiusY .* aRadiusY)))))).

Definition ComputeEllipseLineInterceptDiff
    (aShapeBoxBStart aShapeBoxBEnd
     aBStartCornerRadiusL aBStartCornerRadiusB
     aBEndCornerRadiusL aBEndCornerRadiusB
     aBandBStart aBandBEnd : Z) : Z :=
  if (aBStartCornerRadiusB >? 0)
     && (aBandBEnd >=? aShapeBoxBStart)
     && (aBandBEnd <=? aShapeBoxBStart .+ aBStartCornerRadiusB)
  then
    let b := aBStartCornerRadiusB .- (aBandBEnd .- aShapeBoxBStart) in
    let lineIntercept :=
      Ellipse_XInterceptAtY b aBStartCornerRadiusL aBStartCornerRadiusB in
    aBStartCornerRadiusL .- lineIntercept
  else if (aBEndCornerRadiusB >? 0)
          && (aBandBStart >=? aShapeBoxBEnd .- aBEndCornerRadiusB)
          && (aBandBStart <=? aShapeBoxBEnd)
  then
    let b := aBEndCornerRadiusB .- (aShapeBoxBEnd .- aBandBStart) in
    let lineIntercept :=
      Ellipse_XInterceptAtY b aBEndCornerRadiusL aBEndCornerRadiusB in
    aBEndCornerRadiusL .- lineIntercept
  else 0.

(** *** RoundedBoxShapeInfo: [<shape-box>] and [inset()] *)

(** The eight half corner radii of the reference box, in the float manager's
    coordinate space. *)
Record CornerRadii := mkRadii {
  eCornerTopLeftX : Z; eCornerTopLeftY : Z;
  eCornerTopRightX : Z; eCornerTopRightY : Z;
  eCornerBottomRightX : Z; eCornerBottomRightY : Z;
  eCornerBottomLeftX : Z; eCornerBottomLeftY : Z
}.

Definition RoundedBox_LineLeft (mRect : nsRect) (mRadii : option CornerRadii)
    (aBStart aBEnd : Z) : Z :=
  match mRadii with
  | None => x mRect
  | Some r =>
      let lineLeftDiff :=
        ComputeEllipseLineInterceptDiff (y mRect) (YMost mRect)
          (eCornerTopLeftX r) (eCornerTopLeftY r)
          (eCornerBottomLeftX r) (eCornerBottomLeftY r)
          aBStart aBEnd in
      x mRect .+ lineLeftDiff
  end.

Definition RoundedBox_LineRight (mRect : nsRect) (mRadii : option CornerRadii)
    (aBStart aBEnd : Z) : Z :=
  match mRadii with
  | None => XMost mRect
  | Some r =>
      let lineRightDiff :=
        ComputeEllipseLineInterceptDiff (y mRect) (YMost mRect)
          (eCornerTopRightX r) (eCornerTopRightY r)
          (eCornerBottomRightX r) (eCornerBottomRightY r)
          aBStart aBEnd in
      XMost mRect .- lineRightDiff
  end.

(** *** EllipseShapeInfo: [circle()] and [ellipse()] *)

Definition Ellipse_BStart (mCenter : nsPoint) (mRadii : nsSize) : Z :=
  pt_y mCenter .- sz_height mRadii.
Definition Ellipse_BEnd (mCenter : nsPoint) (mRadii : nsSize) : Z :=
  pt_y mCenter .+ sz_height mRadii.

Definition Ellipse_LineLeft (mCenter : nsPoint) (mRadii : nsSize)
    (aBStart aBEnd : Z) : Z :=
  let lineLeftDiff :=
    ComputeEllipseLineInterceptDiff
      (Ellipse_BStart mCenter mRadii) (Ellipse_BEnd mCenter mRadii)
      (sz_width mRadii) (sz_height mRadii)
      (sz_width mRadii) (sz_height mRadii)
      aBStart aBEnd in
  pt_x mCenter .- sz_width mRadii .+ lineLeftDiff.

Definition Ellipse_LineRight (mCenter : nsPoint) (mRadii : nsSize)
    (aBStart aBEnd : Z) : Z :=
  let lineRightDiff :=
    ComputeEllipseLineInterceptDiff
      (Ellipse_BStart mCenter mRadii) (Ellipse_BEnd mCenter mRadii)
      (sz_width mRadii) (sz_height mRadii)
      (sz_width mRadii) (sz_height mRadii)
      aBStart aBEnd in
  pt_x mCenter .+ sz_width mRadii .- lineRightDiff.

(** *** PolygonShapeInfo: [polygon()] *)

Record PolygonShapeInfo := mkPolygon {
  mVertices : list nsPoint;
  mEmpty : bool;
  poly_mBStart : Z;
  poly_mBEnd : Z
}.

(** The determinant of the 2x2 matrix [aP0 aP1]. *)
Definition Determinant (aP0 aP1 : nsPoint) : Z :=
  pt_x aP0 .* pt_y aP1 .- pt_y aP0 .* pt_x aP1.

(** The constructor.  [mBStart] and [mBEnd] keep their initial sentinels when
    the polygon is classified as empty. *)
Definition PolygonShapeInfo_new (aVertices : list nsPoint) : PolygonShapeInfo :=
  if (length aVertices <? 3)%nat then
    mkPolygon aVertices true nscoord_MAX nscoord_MIN
  else
    let p0 := nth 0 aVertices (mkPoint 0 0) in
    let p1 := nth 1 aVertices (mkPoint 0 0) in
    let isEntirelyCollinear :=
      forallb (fun p2 => Determinant (point_sub p2 p0) (point_sub p1 p0) =? 0)
              (skipn 2 aVertices) in
    if isEntirelyCollinear then
      mkPolygon aVertices true nscoord_MAX nscoord_MIN
    else
      mkPolygon aVertices false
        (fold_left (fun acc vertex => Z.min acc (pt_y vertex)) aVertices nscoord_MAX)
        (fold_left (fun acc vertex => Z.max acc (pt_y vertex)) aVertices nscoord_MIN).

(** [PolygonShapeInfo::XInterceptAtY]: x = x1 + (y-y1) * (x2-x1) / (y2-y1),
    the value the helper returns when it returns one.  Its assertions and
    the operands on which its division traps are those of
    [Polygon_XInterceptAtY_checked]. *)
Definition Polygon_XInterceptAtY (aY : Z) (aP1 aP2 : nsPoint) : Z :=
  pt_x aP1 .+ (aY .- pt_y aP1) .* (pt_x aP2 .- pt_x aP1) ./ (pt_y aP2 .- pt_y aP1).

(** One iteration of the loop of [ComputeLineIntercept], for the segment that
    starts at vertex [i]. *)
Definition ComputeLineIntercept_step (vs : list nsPoint) (aBStart aBEnd : Z)
    (aCompareOp : Z -> Z -> Z) (lineIntercept : Z) (i : nat) : Z :=
  let len := length vs in
  let v0 := nth i vs (mkPoint 0 0) in
  let v1 := nth ((i + 1) mod len)%nat vs (mkPoint 0 0) in
  let smallYVertex := if pt_y v0 >? pt_y v1 then v1 else v0 in
  let bigYVertex := if pt_y v0 >? pt_y v1 then v0 else v1 in
  if (aBStart >=? pt_y bigYVertex) || (aBEnd <=? pt_y smallYVertex)
     || (pt_y smallYVertex =? pt_y bigYVertex)
  then lineIntercept
  else
    let bStartLineIntercept :=
      if aBStart <=? pt_y smallYVertex then pt_x smallYVertex
      else Polygon_XInterceptAtY aBStart smallYVertex bigYVertex in
    let bEndLineIntercept :=
      if aBEnd >=? pt_y bigYVertex then pt_x bigYVertex
      else Polygon_XInterceptAtY aBEnd smallYVertex bigYVertex in
    aCompareOp (aCompareOp lineIntercept bStartLineIntercept) bEndLineIntercept.

Definition ComputeLineIntercept (vs : list nsPoint) (aBStart aBEnd : Z)
    (aCompareOp : Z -> Z -> Z) (aLineInterceptInitialValue : Z) : Z :=
  fold_left (ComputeLineIntercept_step vs aBStart aBEnd aCompareOp)
            (seq 0 (length vs)) aLineInterceptInitialValue.

Definition Polygon_LineLeft (p : PolygonShapeInfo) (aBStart aBEnd : Z) : Z :=
  ComputeLineIntercept (mVertices p) aBStart aBEnd Z.min nscoord_MAX.
Definition Polygon_LineRight (p : PolygonShapeInfo) (aBStart aBEnd : Z) : Z :=
  ComputeLineIntercept (mVertices p) aBStart aBEnd Z.max nscoord_MIN.

Definition Polygon_Translate (p : PolygonShapeInfo) (aLineLeft aBlockStart : Z)
    : PolygonShapeInfo :=
  mkPolygon (map (fun v => point_MoveBy v aLineLeft aBlockStart) (mVertices p))
            (mEmpty p)
            (poly_mBStart p .+ aBlockStart) (poly_mBEnd p .+ aBlockStart).

(** *** ImageShapeInfo: [<image>] *)

(** The intervals (one device pixel deep each, ascending on y) and the block
    extent computed from them when the shape was built. *)
Record ImageShapeInfo := mkImage {
  mIntervals : list nsRect;
  img_mBStart : Z;
  img_mBEnd : Z
}.

(** The binary search of [MinIntervalIndexContainingY]; [fuel] bounds the
    number of iterations, each of which shrinks [endIdx - startIdx]. *)
Fixpoint MinIntervalIndex_loop (fuel : nat) (ivs : list nsRect) (aTargetY : Z)
    (startIdx endIdx : nat) : nat :=
  match fuel with
  | O => endIdx
  | S fuel' =>
      if (startIdx <? endIdx)%nat then
        let midIdx := (startIdx + (endIdx - startIdx) / 2)%nat in
        let mid := nth midIdx ivs (mkRect 0 0 0 0) in
        if ContainsY mid aTargetY then midIdx
        else if y mid <? aTargetY
             then MinIntervalIndex_loop fuel' ivs aTargetY (midIdx + 1)%nat endIdx
             else MinIntervalIndex_loop fuel' ivs aTargetY startIdx midIdx
      else endIdx
  end.

Definition MinIntervalIndexContainingY (ivs : list nsRect) (aTargetY : Z) : nat :=
  MinIntervalIndex_loop (S (length ivs)) ivs aTargetY 0 (length ivs).

(** The scan of [LineEdge] over the intervals from the index found on. *)
Fixpoint LineEdge_scan (ivs : list nsRect) (aBEnd : Z) (aLeft : bool)
    (lineEdge : Z) : Z :=
  match ivs with
  | [] => lineEdge
  | interval :: rest =>
      if y interval >? aBEnd then lineEdge
      else LineEdge_scan rest aBEnd aLeft
             (if aLeft then Z.min lineEdge (x interval)
              else Z.max lineEdge (XMost interval))
  end.

Definition LineEdge (s : ImageShapeInfo) (aBStart aBEnd : Z) (aLeft : bool) : Z :=
  LineEdge_scan
    (skipn (MinIntervalIndexContainingY (mIntervals s) aBStart) (mIntervals s))
    aBEnd aLeft (if aLeft then nscoord_MAX else nscoord_MIN).

Definition Image_Translate (s : ImageShapeInfo) (aLineLeft aBlockStart : Z)
    : ImageShapeInfo :=
  mkImage (map (fun iv => rect_MoveBy iv aLineLeft aBlockStart) (mIntervals s))
          (img_mBStart s .+ aBlockStart) (img_mBEnd s .+ aBlockStart).

(** *** The sealed family of shapes and its virtual interface *)

Inductive ShapeInfo :=
| RoundedBox (mRect : nsRect) (mRadii : option CornerRadii)
| Ellipse (mCenter : nsPoint) (mRadii : nsSize)
| Polygon (p : PolygonShapeInfo)
| Image (s : ImageShapeInfo).

Definition Shape_LineLeft (s : ShapeInfo) (aBStart aBEnd : Z) : Z :=
  match s with
  | RoundedBox r radii => RoundedBox_LineLeft r radii aBStart aBEnd
  | Ellipse c radii => Ellipse_LineLeft c radii aBStart aBEnd
  | Polygon p => Polygon_LineLeft p aBStart aBEnd
  | Image i => LineEdge i aBStart aBEnd true
  end.

Definition Shape_LineRight (s : ShapeInfo) (aBStart aBEnd : Z) : Z :=
  match s with
  | RoundedBox r radii => RoundedBox_LineRight r radii aBStart aBEnd
  | Ellipse c radii => Ellipse_LineRight c radii aBStart aBEnd
  | Polygon p => Polygon_LineRight p aBStart aBEnd
  | Image i => LineEdge i aBStart aBEnd false
  end.

Definition Shape_BStart (s : ShapeInfo) : Z :=
  match s with
  | RoundedBox r _ => y r
  | Ellipse c radii => Ellipse_BStart c radii
  | Polygon p => poly_mBStart p
  | Image i => img_mBStart i
  end.

Definition Shape_BEnd (s : ShapeInfo) : Z :=
  match s with
  | RoundedBox r _ => YMost r
  | Ellipse c radii => Ellipse_BEnd c radii
  | Polygon p => poly_mBEnd p
  | Image i => img_mBEnd i
  end.

Definition Shape_IsEmpty (s : ShapeInfo) : bool :=
  match s with
  | RoundedBox r _ => rect_IsEmpty r
  | Ellipse _ radii => size_IsEmpty radii
  | Polygon p => mEmpty p
  | Image i => match mIntervals i with [] => true | _ => false end
  end.

Definition Shape_Translate (s : ShapeInfo) (aLineLeft aBlockStart : Z) : ShapeInfo :=
  match s with
  | RoundedBox r radii => RoundedBox (rect_MoveBy r aLineLeft aBlockStart) radii
  | Ellipse c radii => Ellipse (point_MoveBy c aLineLeft aBlockStart) radii
  | Polygon p => Polygon (Polygon_Translate p aLineLeft aBlockStart)
  | Image i => Image (Image_Translate i aLineLeft aBlockStart)
  end.

(** ** Frames and style *)

Inductive StyleFloat := StyleFloat_None | StyleFloat_Left | StyleFloat_Right.

Definition StyleFloat_eqb (a b : StyleFloat) : bool :=
  match a, b with
  | StyleFloat_None, StyleFloat_None
  | StyleFloat_Left, StyleFloat_Left
  | StyleFloat_Right, StyleFloat_Right => true
  | _, _ => false
  end.

Inductive StyleClear :=
| StyleClear_None | StyleClear_Left | StyleClear_Right
| StyleClear_InlineStart | StyleClear_InlineEnd
| StyleClear_Both | StyleClear_Line.

Inductive BandInfoType := BandFromPoint | WidthWithinHeight.
Inductive ShapeType := Margin | ShapeOutside.

Definition isBandFromPoint (t : BandInfoType) : bool :=
  match t with BandFromPoint => true | WidthWithinHeight => false end.

(** Modelled from the spec: the frame handle, an external collaborator.  The
    float manager uses its identity, the physical float side its style
    resolves to in a writing mode, and the shape that [shape-outside] yields
    for a margin rect ([None] for [shape-outside: none] and for an image that
    is not ready).  The shape is built in the margin-box frame, before the
    translation by the manager's origin. *)
Record nsIFrame := mkFrame {
  frame_id : nat;
  PhysicalFloats : WritingMode -> StyleFloat;
  CreateShape : LogicalRect -> WritingMode -> nsSize -> option ShapeInfo
}.

(** ** FloatInfo *)

Record FloatInfo := mkFloatInfo {
  mFrame : nsIFrame;
  mLeftBEnd : Z;
  mRightBEnd : Z;
  mRect : nsRect;
  mShapeInfo : option ShapeInfo
}.

(** Modelled from the spec: the margin-box accessors of [FloatInfo], inline
    members of nsFloatManager.h (not among the sources): the edges and the
    emptiness of [mRect]. *)
Definition FI_LineLeft (fi : FloatInfo) : Z := x (mRect fi).
Definition FI_LineRight (fi : FloatInfo) : Z := XMost (mRect fi).
Definition FI_BStart (fi : FloatInfo) : Z := y (mRect fi).
Definition FI_BEnd (fi : FloatInfo) : Z := YMost (mRect fi).
Definition FI_IsEmpty (fi : FloatInfo) : bool := rect_IsEmpty (mRect fi).

Definition ConvertToFloatLogical (aRect : LogicalRect) (aWM : WritingMode)
    (aContainerSize : nsSize) : nsRect :=
  mkRect (LRect_LineLeft aRect aWM aContainerSize) (BStartL aRect)
         (ISize aRect) (BSizeL aRect).

(** The constructor.  The two cumulative block ends are left for [AddFloat]
    to set; they are zero here. *)
Definition FloatInfo_new (aFrame : nsIFrame) (aLineLeft aBlockStart : Z)
    (aMarginRect : LogicalRect) (aWM : WritingMode) (aContainerSize : nsSize)
    : FloatInfo :=
  let rect :=
    rect_MoveBy (ConvertToFloatLogical aMarginRect aWM aContainerSize)
                aLineLeft aBlockStart in
  if rect_IsEmpty rect then mkFloatInfo aFrame 0 0 rect None
  else
    match CreateShape aFrame aMarginRect aWM aContainerSize with
    | None => mkFloatInfo aFrame 0 0 rect None
    | Some shape =>
        mkFloatInfo aFrame 0 0 rect
                    (Some (Shape_Translate shape aLineLeft aBlockStart))
    end.

Definition FloatInfo_LineLeft (fi : FloatInfo) (aShapeType : ShapeType)
    (aBStart aBEnd : Z) : Z :=
  match aShapeType with
  | Margin => FI_LineLeft fi
  | ShapeOutside =>
      match mShapeInfo fi with
      | None => FI_LineLeft fi
      | Some shape => Z.max (FI_LineLeft fi) (Shape_LineLeft shape aBStart aBEnd)
      end
  end.

Definition FloatInfo_LineRight (fi : FloatInfo) (aShapeType : ShapeType)
    (aBStart aBEnd : Z) : Z :=
  match aShapeType with
  | Margin => FI_LineRight fi
  | ShapeOutside =>
      match mShapeInfo fi with
      | None => FI_LineRight fi
      | Some shape => Z.min (FI_LineRight fi) (Shape_LineRight shape aBStart aBEnd)
      end
  end.

Definition FloatInfo_BStart (fi : FloatInfo) (aShapeType : ShapeType) : Z :=
  match aShapeType with
  | Margin => FI_BStart fi
  | ShapeOutside =>
      match mShapeInfo fi with
      | None => FI_BStart fi
      | Some shape => Z.max (FI_BStart fi) (Shape_BStart shape)
      end
  end.

Definition FloatInfo_BEnd (fi : FloatInfo) (aShapeType : ShapeType) : Z :=
  match aShapeType with
  | Margin => FI_BEnd fi
  | ShapeOutside =>
      match mShapeInfo fi with
      | None => FI_BEnd fi
      | Some shape => Z.min (FI_BEnd fi) (Shape_BEnd shape)
      end
  end.

Definition FloatInfo_IsEmpty (fi : FloatInfo) (aShapeType : ShapeType) : bool :=
  match aShapeType with
  | Margin => FI_IsEmpty fi
  | ShapeOutside =>
      match mShapeInfo fi with
      | None => FI_IsEmpty fi
      | Some shape => Shape_IsEmpty shape
      end
  end.

(** ** The manager *)

(** Modelled from the spec: the damage sink is an opaque collector of block
    intervals (nsIntervalSet is not among the sources). *)
Definition nsIntervalSet := list (Z * Z).

(** The members of the manager, of a checkpoint and of a query result, as
    nsFloatManager.h declares them. *)
Record nsFloatManager := mkManager {
  mLineLeft : Z;
  mBlockStart : Z;
  mFloats : list FloatInfo;
  mFloatDamage : nsIntervalSet;
  mPushedLeftFloatPastBreak : bool;
  mPushedRightFloatPastBreak : bool;
  mSplitLeftFloatAcrossBreak : bool;
  mSplitRightFloatAcrossBreak : bool
}.

Record SavedState := mkSaved {
  s_mFloatInfoCount : nat;
  s_mLineLeft : Z;
  s_mBlockStart : Z;
  s_mPushedLeftFloatPastBreak : bool;
  s_mPushedRightFloatPastBreak : bool;
  s_mSplitLeftFloatAcrossBreak : bool;
  s_mSplitRightFloatAcrossBreak : bool
}.

Record nsFlowAreaRect := mkFlowArea { fa_mRect : LogicalRect; mHasFloats : bool }.

(** The constructor: origin at zero, no floats, no damage, flags cleared. *)
Definition nsFloatManager_new : nsFloatManager :=
  mkManager 0 0 [] [] false false false false.

(** Modelled from the spec: [HasAnyFloats], an inline member of the header:
    whether the registry holds a float. *)
Definition HasAnyFloats (m : nsFloatManager) : bool :=
  match mFloats m with [] => false | _ => true end.

(** The last element of the registry, [mFloats[mFloats.Length() - 1]]. *)
Definition tailFloat (fs : list FloatInfo) : option FloatInfo :=
  nth_error fs (length fs - 1).

(** ** GetFlowArea *)

(** The variables the backward walk updates. *)
Record BandState := mkBand {
  lineLeft : Z;
  lineRight : Z;
  blockEnd : Z;
  haveFloats : bool
}.

(** The body of the walk for one float that is neither past the break test
    nor empty. *)
Definition GetFlowArea_float (aWM : WritingMode) (aBandInfoType : BandInfoType)
    (aShapeType : ShapeType) (blockStart : Z) (fi : FloatInfo) (st : BandState)
    : BandState :=
  let floatBStart := FloatInfo_BStart fi aShapeType in
  let floatBEnd := FloatInfo_BEnd fi aShapeType in
  if (blockStart <? floatBStart) && isBandFromPoint aBandInfoType then
    if floatBStart <? blockEnd st
    then mkBand (lineLeft st) (lineRight st) floatBStart (haveFloats st)
    else st
  else if (blockStart <? floatBEnd)
          && ((floatBStart <? blockEnd st)
              || ((floatBStart =? blockEnd st) && (blockStart =? blockEnd st)))
  then
    let floatStyle := PhysicalFloats (mFrame fi) aWM in
    let bandBlockEnd :=
      if isBandFromPoint aBandInfoType then blockStart else blockEnd st in
    let st1 :=
      if StyleFloat_eqb floatStyle StyleFloat_Left then
        let lineRightEdge :=
          FloatInfo_LineRight fi aShapeType blockStart bandBlockEnd in
        if lineRightEdge >? lineLeft st
        then mkBand lineRightEdge (lineRight st) (blockEnd st) true
        else st
      else
        let lineLeftEdge :=
          FloatInfo_LineLeft fi aShapeType blockStart bandBlockEnd in
        if lineLeftEdge <? lineRight st
        then mkBand (lineLeft st) lineLeftEdge (blockEnd st) true
        else st in
    if (floatBEnd <? blockEnd st) && isBandFromPoint aBandInfoType
    then mkBand (lineLeft st1) (lineRight st1) floatBEnd (haveFloats st1)
    else st1
  else st.

(** The backward walk, over the in-scope floats from the tail to the head. *)
Fixpoint GetFlowArea_walk (aWM : WritingMode) (aBandInfoType : BandInfoType)
    (aShapeType : ShapeType) (blockStart : Z)
    (floatsFromTail : list FloatInfo) (st : BandState) : BandState :=
  match floatsFromTail with
  | [] => st
  | fi :: rest =>
      if (mLeftBEnd fi <=? blockStart) && (mRightBEnd fi <=? blockStart) then st
      else if FloatInfo_IsEmpty fi aShapeType then
        GetFlowArea_walk aWM aBandInfoType aShapeType blockStart rest st
      else
        GetFlowArea_walk aWM aBandInfoType aShapeType blockStart rest
          (GetFlowArea_float aWM aBandInfoType aShapeType blockStart fi st)
  end.

Definition GetFlowArea_blockStart (m : nsFloatManager) (aBCoord : Z) : Z :=
  let blockStart := aBCoord .+ mBlockStart m in
  if blockStart <? nscoord_MIN then nscoord_MIN else blockStart.

Definition GetFlowArea_floatCount (m : nsFloatManager) (aState : option SavedState)
    : nat :=
  match aState with
  | Some s => s_mFloatInfoCount s
  | None => length (mFloats m)
  end.

(** The band before the walk: block end, line-left and line-right edges. *)
Definition GetFlowArea_init (m : nsFloatManager) (aWM : WritingMode)
    (aBCoord aBSize : Z) (aContentArea : LogicalRect) (aContainerSize : nsSize)
    : BandState :=
  let blockStart := GetFlowArea_blockStart m aBCoord in
  let blockEnd :=
    if aBSize =? nscoord_MAX then nscoord_MAX
    else
      let blockEnd := blockStart .+ aBSize in
      if (blockEnd <? blockStart) || (blockEnd >? nscoord_MAX)
      then nscoord_MAX else blockEnd in
  let lineLeft := mLineLeft m .+ LRect_LineLeft aContentArea aWM aContainerSize in
  let lineRight := mLineLeft m .+ LRect_LineRight aContentArea aWM aContainerSize in
  let lineRight := if lineRight <? lineLeft then lineLeft else lineRight in
  mkBand lineLeft lineRight blockEnd false.

(** The band after the walk. *)
Definition GetFlowArea_band (m : nsFloatManager) (aWM : WritingMode)
    (aBCoord aBSize : Z) (aBandInfoType : BandInfoType) (aShapeType : ShapeType)
    (aContentArea : LogicalRect) (aState : option SavedState)
    (aContainerSize : nsSize) : BandState :=
  GetFlowArea_walk aWM aBandInfoType aShapeType (GetFlowArea_blockStart m aBCoord)
    (rev (firstn (GetFlowArea_floatCount m aState) (mFloats m)))
    (GetFlowArea_init m aWM aBCoord aBSize aContentArea aContainerSize).

(** [GetFlowArea].  The result is [None] when [aState] names more floats than
    the registry holds, where the source indexes [mFloats] out of bounds. *)
Definition GetFlowArea (m : nsFloatManager) (aWM : WritingMode)
    (aBCoord aBSize : Z) (aBandInfoType : BandInfoType) (aShapeType : ShapeType)
    (aContentArea : LogicalRect) (aState : option SavedState)
    (aContainerSize : nsSize) : option nsFlowAreaRect :=
  let blockStart := GetFlowArea_blockStart m aBCoord in
  let quick :=
    mkFlowArea (mkLRect (IStart aContentArea) aBCoord (ISize aContentArea) aBSize)
               false in
  match GetFlowArea_floatCount m aState with
  | O => Some quick
  | S k =>
      match nth_error (mFloats m) k with
      | None => None
      | Some tail =>
          if (mLeftBEnd tail <=? blockStart) && (mRightBEnd tail <=? blockStart)
          then Some quick
          else
            let st :=
              GetFlowArea_band m aWM aBCoord aBSize aBandInfoType aShapeType
                               aContentArea aState aContainerSize in
            let blockSize :=
              if blockEnd st =? nscoord_MAX then nscoord_MAX
              else blockEnd st .- blockStart in
            let inlineStart :=
              if IsBidiLTR aWM then lineLeft st .- mLineLeft m
              else mLineLeft m .- lineRight st .+ containerISize aWM aContainerSize in
            Some (mkFlowArea
                    (mkLRect inlineStart (blockStart .- mBlockStart m)
                             (lineRight st .- lineLeft st) blockSize)
                    (haveFloats st))
      end
  end.

(** ** The registry *)

Definition AddFloat (m : nsFloatManager) (aFloatFrame : nsIFrame)
    (aMarginRect : LogicalRect) (aWM : WritingMode) (aContainerSize : nsSize)
    : nsFloatManager :=
  let info :=
    FloatInfo_new aFloatFrame (mLineLeft m) (mBlockStart m) aMarginRect aWM
                  aContainerSize in
  let '(leftBEnd, rightBEnd) :=
    match tailFloat (mFloats m) with
    | Some tail => (mLeftBEnd tail, mRightBEnd tail)
    | None => (nscoord_MIN, nscoord_MIN)
    end in
  let floatStyle := PhysicalFloats aFloatFrame aWM in
  let thisBEnd := FI_BEnd info in
  let info :=
    if StyleFloat_eqb floatStyle StyleFloat_Left then
      mkFloatInfo (mFrame info)
                  (if thisBEnd >? leftBEnd then thisBEnd else leftBEnd) rightBEnd
                  (mRect info) (mShapeInfo info)
    else
      mkFloatInfo (mFrame info) leftBEnd
                  (if thisBEnd >? rightBEnd then thisBEnd else rightBEnd)
                  (mRect info) (mShapeInfo info) in
  mkManager (mLineLeft m) (mBlockStart m) (mFloats m ++ [info]) (mFloatDamage m)
            (mPushedLeftFloatPastBreak m) (mPushedRightFloatPastBreak m)
            (mSplitLeftFloatAcrossBreak m) (mSplitRightFloatAcrossBreak m).

Definition set_mFloats (m : nsFloatManager) (fs : list FloatInfo) : nsFloatManager :=
  mkManager (mLineLeft m) (mBlockStart m) fs (mFloatDamage m)
            (mPushedLeftFloatPastBreak m) (mPushedRightFloatPastBreak m)
            (mSplitLeftFloatAcrossBreak m) (mSplitRightFloatAcrossBreak m).

(** The frame set of [RemoveTrailingRegions], keyed by frame identity. *)
Definition frameSet_Contains (frameSet : list nsIFrame) (f : nsIFrame) : bool :=
  existsb (fun g => Nat.eqb (frame_id g) (frame_id f)) frameSet.

(** The loop that lowers [newLength] past the trailing floats of the set. *)
Fixpoint RemoveTrailingRegions_newLength (frameSet : list nsIFrame)
    (fs : list FloatInfo) (newLength : nat) : nat :=
  match newLength with
  | O => O
  | S n =>
      match nth_error fs n with
      | Some fi =>
          if negb (frameSet_Contains frameSet (mFrame fi)) then newLength
          else RemoveTrailingRegions_newLength frameSet fs n
      | None => newLength
      end
  end.

Definition RemoveTrailingRegions (m : nsFloatManager) (aFrameList : list nsIFrame)
    : nsFloatManager :=
  match aFrameList with
  | [] => m
  | _ =>
      let newLength :=
        RemoveTrailingRegions_newLength aFrameList (mFloats m) (length (mFloats m)) in
      set_mFloats m (firstn newLength (mFloats m))
  end.

(** ** Checkpoints *)

Definition PushState (m : nsFloatManager) : SavedState :=
  mkSaved (length (mFloats m)) (mLineLeft m) (mBlockStart m)
          (mPushedLeftFloatPastBreak m) (mPushedRightFloatPastBreak m)
          (mSplitLeftFloatAcrossBreak m) (mSplitRightFloatAcrossBreak m).

(** [PopState].  [TruncateLength] accepts no length above the current one:
    the result is [None] there ("somebody misused PushState/PopState"). *)
Definition PopState (m : nsFloatManager) (aState : SavedState)
    : option nsFloatManager :=
  if (length (mFloats m) <? s_mFloatInfoCount aState)%nat then None
  else
    Some (mkManager (s_mLineLeft aState) (s_mBlockStart aState)
                    (firstn (s_mFloatInfoCount aState) (mFloats m))
                    (mFloatDamage m)
                    (s_mPushedLeftFloatPastBreak aState)
                    (s_mPushedRightFloatPastBreak aState)
                    (s_mSplitLeftFloatAcrossBreak aState)
                    (s_mSplitRightFloatAcrossBreak aState)).

(** Modelled from the spec: the origin control and the break-flag setters of
    the header (nsFloatManager.h is not among the sources): [Translate] adds
    to the origin and does not move stored floats. *)
Definition Translate (m : nsFloatManager) (aLineLeft aBlockStart : Z) : nsFloatManager :=
  mkManager (mLineLeft m .+ aLineLeft) (mBlockStart m .+ aBlockStart)
            (mFloats m) (mFloatDamage m)
            (mPushedLeftFloatPastBreak m) (mPushedRightFloatPastBreak m)
            (mSplitLeftFloatAcrossBreak m) (mSplitRightFloatAcrossBreak m).

Inductive BreakFlag :=
| PushedLeftFloatPastBreak | PushedRightFloatPastBreak
| SplitLeftFloatAcrossBreak | SplitRightFloatAcrossBreak.

(** Modelled from the spec: the setters of the four break flags. *)
Definition SetBreakFlag (m : nsFloatManager) (f : BreakFlag) (v : bool)
    : nsFloatManager :=
  mkManager (mLineLeft m) (mBlockStart m) (mFloats m) (mFloatDamage m)
    (match f with PushedLeftFloatPastBreak => v | _ => mPushedLeftFloatPastBreak m end)
    (match f with PushedRightFloatPastBreak => v | _ => mPushedRightFloatPastBreak m end)
    (match f with SplitLeftFloatAcrossBreak => v | _ => mSplitLeftFloatAcrossBreak m end)
    (match f with SplitRightFloatAcrossBreak => v | _ => mSplitRightFloatAcrossBreak m end).

(** Modelled from the spec: a registry mutation feeds the damage sink with a
    block interval, translated by the origin. *)
Definition IncludeInDamage (m : nsFloatManager) (aIntervalBegin aIntervalEnd : Z)
    : nsFloatManager :=
  mkManager (mLineLeft m) (mBlockStart m) (mFloats m)
            (mFloatDamage m
             ++ [(aIntervalBegin .+ mBlockStart m, aIntervalEnd .+ mBlockStart m)])
            (mPushedLeftFloatPastBreak m) (mPushedRightFloatPastBreak m)
            (mSplitLeftFloatAcrossBreak m) (mSplitRightFloatAcrossBreak m).

(** ** Queries on the tail *)

Definition GetLowestFloatTop (m : nsFloatManager) : Z :=
  if mPushedLeftFloatPastBreak m || mPushedRightFloatPastBreak m then nscoord_MAX
  else
    match tailFloat (mFloats m) with
    | None => nscoord_MIN
    | Some tail => FI_BStart tail .- mBlockStart m
    end.

Definition ClearContinues (m : nsFloatManager) (aBreakType : StyleClear) : bool :=
  ((mPushedLeftFloatPastBreak m || mSplitLeftFloatAcrossBreak m)
   && match aBreakType with
      | StyleClear_Both | StyleClear_Left => true
      | _ => false
      end)
  || ((mPushedRightFloatPastBreak m || mSplitRightFloatAcrossBreak m)
      && match aBreakType with
         | StyleClear_Both | StyleClear_Right => true
         | _ => false
         end).

(** Modelled from the spec: the one flag of [ClearFloats],
    [DONT_CLEAR_PUSHED_FLOATS], the bit [(1 << 0)] in nsFloatManager.h. *)
Definition DONT_CLEAR_PUSHED_FLOATS : Z := 1.

Definition ClearFloats (m : nsFloatManager) (aBCoord : Z) (aBreakType : StyleClear)
    (aFlags : Z) : Z :=
  if (Z.land aFlags DONT_CLEAR_PUSHED_FLOATS =? 0) && ClearContinues m aBreakType
  then nscoord_MAX
  else
    match tailFloat (mFloats m) with
    | None => aBCoord
    | Some tail =>
        let blockEnd := aBCoord .+ mBlockStart m in
        let blockEnd :=
          match aBreakType with
          | StyleClear_Both =>
              Z.max (Z.max blockEnd (mLeftBEnd tail)) (mRightBEnd tail)
          | StyleClear_Left => Z.max blockEnd (mLeftBEnd tail)
          | StyleClear_Right => Z.max blockEnd (mRightBEnd tail)
          | _ => blockEnd
          end in
        blockEnd .- mBlockStart m
    end.


(** ** The intercept helpers with their preconditions checked

    The two [XInterceptAtY] helpers state preconditions ([MOZ_ASSERT]) and
    divide.  The checked variants below return the value of the helper when
    its assertions hold and its division has a result, and name the fault
    otherwise; the callers thread the fault through.  The ellipse helper
    divides doubles, the polygon helper 32-bit integers: the integer
    division also traps on [INT_MIN / -1]. *)

Inductive Checked :=
| Ok (v : Z)
| AssertionFailure
| DivisionByZero
| DivisionOverflow.

(** [ShapeInfo::XInterceptAtY]: asserts [aRadiusY > 0]; divides by
    [double(aRadiusY * aRadiusY)]. *)
Definition Ellipse_XInterceptAtY_checked (aY aRadiusX aRadiusY : Z) : Checked :=
  if negb (aRadiusY >? 0) then AssertionFailure
  else if aRadiusY .* aRadiusY =? 0 then DivisionByZero
  else Ok (Ellipse_XInterceptAtY aY aRadiusX aRadiusY).

Definition ComputeEllipseLineInterceptDiff_checked
    (aShapeBoxBStart aShapeBoxBEnd
     aBStartCornerRadiusL aBStartCornerRadiusB
     aBEndCornerRadiusL aBEndCornerRadiusB
     aBandBStart aBandBEnd : Z) : Checked :=
  if (aBStartCornerRadiusB >? 0)
     && (aBandBEnd >=? aShapeBoxBStart)
     && (aBandBEnd <=? aShapeBoxBStart .+ aBStartCornerRadiusB)
  then
    let b := aBStartCornerRadiusB .- (aBandBEnd .- aShapeBoxBStart) in
    match Ellipse_XInterceptAtY_checked b aBStartCornerRadiusL aBStartCornerRadiusB with
    | Ok lineIntercept => Ok (aBStartCornerRadiusL .- lineIntercept)
    | fault => fault
    end
  else if (aBEndCornerRadiusB >? 0)
          && (aBandBStart >=? aShapeBoxBEnd .- aBEndCornerRadiusB)
          && (aBandBStart <=? aShapeBoxBEnd)
  then
    let b := aBEndCornerRadiusB .- (aShapeBoxBEnd .- aBandBStart) in
    match Ellipse_XInterceptAtY_checked b aBEndCornerRadiusL aBEndCornerRadiusB with
    | Ok lineIntercept => Ok (aBEndCornerRadiusL .- lineIntercept)
    | fault => fault
    end
  else Ok 0.

(** [PolygonShapeInfo::XInterceptAtY]: asserts [aP1.y <= aY <= aP2.y] and
    [aP1.y != aP2.y]; divides [(aY - aP1.y) * (aP2.x - aP1.x)] by
    [aP2.y - aP1.y], both 32-bit values. *)
Definition Polygon_XInterceptAtY_checked (aY : Z) (aP1 aP2 : nsPoint) : Checked :=
  if negb ((pt_y aP1 <=? aY) && (aY <=? pt_y aP2)) then AssertionFailure
  else if pt_y aP1 =? pt_y aP2 then AssertionFailure
  else
    let dividend := (aY .- pt_y aP1) .* (pt_x aP2 .- pt_x aP1) in
    let divisor := pt_y aP2 .- pt_y aP1 in
    if divisor =? 0 then DivisionByZero
    else if nscoord_div_traps dividend divisor then DivisionOverflow
    else Ok (Polygon_XInterceptAtY aY aP1 aP2).

Definition ComputeLineIntercept_step_checked (vs : list nsPoint) (aBStart aBEnd : Z)
    (aCompareOp : Z -> Z -> Z) (acc : Checked) (i : nat) : Checked :=
  match acc with
  | Ok lineIntercept =>
      let len := length vs in
      let v0 := nth i vs (mkPoint 0 0) in
      let v1 := nth ((i + 1) mod len)%nat vs (mkPoint 0 0) in
      let smallYVertex := if pt_y v0 >? pt_y v1 then v1 else v0 in
      let bigYVertex := if pt_y v0 >? pt_y v1 then v0 else v1 in
      if (aBStart >=? pt_y bigYVertex) || (aBEnd <=? pt_y smallYVertex)
         || (pt_y smallYVertex =? pt_y bigYVertex)
      then Ok lineIntercept
      else
        match (if aBStart <=? pt_y smallYVertex then Ok (pt_x smallYVertex)
               else Polygon_XInterceptAtY_checked aBStart smallYVertex bigYVertex)
        with
        | Ok bStartLineIntercept =>
            match (if aBEnd >=? pt_y bigYVertex then Ok (pt_x bigYVertex)
                   else Polygon_XInterceptAtY_checked aBEnd smallYVertex bigYVertex)
            with
            | Ok bEndLineIntercept =>
                Ok (aCompareOp (aCompareOp lineIntercept bStartLineIntercept)
                               bEndLineIntercept)
            | fault => fault
            end
        | fault => fault
        end
  | fault => fault
  end.

Definition ComputeLineIntercept_checked (vs : list nsPoint) (aBStart aBEnd : Z)
    (aCompareOp : Z -> Z -> Z) (aLineInterceptInitialValue : Z) : Checked :=
  fold_left (ComputeLineIntercept_step_checked vs aBStart aBEnd aCompareOp)
            (seq 0 (length vs)) (Ok aLineInterceptInitialValue).

(** ** The cache of manager instances

    [operator new], [operator delete] and [Shutdown] keep a fixed-size array
    of freed instances and a count that [Shutdown] sets to -1.  Pointers are
    numbers, the null pointer is 0; the global allocator is not modelled: the
    operators say when they call it. *)

Section ManagerCache.

(** The capacity [NS_FLOAT_MANAGER_CACHE_SIZE], a constant of
    nsFloatManager.h, which is not among the sources. *)
Variable NS_FLOAT_MANAGER_CACHE_SIZE : Z.

Record ManagerCache := mkCache {
  sCachedFloatManagerCount : Z;
  sCachedFloatManagers : Z -> nat
}.

(** The static initial state: no cached instance. *)
Definition ManagerCache_init : ManagerCache := mkCache 0 (fun _ => O).

(** [sCachedFloatManagers[i] = p]. *)
Definition cache_store (slots : Z -> nat) (i : Z) (p : nat) : Z -> nat :=
  fun j => if j =? i then p else slots j.

(** What [operator new] returns: a cached instance, or the result of the
    global allocator. *)
Inductive NewResult := FromCache (p : nat) | FromMalloc.

Definition operator_new (c : ManagerCache) : NewResult * ManagerCache :=
  if sCachedFloatManagerCount c >? 0 then
    let count := sCachedFloatManagerCount c - 1 in
    (FromCache (sCachedFloatManagers c count),
     mkCache count (sCachedFloatManagers c))
  else (FromMalloc, c).

(** What [operator delete] does with the pointer: nothing (null), keeps it in
    the cache, or frees it. *)
Inductive DeleteResult := NullIgnored | Cached | Freed.

Definition operator_delete (c : ManagerCache) (aPtr : nat)
    : DeleteResult * ManagerCache :=
  if Nat.eqb aPtr O then (NullIgnored, c)
  else if (sCachedFloatManagerCount c <? NS_FLOAT_MANAGER_CACHE_SIZE)
          && (sCachedFloatManagerCount c >=? 0)
  then
    (Cached,
     mkCache (sCachedFloatManagerCount c + 1)
             (cache_store (sCachedFloatManagers c) (sCachedFloatManagerCount c) aPtr))
  else (Freed, c).

(** [Shutdown]: frees the cached instances that are not null, in slot order,
    and disables further caching.  The result lists the pointers freed. *)
Definition Shutdown (c : ManagerCache) : list nat * ManagerCache :=
  (filter (fun p => negb (Nat.eqb p O))
          (map (fun i => sCachedFloatManagers c (Z.of_nat i))
               (seq 0 (Z.to_nat (sCachedFloatManagerCount c)))),
   mkCache (-1) (sCachedFloatManagers c)).

End ManagerCache.

(** ** CalculateRegionFor *)

(** Modelled from the spec: a logical margin, and [LogicalRect::Inflate],
    which expands a rect by a margin on its four sides (WritingModes.h is not
    among the sources). *)
Record LogicalMargin := mkLMargin {
  mg_IStart : Z; mg_IEnd : Z; mg_BStart : Z; mg_BEnd : Z
}.

Definition LRect_Inflate (r : LogicalRect) (aMargin : LogicalMargin) : LogicalRect :=
  mkLRect (IStart r .- mg_IStart aMargin) (BStartL r .- mg_BStart aMargin)
          (ISize r .+ (mg_IStart aMargin .+ mg_IEnd aMargin))
          (BSizeL r .+ (mg_BStart aMargin .+ mg_BEnd aMargin)).

(** [CalculateRegionFor].  [aFrameRect] is the frame's rect at its normal
    position, [LogicalRect(aWM, nsRect(GetNormalPosition(), GetSize()),
    aContainerSize)], which the frame tree supplies. *)
Definition CalculateRegionFor (aWM : WritingMode) (aFloat : nsIFrame)
    (aFrameRect : LogicalRect) (aMargin : LogicalMargin) : LogicalRect :=
  let region := LRect_Inflate aFrameRect aMargin in
  let region :=
    if ISize region <? 0 then
      let floatStyle := PhysicalFloats aFloat aWM in
      let region :=
        if Bool.eqb (StyleFloat_eqb StyleFloat_Left floatStyle) (IsBidiLTR aWM)
        then mkLRect (IEnd region) (BStartL region) (ISize region) (BSizeL region)
        else region in
      mkLRect (IStart region) (BStartL region) 0 (BSizeL region)
    else region in
  if BSizeL region <? 0
  then mkLRect (IStart region) (BStartL region) (ISize region) 0
  else region.

(** ** The constructor of ImageShapeInfo *)

(** The inner loop of the constructor for the row or column [b]: the first
    and the last inline index whose alpha is above the threshold, [-1] for
    both when there is none.  [aAlphaPixels] is the buffer, read at an
    index. *)
Definition ImageShapeInfo_scan (aAlphaPixels : Z -> Z) (aStride : Z)
    (isVertical : bool) (threshold : Z) (iSize : Z) (b : Z) : Z * Z :=
  fold_left
    (fun (acc : Z * Z) (i : Z) =>
       let col := if isVertical then b else i in
       let row := if isVertical then i else b in
       let alpha := aAlphaPixels (col .+ row .* aStride) in
       if alpha >? threshold
       then (if fst acc =? -1 then i else fst acc, i)
       else acc)
    (map Z.of_nat (seq 0 (Z.to_nat iSize))) (-1, -1).

(** The interval stored for the row or column [b] with the inline extent
    [iMin .. iMax].  [origin] is the origin of the content rect in the
    float manager's logical coordinates. *)
Definition ImageShapeInfo_interval (aAppUnitsPerDevPixel : Z) (origin : nsPoint)
    (isVerticalRL isSidewaysLR : bool) (b iMin iMax : Z) : nsRect :=
  let size :=
    mkSize (((iMax .+ 1) .- iMin) .* aAppUnitsPerDevPixel) aAppUnitsPerDevPixel in
  let origin :=
    if isVerticalRL then
      point_MoveBy origin (iMin .* aAppUnitsPerDevPixel)
                   ((b .+ 1) .* (0 .- aAppUnitsPerDevPixel))
    else if isSidewaysLR then
      point_MoveBy origin ((iMax .+ 1) .* (0 .- aAppUnitsPerDevPixel))
                   (b .* aAppUnitsPerDevPixel)
    else
      point_MoveBy origin (iMin .* aAppUnitsPerDevPixel)
                   (b .* aAppUnitsPerDevPixel) in
  mkRect (pt_x origin) (pt_y origin) (sz_width size) (sz_height size).

(** The intervals in the order the outer loop appends them. *)
Definition ImageShapeInfo_appended (aAlphaPixels : Z -> Z) (aStride : Z)
    (w h : Z) (aAppUnitsPerDevPixel : Z) (threshold : Z) (origin : nsPoint)
    (isVertical isVerticalRL isSidewaysLR : bool) : list nsRect :=
  let bSize := if isVertical then w else h in
  let iSize := if isVertical then h else w in
  flat_map
    (fun b =>
       let found :=
         ImageShapeInfo_scan aAlphaPixels aStride isVertical threshold iSize b in
       if fst found =? -1 then []
       else [ImageShapeInfo_interval aAppUnitsPerDevPixel origin isVerticalRL
               isSidewaysLR b (fst found) (snd found)])
    (map Z.of_nat (seq 0 (Z.to_nat bSize))).

(** The constructor.  The threshold byte
    [NSToIntFloor(aShapeImageThreshold * 255)], the converted origin
    [ConvertToFloatLogical(aContentRect.TopLeft(), aWM, aContainerSize)] and
    the three writing-mode tests [IsVertical()], [IsVerticalRL()] and
    [IsVerticalLR() && IsSideways()] are arguments here: the callees are
    outside nsFloatManager.cpp. *)
Definition ImageShapeInfo_new (aAlphaPixels : Z -> Z) (aStride : Z)
    (w h : Z) (aAppUnitsPerDevPixel : Z) (threshold : Z) (origin : nsPoint)
    (isVertical isVerticalRL isSidewaysLR : bool) : ImageShapeInfo :=
  let appended :=
    ImageShapeInfo_appended aAlphaPixels aStride w h aAppUnitsPerDevPixel
      threshold origin isVertical isVerticalRL isSidewaysLR in
  let intervals := if isVerticalRL then rev appended else appended in
  match intervals with
  | [] => mkImage intervals nscoord_MAX nscoord_MIN
  | first :: _ =>
      mkImage intervals (y first) (YMost (last intervals first))
  end.

(** ** Sequences of operations *)

(** The operations a reflow driver applies between a [PushState] and the
    matching [PopState]: float insertions, origin changes, break-flag changes
    and damage. *)
Inductive ManagerOp :=
| OpAddFloat (aFloatFrame : nsIFrame) (aMarginRect : LogicalRect)
             (aWM : WritingMode) (aContainerSize : nsSize)
| OpTranslate (aLineLeft aBlockStart : Z)
| OpSetBreakFlag (f : BreakFlag) (v : bool)
| OpIncludeInDamage (aIntervalBegin aIntervalEnd : Z).

Definition applyOp (m : nsFloatManager) (op : ManagerOp) : nsFloatManager :=
  match op with
  | OpAddFloat f r wm cs => AddFloat m f r wm cs
  | OpTranslate dx dy => Translate m dx dy
  | OpSetBreakFlag f v => SetBreakFlag m f v
  | OpIncludeInDamage a b => IncludeInDamage m a b
  end.

Definition runOps (m : nsFloatManager) (ops : list ManagerOp) : nsFloatManager :=
  fold_left applyOp ops m.

(** The manager states a driver can reach from a fresh manager.  [PushState]
    only fills the checkpoint and leaves the manager as it is. *)
Inductive reachable : nsFloatManager -> Prop :=
| reach_new : reachable nsFloatManager_new
| reach_op m op : reachable m -> reachable (applyOp m op)
| reach_RemoveTrailingRegions m aFrameList :
    reachable m -> reachable (RemoveTrailingRegions m aFrameList)
| reach_PopState m aState m' :
    reachable m -> PopState m aState = Some m' -> reachable m'.

(** The cumulative summaries never decrease along the registry. *)
Definition summaries_monotone (fs : list FloatInfo) : Prop :=
  forall (i : nat) (prev cur : FloatInfo),
    (1 <= i)%nat ->
    nth_error fs (i - 1) = Some prev -> nth_error fs i = Some cur ->
    mLeftBEnd prev <= mLeftBEnd cur /\ mRightBEnd prev <= mRightBEnd cur.

(** ** Reading a [GetFlowArea] call *)

(** Whether [GetFlowArea] returns before the walk: no float in scope, or the
    last in-scope entry's cumulative block ends both at or above the band
    start. *)
Definition GetFlowArea_quick (m : nsFloatManager) (aBCoord : Z)
    (aState : option SavedState) : bool :=
  match GetFlowArea_floatCount m aState with
  | O => true
  | S k =>
      match nth_error (mFloats m) k with
      | None => false
      | Some tail =>
          (mLeftBEnd tail <=? GetFlowArea_blockStart m aBCoord)
          && (mRightBEnd tail <=? GetFlowArea_blockStart m aBCoord)
      end
  end.

(** The band edges L and R of a call, in the manager's line-left frame: the
    edges the walk ends with, and the translated content-area edges when the
    call returns before the walk. *)
Definition GetFlowArea_edges (m : nsFloatManager) (aWM : WritingMode)
    (aBCoord aBSize : Z) (aBandInfoType : BandInfoType) (aShapeType : ShapeType)
    (aContentArea : LogicalRect) (aState : option SavedState)
    (aContainerSize : nsSize) : Z * Z :=
  let st :=
    if GetFlowArea_quick m aBCoord aState
    then GetFlowArea_init m aWM aBCoord aBSize aContentArea aContainerSize
    else GetFlowArea_band m aWM aBCoord aBSize aBandInfoType aShapeType
                          aContentArea aState aContainerSize in
  (lineLeft st, lineRight st).

(** A coordinate far enough from the 32-bit limits that the sums and
    differences of a query do not wrap. *)
Definition safe_coord (z : Z) : Prop := - 2 ^ 28 <= z <= 2 ^ 28.

(** A content area of non-negative inline size whose edges, and the
    container's inline size, are safe coordinates. *)
Definition content_area_ok (aWM : WritingMode) (aContentArea : LogicalRect)
    (aContainerSize : nsSize) : Prop :=
  0 <= ISize aContentArea
  /\ safe_coord (IStart aContentArea)
  /\ safe_coord (IStart aContentArea + ISize aContentArea)
  /\ safe_coord (containerISize aWM aContainerSize).

(** A float whose margin box has safe inline edges. *)
Definition float_rect_ok (fi : FloatInfo) : Prop :=
  safe_coord (x (mRect fi)) /\ safe_coord (x (mRect fi) + width (mRect fi)).

(** ** Shapes whose edges are monotone in the band *)

(** Widening a band at its block end can only push a shape's line-right edge
    further right and its line-left edge further left. *)
Definition band_monotone (s : ShapeInfo) : Prop :=
  forall bs be, bs <= be ->
    Shape_LineRight s bs bs <= Shape_LineRight s bs be
    /\ Shape_LineLeft s bs be <= Shape_LineLeft s bs bs.

(** The same for a float, for the shape type of a query: the margin box is
    the same for every band. *)
Definition float_band_monotone (aShapeType : ShapeType) (fi : FloatInfo) : Prop :=
  match aShapeType, mShapeInfo fi with
  | ShapeOutside, Some s => band_monotone s
  | _, _ => True
  end.

(** ** Predicates of the statements *)

(** The break-flag sentinel case of [ClearFloats], as the spec words it. *)
Definition clear_sentinel_case (m : nsFloatManager) (aBreakType : StyleClear)
    (aFlags : Z) : Prop :=
  Z.land aFlags DONT_CLEAR_PUSHED_FLOATS = 0
  /\ (((aBreakType = StyleClear_Left \/ aBreakType = StyleClear_Both)
       /\ (mPushedLeftFloatPastBreak m = true \/ mSplitLeftFloatAcrossBreak m = true))
      \/ ((aBreakType = StyleClear_Right \/ aBreakType = StyleClear_Both)
          /\ (mPushedRightFloatPastBreak m = true
              \/ mSplitRightFloatAcrossBreak m = true))).

(** What [AddFloat] appends: the summaries of the previous tail (or the
    minimum sentinel), with the float's own side raised to its block end. *)
Definition AddFloat_summaries (m : nsFloatManager) (aFloatFrame : nsIFrame)
    (aWM : WritingMode) (info : FloatInfo) : Prop :=
  let prevLeft :=
    match tailFloat (mFloats m) with
    | Some tail => mLeftBEnd tail | None => nscoord_MIN
    end in
  let prevRight :=
    match tailFloat (mFloats m) with
    | Some tail => mRightBEnd tail | None => nscoord_MIN
    end in
  (PhysicalFloats aFloatFrame aWM = StyleFloat_Left ->
     mLeftBEnd info = Z.max prevLeft (YMost (mRect info))
     /\ mRightBEnd info = prevRight)
  /\ (PhysicalFloats aFloatFrame aWM = StyleFloat_Right ->
     mLeftBEnd info = prevLeft
     /\ mRightBEnd info = Z.max prevRight (YMost (mRect info))).

(** [m] is the least block coordinate of the vertices. *)
Definition is_min_y (vs : list nsPoint) (m : Z) : Prop :=
  (exists v, In v vs /\ pt_y v = m) /\ forall v, In v vs -> m <= pt_y v.

(** [m] is the greatest block coordinate of the vertices. *)
Definition is_max_y (vs : list nsPoint) (m : Z) : Prop :=
  (exists v, In v vs /\ pt_y v = m) /\ forall v, In v vs -> pt_y v <= m.

(** The determinant of [p2 - p0] and [p1 - p0] over the integers: twice the
    signed area of the triangle, zero exactly when the three points lie on
    one line. *)
Definition cross_product (p0 p1 p2 : nsPoint) : Z :=
  (pt_x p2 - pt_x p0) * (pt_y p1 - pt_y p0)
  - (pt_y p2 - pt_y p0) * (pt_x p1 - pt_x p0).

(** The collinearity of the spec: every vertex from the third on lies on the
    line of the first two. *)
Definition entirely_collinear (vs : list nsPoint) : Prop :=
  forall (i : nat) (p2 : nsPoint),
    (2 <= i)%nat -> nth_error vs i = Some p2 ->
    cross_product (nth 0 vs (mkPoint 0 0)) (nth 1 vs (mkPoint 0 0)) p2 = 0.

(** What the loop of the constructor finds: every vertex from the third on
    passes the test of the 32-bit [Determinant]. *)
Definition isEntirelyCollinear (vs : list nsPoint) : Prop :=
  forall (i : nat) (p2 : nsPoint),
    (2 <= i)%nat -> nth_error vs i = Some p2 ->
    Determinant (point_sub p2 (nth 0 vs (mkPoint 0 0)))
                (point_sub (nth 1 vs (mkPoint 0 0)) (nth 0 vs (mkPoint 0 0))) = 0.

(** Vertices whose coordinates are below 2^14 in absolute value: no product
    of the determinant wraps. *)
Definition small_vertices (vs : list nsPoint) : Prop :=
  Forall (fun v => - 2 ^ 14 < pt_x v < 2 ^ 14 /\ - 2 ^ 14 < pt_y v < 2 ^ 14) vs.

(** The block end of the band never leaves [blockStart, nscoord_MAX], the
    sentinel apart. *)
Definition blockEnd_ok (blockStart : Z) (st : BandState) : Prop :=
  blockEnd st <= nscoord_MAX
  /\ (blockStart <= blockEnd st \/ blockEnd st = nscoord_MAX).

(** The inline edges of the band: the line-left edge only moves right, at
    most to the right edge of a float's margin box; the line-right edge only
    moves left, at most to the left edge of one. *)
Definition edges_ok (L0 R0 : Z) (st : BandState) : Prop :=
  L0 <= lineLeft st <= Z.max L0 (2 ^ 28)
  /\ Z.min R0 (- 2 ^ 28) <= lineRight st <= R0.

(** The WidthWithinHeight band is at least as narrow as the BandFromPoint
    band and keeps its block end. *)
Definition narrower (beW : Z) (stP stW : BandState) : Prop :=
  lineLeft stP <= lineLeft stW
  /\ lineRight stW <= lineRight stP
  /\ blockEnd stW = beW.

(** ** Sample data *)

Definition horizontal_ltr : WritingMode := mkWM true false.
Definition horizontal_rtl : WritingMode := mkWM false false.
Definition container1000 : nsSize := mkSize 1000 1000.

(** A frame floated to a fixed physical side, without [shape-outside]. *)
Definition plain_frame (id : nat) (side : StyleFloat) : nsIFrame :=
  mkFrame id (fun _ => side) (fun _ _ _ => None).

(** A frame floated to a fixed physical side whose style yields [shape]. *)
Definition shaped_frame (id : nat) (side : StyleFloat) (shape : ShapeInfo) : nsIFrame :=
  mkFrame id (fun _ => side) (fun _ _ _ => Some shape).

(** One left float, margin box (0, 0, 200, 100). *)
Definition one_left_float : nsFloatManager :=
  AddFloat nsFloatManager_new (plain_frame 1 StyleFloat_Left)
           (mkLRect 0 0 200 100) horizontal_ltr container1000.

(** A left float (0, 0, 200, 100) followed by a right float (800, 0, 200, 150). *)
Definition left_and_right_float : nsFloatManager :=
  AddFloat one_left_float (plain_frame 2 StyleFloat_Right)
           (mkLRect 800 0 200 150) horizontal_ltr container1000.

(** A right triangle, and three points on a line. *)
Definition triangle_200 : list nsPoint :=
  [mkPoint 0 0; mkPoint 200 0; mkPoint 0 200].
Definition collinear_3 : list nsPoint :=
  [mkPoint 0 0; mkPoint 10 10; mkPoint 20 20].

(** A right triangle with legs of 65536 app units (about 1092 CSS px). *)
Definition triangle_65536 : list nsPoint :=
  [mkPoint 0 0; mkPoint 65536 0; mkPoint 0 65536].

(** A left float with margin box (0, 0, 65536, 65536) whose shape is the
    polygon of [triangle_65536], in a container 100000 wide, and a content
    area over the whole container. *)
Definition container_100000 : nsSize := mkSize 100000 100000.
Definition content_0_100000 : LogicalRect := mkLRect 0 0 100000 0.
Definition triangle_65536_float : nsFloatManager :=
  AddFloat nsFloatManager_new
           (shaped_frame 1 StyleFloat_Left
                         (Polygon (PolygonShapeInfo_new triangle_65536)))
           (mkLRect 0 0 65536 65536) horizontal_ltr container_100000.

(** A left float with margin box (0, 0, 200, 100) whose shape is the polygon
    of [collinear_3]. *)
Definition collinear_float : FloatInfo :=
  mkFloatInfo (plain_frame 1 StyleFloat_Left) 100 nscoord_MIN
              (mkRect 0 0 200 100)
              (Some (Polygon (PolygonShapeInfo_new collinear_3))).

(** [left_and_right_float] with a third float, a left one with margin box
    (0, 100, 300, 50), below the first. *)
Definition three_floats : nsFloatManager :=
  AddFloat left_and_right_float (plain_frame 3 StyleFloat_Left)
           (mkLRect 0 100 300 50) horizontal_ltr container1000.

(** A left float with margin box (0, 0, 200, 200) whose shape is the polygon
    of [triangle_200]. *)
Definition triangle_float : nsFloatManager :=
  AddFloat nsFloatManager_new
           (shaped_frame 1 StyleFloat_Left
                         (Polygon (PolygonShapeInfo_new triangle_200)))
           (mkLRect 0 0 200 200) horizontal_ltr container1000.

(** One left float added under RTL in a container 1000 wide: its logical
    margin rect (800, 0, 200, 100) is (0, 0, 200, 100) in line-left
    coordinates.  The content area [100, 900). *)
Definition one_left_float_rtl : nsFloatManager :=
  AddFloat nsFloatManager_new (plain_frame 1 StyleFloat_Left)
           (mkLRect 800 0 200 100) horizontal_rtl container1000.
Definition content_100_900 : LogicalRect := mkLRect 100 0 800 0.

(** A left float whose margin box (0, 0, 500, 100) reaches past the content
    area [0, 300). *)
Definition wide_left_float : nsFloatManager :=
  AddFloat nsFloatManager_new (plain_frame 1 StyleFloat_Left)
           (mkLRect 0 0 500 100) horizontal_ltr container1000.
Definition content_0_300 : LogicalRect := mkLRect 0 0 300 0.
Definition content_0_1000 : LogicalRect := mkLRect 0 0 1000 0.

(** A left float with margin box (0, 0, 200000, 200000) whose shape is a
    circle of radius 50000 centred in it, in a container 1000000 wide. *)
Definition circle_50000 : ShapeInfo :=
  Ellipse (mkPoint 100000 100000) (mkSize 50000 50000).
Definition container_wide : nsSize := mkSize 1000000 1000000.
Definition content_wide : LogicalRect := mkLRect 0 0 1000000 0.
Definition circle_float : nsFloatManager :=
  AddFloat nsFloatManager_new (shaped_frame 1 StyleFloat_Left circle_50000)
           (mkLRect 0 0 200000 200000) horizontal_ltr container_wide.

(** ** Runs of the instance cache *)

(** The cached instances, the most recently cached first. *)
Definition cache_stack (c : ManagerCache) : list nat :=
  map (fun i => sCachedFloatManagers c (Z.of_nat i))
      (rev (seq 0 (Z.to_nat (sCachedFloatManagerCount c)))).

Inductive CacheOp := OpNew | OpDelete (aPtr : nat) | OpShutdown.

Inductive CacheEvent :=
| EvNew (r : NewResult)
| EvDelete (aPtr : nat) (r : DeleteResult)
| EvShutdown (freed : list nat).

Definition cache_step (size : Z) (c : ManagerCache) (op : CacheOp)
    : CacheEvent * ManagerCache :=
  match op with
  | OpNew => let '(r, c') := operator_new c in (EvNew r, c')
  | OpDelete p => let '(r, c') := operator_delete size c p in (EvDelete p r, c')
  | OpShutdown => let '(freed, c') := Shutdown c in (EvShutdown freed, c')
  end.

Fixpoint cache_run (size : Z) (c : ManagerCache) (ops : list CacheOp)
    : list CacheEvent * ManagerCache :=
  match ops with
  | [] => ([], c)
  | op :: rest =>
      let '(ev, c') := cache_step size c op in
      let '(evs, c'') := cache_run size c' rest in
      (ev :: evs, c'')
  end.

(** The pointers of a run: those given to [operator delete] (null apart),
    those [operator new] took from the cache, and those freed, by
    [operator delete] or by [Shutdown]. *)
Definition deleted_of (ev : CacheEvent) : list nat :=
  match ev with
  | EvDelete p NullIgnored => []
  | EvDelete p _ => [p]
  | _ => []
  end.
Definition reused_of (ev : CacheEvent) : list nat :=
  match ev with EvNew (FromCache p) => [p] | _ => [] end.
Definition freed_of (ev : CacheEvent) : list nat :=
  match ev with
  | EvDelete p Freed => [p]
  | EvShutdown freed => freed
  | _ => []
  end.

(** Caching is enabled or shut down, at most [size] instances are cached, and
    no cached pointer is null. *)
Definition cache_ok (size : Z) (c : ManagerCache) : Prop :=
  (sCachedFloatManagerCount c = -1
   \/ 0 <= sCachedFloatManagerCount c <= size)
  /\ Forall (fun p => p <> O) (cache_stack c).

(** An event of a cache that no longer caches: the allocator serves every
    [operator new], and every pointer deleted is freed. *)
Definition uncached_event (ev : CacheEvent) : Prop :=
  match ev with
  | EvNew r => r = FromMalloc
  | EvDelete p r => r = (if Nat.eqb p O then NullIgnored else Freed)
  | EvShutdown freed => freed = []
  end.

(** ** Cumulative block ends and the floats they summarise *)

(** Every entry's cumulative block ends reach the block end of the entry's
    own margin box. *)
Definition summaries_cover (fs : list FloatInfo) : Prop :=
  Forall (fun fi => FI_BEnd fi <= Z.max (mLeftBEnd fi) (mRightBEnd fi)) fs.

(** The floats a [GetFlowArea] call looks at. *)
Definition GetFlowArea_scope (m : nsFloatManager) (aState : option SavedState)
    : list FloatInfo :=
  firstn (GetFlowArea_floatCount m aState) (mFloats m).

(** The entry of a registry at an index, for reading sample registries. *)
Definition float_at (m : nsFloatManager) (i : nat) : FloatInfo :=
  nth i (mFloats m)
      (mkFloatInfo (plain_frame 0 StyleFloat_None) 0 0 (mkRect 0 0 0 0) None).

(** ** Invariants of the walk *)

(** The band against the band [st0] the walk started from: the edges have
    only moved inwards, and floats are reported exactly when one of them has
    moved. *)
Definition narrowed_ok (st0 st : BandState) : Prop :=
  lineLeft st0 <= lineLeft st
  /\ lineRight st <= lineRight st0
  /\ (haveFloats st = true
      <-> lineLeft st0 < lineLeft st \/ lineRight st < lineRight st0).

(** The block end against the block end [be0] the walk started from: it is
    never raised, and only a BandFromPoint walk lowers it. *)
Definition blockEnd_lowered (aBandInfoType : BandInfoType) (be0 : Z)
    (st : BandState) : Prop :=
  blockEnd st <= be0
  /\ (aBandInfoType = WidthWithinHeight -> blockEnd st = be0).

(** ** Arguments of [ClearFloats] away from the 32-bit limits *)

(** A block coordinate and a block origin that are safe coordinates, and a
    tail entry whose cumulative block ends are [nscoord]s between the two
    sentinels. *)
Definition clear_args_ok (m : nsFloatManager) (aBCoord : Z) : Prop :=
  safe_coord aBCoord /\ safe_coord (mBlockStart m)
  /\ forall tail, tailFloat (mFloats m) = Some tail ->
       nscoord_ok (mLeftBEnd tail) /\ nscoord_ok (mRightBEnd tail).

(** ** Image intervals *)

(** The intervals as the constructor of [ImageShapeInfo] means to store
    them: each of a positive block size, in ascending block order, none
    reaching into the next. *)
Definition intervals_ascending (ivs : list nsRect) : Prop :=
  Forall (fun iv => y iv < YMost iv) ivs
  /\ forall (i j : nat) (a b : nsRect),
       (i < j)%nat -> nth_error ivs i = Some a -> nth_error ivs j = Some b ->
       YMost a <= y b.

(** Whether an interval takes part in the band [aBStart, aBEnd] for
    [LineEdge]: it ends after the band's start and starts at or before the
    band's end. *)
Definition overlaps_band (aBStart aBEnd : Z) (iv : nsRect) : bool :=
  (aBStart <? YMost iv) && (y iv <=? aBEnd).

(** The update of [lineEdge] by one interval. *)
Definition LineEdge_update (aLeft : bool) (lineEdge : Z) (interval : nsRect) : Z :=
  if aLeft then Z.min lineEdge (x interval) else Z.max lineEdge (XMost interval).

(** Three one-pixel rows at y = 0, 60 and 120. *)
Definition three_rows : list nsRect :=
  [mkRect 0 0 120 60; mkRect 60 60 60 60; mkRect 0 120 180 60].

(** ** The two polygon edges of a band, computed side by side *)

(** Either no segment has contributed, and the two edges are still their
    sentinels, or the line-left edge is at or before the line-right edge. *)
Definition edges_ordered (lineLeft lineRight : Z) : Prop :=
  (lineLeft = nscoord_MAX /\ lineRight = nscoord_MIN) \/ lineLeft <= lineRight.

(** ** Arguments of the ImageShapeInfo constructor *)

(** A positive pixel size, and a block extent of the image that stays within
    32 bits on both sides of the origin. *)
Definition image_block_ok (aAppUnitsPerDevPixel bSize : Z) (origin : nsPoint)
    : Prop :=
  0 < aAppUnitsPerDevPixel
  /\ bSize < 2 ^ 31 - 1
  /\ - 2 ^ 31 <= pt_y origin - (Z.max bSize 0 + 1) * aAppUnitsPerDevPixel
  /\ pt_y origin + (Z.max bSize 0 + 1) * aAppUnitsPerDevPixel < 2 ^ 31.

(** The rows an interval of the constructor can come from: the block
    position of row or column [b], per writing mode. *)
Definition interval_of_row (aAppUnitsPerDevPixel : Z) (origin : nsPoint)
    (isVerticalRL : bool) (b : Z) (iv : nsRect) : Prop :=
  y iv = (if isVerticalRL
          then pt_y origin - (b + 1) * aAppUnitsPerDevPixel
          else pt_y origin + b * aAppUnitsPerDevPixel)
  /\ YMost iv = y iv + aAppUnitsPerDevPixel.

(** The order of the appended intervals: ascending, or descending for
    vertical-rl, before the constructor reverses them. *)
Definition appended_order (isVerticalRL : bool) (a b : nsRect) : Prop :=
  if isVerticalRL then YMost b <= y a else YMost a <= y b.

(** A 3 x 2 alpha buffer with stride 3: the rows (0, 255, 255) and
    (255, 0, 0). *)
Definition alpha_3x2 (index : Z) : Z :=
  nth (Z.to_nat index) [0; 255; 255; 255; 0; 0] 0.

(** The pixel test of the constructor's inner loop, at block index [b] and
    inline index [i]. *)
Definition alpha_above (aAlphaPixels : Z -> Z) (aStride : Z) (isVertical : bool)
    (threshold : Z) (b i : Z) : bool :=
  aAlphaPixels ((if isVertical then b else i)
                .+ (if isVertical then i else b) .* aStride) >? threshold.

(** What the inner loop has found after the inline indices below [n]. *)
Definition scan_found (above : Z -> bool) (n : Z) (found : Z * Z) : Prop :=
  (found = (-1, -1) /\ forall i, 0 <= i < n -> above i = false)
  \/ (0 <= fst found <= snd found /\ snd found < n
      /\ above (fst found) = true /\ above (snd found) = true
      /\ forall i, 0 <= i < n -> above i = true -> fst found <= i <= snd found).

(** ** A query seen from a translated origin *)

(** Congruence modulo 2^32, under which [wrap32] is the identity. *)
Definition eqm32 (a b : Z) : Prop := a mod 2 ^ 32 = b mod 2 ^ 32.

(** An inline coordinate of the caller after the origin has moved by [dx]
    towards line-right: the inline axis runs with the line under LTR and
    against it under RTL. *)
Definition shift_inline (aWM : WritingMode) (dx z : Z) : Z :=
  if IsBidiLTR aWM then z .- dx else z .+ dx.

Definition shift_LogicalRect (aWM : WritingMode) (dx dy : Z) (r : LogicalRect)
    : LogicalRect :=
  mkLRect (shift_inline aWM dx (IStart r)) (BStartL r .- dy) (ISize r) (BSizeL r).

Definition shift_nsFlowAreaRect (aWM : WritingMode) (dx dy : Z)
    (r : nsFlowAreaRect) : nsFlowAreaRect :=
  mkFlowArea (shift_LogicalRect aWM dx dy (fa_mRect r)) (mHasFloats r).
(** * Properties *)

(** ** 32-bit arithmetic *)

Lemma wrap32_id (z : Z) : int32_ok z -> wrap32 z = z.
Proof.
  unfold int32_ok, wrap32. intros H.
  rewrite Z.mod_small by lia. lia.
Qed.

Lemma wrap32_range (z : Z) : int32_ok (wrap32 z).
Proof.
  unfold int32_ok, wrap32.
  pose proof (Z.mod_pos_bound (z + 2 ^ 31) (2 ^ 32) ltac:(lia)). lia.
Qed.

Lemma wrap32_eqm (z : Z) : (wrap32 z) mod 2 ^ 32 = z mod 2 ^ 32.
Proof.
  unfold wrap32.
  rewrite Zminus_mod, Zmod_mod, <- Zminus_mod.
  f_equal. lia.
Qed.

Lemma wrap32_congr (a b : Z) : a mod 2 ^ 32 = b mod 2 ^ 32 -> wrap32 a = wrap32 b.
Proof.
  unfold wrap32. intros H.
  rewrite (Zplus_mod a), (Zplus_mod b), H. reflexivity.
Qed.

Lemma nscoord_ok_int32 (z : Z) : nscoord_ok z -> int32_ok z.
Proof. unfold nscoord_ok, int32_ok, nscoord_MIN, nscoord_MAX. lia. Qed.

(** Adding an offset and taking it away again is the identity on 32-bit
    values, whether or not the sum wraps. *)
Lemma nscoord_add_sub_cancel (a b : Z) : int32_ok a -> (a .+ b) .- b = a.
Proof.
  intros Ha. unfold nscoord_add, nscoord_sub.
  rewrite <- (wrap32_id a Ha) at 2.
  apply wrap32_congr.
  rewrite Zminus_mod, wrap32_eqm, <- Zminus_mod. f_equal. lia.
Qed.


(** ** Tactics *)

(** Removes the wrap-around of sums and differences that stay in range. *)
Ltac unwrap :=
  unfold nscoord_add, nscoord_sub in *;
  repeat match goal with
  | |- context [wrap32 ?z] =>
      rewrite (wrap32_id z)
        by (unfold int32_ok, safe_coord, nscoord_ok, nscoord_MIN, nscoord_MAX in *;
            lia)
  | H : context [wrap32 ?z] |- _ =>
      rewrite (wrap32_id z) in H
        by (unfold int32_ok, safe_coord, nscoord_ok, nscoord_MIN, nscoord_MAX in *;
            lia)
  end.

(** Case analysis on the integer comparisons of the goal. *)
Ltac zcases :=
  repeat (match goal with
          | |- context [?a <? ?b] => destruct (Z.ltb_spec a b)
          | |- context [?a <=? ?b] => destruct (Z.leb_spec a b)
          | |- context [?a >? ?b] => destruct (Z.gtb_spec a b)
          | |- context [?a >=? ?b] => destruct (Z.geb_spec a b)
          | |- context [?a =? ?b] => destruct (Z.eqb_spec a b)
          end; cbn [orb andb negb]).


(** ** The shape is clipped to the margin box *)

(** C1: for a float that has a shape strategy, the inline edges and the block
    extent a ShapeOutside query uses are the shape's values clipped to the
    margin box ([max] with the rect's line-left and block start, [min] with
    its line-right and block end), so none of them lies outside the margin
    box. *)
Theorem FloatInfo_shape_clipped_to_margin_box
    (frame : nsIFrame) (leftBEnd rightBEnd : Z) (rect : nsRect)
    (shape : ShapeInfo) (aBStart aBEnd : Z) :
  let fi := mkFloatInfo frame leftBEnd rightBEnd rect (Some shape) in
  FloatInfo_LineLeft fi ShapeOutside aBStart aBEnd
    = Z.max (x rect) (Shape_LineLeft shape aBStart aBEnd)
  /\ FloatInfo_LineRight fi ShapeOutside aBStart aBEnd
    = Z.min (XMost rect) (Shape_LineRight shape aBStart aBEnd)
  /\ FloatInfo_BStart fi ShapeOutside = Z.max (y rect) (Shape_BStart shape)
  /\ FloatInfo_BEnd fi ShapeOutside = Z.min (YMost rect) (Shape_BEnd shape)
  /\ FI_LineLeft fi <= FloatInfo_LineLeft fi ShapeOutside aBStart aBEnd
  /\ FloatInfo_LineRight fi ShapeOutside aBStart aBEnd <= FI_LineRight fi
  /\ FI_BStart fi <= FloatInfo_BStart fi ShapeOutside
  /\ FloatInfo_BEnd fi ShapeOutside <= FI_BEnd fi.
Proof.
  cbn. unfold FI_LineLeft, FI_LineRight, FI_BStart, FI_BEnd. cbn.
  repeat split; lia.
Qed.

(** ** ClearFloats *)

Lemma tailFloat_nil : tailFloat [] = None.
Proof. reflexivity. Qed.

Lemma tailFloat_app (fs : list FloatInfo) (fi : FloatInfo) :
  tailFloat (fs ++ [fi]) = Some fi.
Proof.
  unfold tailFloat. rewrite length_app. cbn.
  replace (length fs + 1 - 1)%nat with (length fs) by lia.
  rewrite nth_error_app2 by lia. now rewrite Nat.sub_diag.
Qed.

Lemma tailFloat_None (fs : list FloatInfo) : tailFloat fs = None -> fs = [].
Proof.
  destruct fs as [|f fs] using rev_ind; [reflexivity|].
  now rewrite tailFloat_app.
Qed.

Lemma ClearContinues_spec (m : nsFloatManager) (aBreakType : StyleClear)
    (aFlags : Z) :
  (Z.land aFlags DONT_CLEAR_PUSHED_FLOATS =? 0) && ClearContinues m aBreakType = true
  <-> clear_sentinel_case m aBreakType aFlags.
Proof.
  unfold clear_sentinel_case, ClearContinues.
  rewrite andb_true_iff, Z.eqb_eq, orb_true_iff, !andb_true_iff, !orb_true_iff.
  split.
  - intros [H0 [[Hl Hb]|[Hr Hb]]]; split; trivial;
      destruct aBreakType; try discriminate; auto.
  - intros [H0 [[[Hb|Hb] Hl]|[[Hb|Hb] Hr]]]; split; trivial; subst; auto.
Qed.

(** The registry holds a float exactly when it has a last entry. *)
Lemma HasAnyFloats_tailFloat (m : nsFloatManager) :
  HasAnyFloats m = true <-> exists tail, tailFloat (mFloats m) = Some tail.
Proof.
  unfold HasAnyFloats. split.
  - destruct (tailFloat (mFloats m)) as [tail|] eqn:Et; [now exists tail|].
    apply tailFloat_None in Et. now rewrite Et.
  - intros [tail Ht]. destruct (mFloats m); [discriminate Ht | reflexivity].
Qed.



(** C9: on an empty registry, outside the break-flag sentinel case,
    [ClearFloats] returns [bCoord] unchanged for every break type. *)
Theorem ClearFloats_empty_registry
    (m : nsFloatManager) (aBCoord : Z) (aBreakType : StyleClear) (aFlags : Z) :
  mFloats m = [] ->
  ~ clear_sentinel_case m aBreakType aFlags ->
  ClearFloats m aBCoord aBreakType aFlags = aBCoord.
Proof.
  intros Hfs Hn. unfold ClearFloats.
  destruct ((Z.land aFlags DONT_CLEAR_PUSHED_FLOATS =? 0)
            && ClearContinues m aBreakType) eqn:E.
  - exfalso. apply Hn. now apply ClearContinues_spec.
  - now rewrite Hfs.
Qed.

Lemma ClearFloats_empty_registry_witness :
  ClearFloats (Translate nsFloatManager_new 30 40) 25 StyleClear_Both 0 = 25.
Proof.
  apply (ClearFloats_empty_registry (Translate nsFloatManager_new 30 40)
                                    25 StyleClear_Both 0).
  - reflexivity.
  - intros [_ [[_ [H|H]]|[_ [H|H]]]]; discriminate H.
Defined.

(** ** Checkpoints *)

Lemma applyOp_extends (m : nsFloatManager) (op : ManagerOp) :
  (exists added, mFloats (applyOp m op) = mFloats m ++ added)
  /\ (exists extra, mFloatDamage (applyOp m op) = mFloatDamage m ++ extra).
Proof.
  destruct op; cbn.
  - split.
    + unfold AddFloat.
      destruct (tailFloat (mFloats m)) as [tail|]; cbn; eexists; reflexivity.
    + exists []. unfold AddFloat.
      destruct (tailFloat (mFloats m)) as [tail|]; cbn; now rewrite app_nil_r.
  - split; exists []; now rewrite app_nil_r.
  - split; exists []; now rewrite app_nil_r.
  - split; [exists []; now rewrite app_nil_r | eexists; reflexivity].
Qed.

Lemma runOps_extends (ops : list ManagerOp) (m : nsFloatManager) :
  (exists added, mFloats (runOps m ops) = mFloats m ++ added)
  /\ (exists extra, mFloatDamage (runOps m ops) = mFloatDamage m ++ extra).
Proof.
  revert m. induction ops as [|op ops IH]; intros m; cbn.
  - split; exists []; now rewrite app_nil_r.
  - destruct (IH (applyOp m op)) as [[a1 H1] [e1 H2]].
    destruct (applyOp_extends m op) as [[a0 H3] [e0 H4]].
    unfold runOps in *. rewrite H1, H2, H3, H4, <- !app_assoc.
    split; eexists; reflexivity.
Qed.

(** C4: [PushState] followed by any sequence of float insertions, origin and
    flag changes (and damage), then [PopState] with the same checkpoint: the
    pop succeeds, and the origin, the four break flags and the float count are
    those the checkpoint captured, which are those of the manager at the
    push; the floats added since are gone.  The damage sink is not restored:
    it is the sink as the operations left it, the sink at the push followed by
    what was added. *)
Theorem PushState_PopState_restores (m : nsFloatManager) (ops : list ManagerOp) :
  let s := PushState m in
  exists m',
    PopState (runOps m ops) s = Some m'
    /\ mLineLeft m' = s_mLineLeft s /\ mLineLeft m' = mLineLeft m
    /\ mBlockStart m' = s_mBlockStart s /\ mBlockStart m' = mBlockStart m
    /\ mPushedLeftFloatPastBreak m' = mPushedLeftFloatPastBreak m
    /\ mPushedRightFloatPastBreak m' = mPushedRightFloatPastBreak m
    /\ mSplitLeftFloatAcrossBreak m' = mSplitLeftFloatAcrossBreak m
    /\ mSplitRightFloatAcrossBreak m' = mSplitRightFloatAcrossBreak m
    /\ length (mFloats m') = s_mFloatInfoCount s
    /\ mFloats m' = mFloats m
    /\ mFloatDamage m' = mFloatDamage (runOps m ops)
    /\ exists extra, mFloatDamage m' = mFloatDamage m ++ extra.
Proof.
  intros s.
  destruct (runOps_extends ops m) as [[added Hf] [extra Hd]].
  assert (Hlt : (length (mFloats (runOps m ops)) <? length (mFloats m))%nat = false).
  { apply Nat.ltb_ge. rewrite Hf, length_app. lia. }
  subst s. unfold PopState, PushState.
  cbn [s_mFloatInfoCount s_mLineLeft s_mBlockStart s_mPushedLeftFloatPastBreak
       s_mPushedRightFloatPastBreak s_mSplitLeftFloatAcrossBreak
       s_mSplitRightFloatAcrossBreak].
  rewrite Hlt.
  eexists. split; [reflexivity|].
  cbn [mLineLeft mBlockStart mFloats mFloatDamage mPushedLeftFloatPastBreak
       mPushedRightFloatPastBreak mSplitLeftFloatAcrossBreak
       mSplitRightFloatAcrossBreak].
  rewrite Hf at 1 2.
  rewrite firstn_app, Nat.sub_diag, firstn_all, app_nil_r.
  repeat split; trivial. now exists extra.
Qed.

(** ** The cumulative summaries *)

Lemma summaries_monotone_firstn (n : nat) (fs : list FloatInfo) :
  summaries_monotone fs -> summaries_monotone (firstn n fs).
Proof.
  intros H i prev cur Hi Hp Hc.
  assert (Hlt : (i < n)%nat).
  { destruct (Nat.lt_ge_cases i n) as [|Hge]; trivial.
    rewrite nth_error_firstn in Hc.
    replace (i <? n)%nat with false in Hc by (symmetry; apply Nat.ltb_ge; lia).
    discriminate. }
  rewrite nth_error_firstn in Hp, Hc.
  replace (i - 1 <? n)%nat with true in Hp by (symmetry; apply Nat.ltb_lt; lia).
  replace (i <? n)%nat with true in Hc by (symmetry; apply Nat.ltb_lt; lia).
  eauto.
Qed.

Lemma summaries_monotone_snoc (fs : list FloatInfo) (info : FloatInfo) :
  summaries_monotone fs ->
  (forall tail, tailFloat fs = Some tail ->
     mLeftBEnd tail <= mLeftBEnd info /\ mRightBEnd tail <= mRightBEnd info) ->
  summaries_monotone (fs ++ [info]).
Proof.
  intros H Ht i prev cur Hi Hp Hc.
  destruct (Nat.lt_ge_cases i (length fs)) as [Hlt|Hge].
  - rewrite nth_error_app1 in Hp, Hc by lia. eauto.
  - assert (i = length fs).
    { assert (Hs : nth_error (fs ++ [info]) i <> None) by congruence.
      apply nth_error_Some in Hs. rewrite length_app in Hs. cbn in Hs. lia. }
    subst i.
    rewrite nth_error_app1 in Hp by lia.
    rewrite nth_error_app2, Nat.sub_diag in Hc by lia.
    injection Hc as <-. now apply Ht.
Qed.

Lemma AddFloat_appends (m : nsFloatManager) (aFloatFrame : nsIFrame)
    (aMarginRect : LogicalRect) (aWM : WritingMode) (aContainerSize : nsSize) :
  exists info,
    mFloats (AddFloat m aFloatFrame aMarginRect aWM aContainerSize)
    = mFloats m ++ [info]
    /\ AddFloat_summaries m aFloatFrame aWM info
    /\ (forall tail, tailFloat (mFloats m) = Some tail ->
          mLeftBEnd tail <= mLeftBEnd info /\ mRightBEnd tail <= mRightBEnd info).
Proof.
  unfold AddFloat, AddFloat_summaries.
  set (info0 := FloatInfo_new _ _ _ _ _ _).
  assert (Hmax : forall a b : Z, (if a >? b then a else b) = Z.max b a).
  { intros a b. destruct (Z.gtb_spec a b); lia. }
  destruct (tailFloat (mFloats m)) as [tail|] eqn:Et;
    destruct (PhysicalFloats aFloatFrame aWM) eqn:Es;
    cbn [StyleFloat_eqb mFloats];
    (eexists; split; [reflexivity|]);
    cbn [mLeftBEnd mRightBEnd mRect mFrame mShapeInfo];
    unfold FI_BEnd; rewrite ?Hmax;
    (split; [split; intros Hs; try discriminate Hs; split; reflexivity|]);
    intros t Ht; try discriminate Ht; injection Ht as <-; lia.
Qed.

Lemma summaries_monotone_nil : summaries_monotone [].
Proof. intros i prev cur _ _ Hc. now destruct i. Qed.

Lemma applyOp_summaries (m : nsFloatManager) (op : ManagerOp) :
  summaries_monotone (mFloats m) -> summaries_monotone (mFloats (applyOp m op)).
Proof.
  intros H. destruct op; cbn; trivial.
  destruct (AddFloat_appends m aFloatFrame aMarginRect aWM aContainerSize)
    as (info & -> & _ & Htail).
  now apply summaries_monotone_snoc.
Qed.

Lemma RemoveTrailingRegions_summaries (m : nsFloatManager) (aFrameList : list nsIFrame) :
  summaries_monotone (mFloats m) ->
  summaries_monotone (mFloats (RemoveTrailingRegions m aFrameList)).
Proof.
  intros H. unfold RemoveTrailingRegions.
  destruct aFrameList; trivial. cbn.
  now apply summaries_monotone_firstn.
Qed.

Lemma PopState_summaries (m m' : nsFloatManager) (aState : SavedState) :
  PopState m aState = Some m' ->
  summaries_monotone (mFloats m) -> summaries_monotone (mFloats m').
Proof.
  unfold PopState. intros Hp H.
  destruct (length (mFloats m) <? s_mFloatInfoCount aState)%nat; [discriminate|].
  injection Hp as <-. cbn. now apply summaries_monotone_firstn.
Qed.

(** C3: in every reachable manager state the cumulative summaries are
    monotone non-decreasing along the registry (for every index i >= 1, entry
    i is at least entry i-1 on both sides), and [AddFloat] appends an entry
    that copies the previous tail's summaries (the minimum sentinel on an
    empty registry) and raises only the float's own side to the max with the
    block end of its margin box. *)
Theorem summaries_monotone_reachable (m : nsFloatManager) :
  reachable m ->
  summaries_monotone (mFloats m)
  /\ forall aFloatFrame aMarginRect aWM aContainerSize,
       exists info,
         mFloats (AddFloat m aFloatFrame aMarginRect aWM aContainerSize)
         = mFloats m ++ [info]
         /\ AddFloat_summaries m aFloatFrame aWM info.
Proof.
  intros Hr. split.
  - induction Hr.
    + apply summaries_monotone_nil.
    + now apply applyOp_summaries.
    + now apply RemoveTrailingRegions_summaries.
    + eapply PopState_summaries; eauto.
  - intros f r wm cs.
    destruct (AddFloat_appends m f r wm cs) as (info & Hf & Hs & _).
    now exists info.
Qed.

Lemma left_and_right_float_reachable : reachable left_and_right_float.
Proof.
  apply (reach_op _ (OpAddFloat _ _ _ _)).
  apply (reach_op _ (OpAddFloat _ _ _ _)).
  apply reach_new.
Defined.

(** On [left_and_right_float] the summaries are (100, MIN) then (100, 150). *)
Lemma summaries_monotone_reachable_witness :
  map (fun fi => (mLeftBEnd fi, mRightBEnd fi)) (mFloats left_and_right_float)
  = [(100, nscoord_MIN); (100, 150)]
  /\ summaries_monotone (mFloats left_and_right_float).
Proof.
  split; [reflexivity|].
  exact (proj1 (summaries_monotone_reachable left_and_right_float
                  left_and_right_float_reachable)).
Defined.

(** ** Polygons *)

Lemma fold_min_spec (vs : list nsPoint) (init : Z) :
  let r := fold_left (fun acc vertex => Z.min acc (pt_y vertex)) vs init in
  r <= init
  /\ (forall v, In v vs -> r <= pt_y v)
  /\ (r = init \/ exists v, In v vs /\ pt_y v = r).
Proof.
  revert init. induction vs as [|v vs IH]; intros init; cbn.
  - repeat split; [lia | intros v [] | now left].
  - destruct (IH (Z.min init (pt_y v))) as (H1 & H2 & H3). cbn in *.
    repeat split.
    + lia.
    + intros w [<-|Hw]; [lia | now apply H2].
    + destruct H3 as [H3|(w & Hw & H3)].
      * destruct (Z.min_spec init (pt_y v)) as [[_ E]|[_ E]].
        -- left. congruence.
        -- right. exists v. split; [now left | congruence].
      * right. exists w. split; [now right | trivial].
Qed.

Lemma fold_max_spec (vs : list nsPoint) (init : Z) :
  let r := fold_left (fun acc vertex => Z.max acc (pt_y vertex)) vs init in
  init <= r
  /\ (forall v, In v vs -> pt_y v <= r)
  /\ (r = init \/ exists v, In v vs /\ pt_y v = r).
Proof.
  revert init. induction vs as [|v vs IH]; intros init; cbn.
  - repeat split; [lia | intros v [] | now left].
  - destruct (IH (Z.max init (pt_y v))) as (H1 & H2 & H3). cbn in *.
    repeat split.
    + lia.
    + intros w [<-|Hw]; [lia | now apply H2].
    + destruct H3 as [H3|(w & Hw & H3)].
      * destruct (Z.max_spec init (pt_y v)) as [[_ E]|[_ E]].
        -- right. exists v. split; [now left | congruence].
        -- left. congruence.
      * right. exists w. split; [now right | trivial].
Qed.

Lemma forallb_skipn2 (f : nsPoint -> bool) (vs : list nsPoint) :
  forallb f (skipn 2 vs) = true
  <-> forall i p2, (2 <= i)%nat -> nth_error vs i = Some p2 -> f p2 = true.
Proof.
  rewrite forallb_forall. split.
  - intros H i p2 Hi Hn. apply H.
    destruct vs as [|a [|b rest]]; cbn.
    + now destruct i.
    + destruct i as [|[|i]]; try lia. now destruct i.
    + destruct i as [|[|i]]; try lia. cbn in Hn. eapply nth_error_In; eauto.
  - intros H p2 Hin.
    destruct vs as [|a [|b rest]]; cbn in Hin; try contradiction.
    apply In_nth_error in Hin as [k Hk].
    apply (H (S (S k))); [lia | exact Hk].
Qed.

Lemma PolygonShapeInfo_new_mEmpty (vs : list nsPoint) :
  mEmpty (PolygonShapeInfo_new vs) = true
  <-> (length vs < 3)%nat \/ isEntirelyCollinear vs.
Proof.
  unfold PolygonShapeInfo_new, isEntirelyCollinear.
  destruct (Nat.ltb_spec (length vs) 3) as [Hlt|Hge].
  - cbn. split; [now left | trivial].
  - match goal with |- context [forallb ?f _] => set (test := f) end.
    pose proof (forallb_skipn2 test vs) as Hf.
    destruct (forallb test (skipn 2 vs)) eqn:E; cbn.
    + split; trivial. intros _. right. intros i p2 Hi Hn.
      apply Z.eqb_eq. apply (proj1 Hf eq_refl i p2 Hi Hn).
    + split; [discriminate|]. intros [Hlt|Hc]; [lia|].
      apply Hf. intros i p2 Hi Hn. subst test. cbn. apply Z.eqb_eq. eauto.
Qed.

Lemma PolygonShapeInfo_new_extent (vs : list nsPoint) :
  mEmpty (PolygonShapeInfo_new vs) = false ->
  Forall (fun v => nscoord_ok (pt_y v)) vs ->
  is_min_y vs (poly_mBStart (PolygonShapeInfo_new vs))
  /\ is_max_y vs (poly_mBEnd (PolygonShapeInfo_new vs)).
Proof.
  unfold PolygonShapeInfo_new. intros He Hok.
  destruct (Nat.ltb_spec (length vs) 3) as [Hlt|Hge]; [discriminate He|].
  destruct (forallb _ (skipn 2 vs)); [discriminate He|]. cbn.
  rewrite Forall_forall in Hok.
  assert (Hv : exists v, In v vs).
  { destruct vs as [|v vs]; [cbn in Hge; lia | exists v; now left]. }
  destruct Hv as [v0 Hv0]. pose proof (Hok v0 Hv0) as [Hlo Hhi].
  destruct (fold_min_spec vs nscoord_MAX) as (A1 & A2 & A3).
  destruct (fold_max_spec vs nscoord_MIN) as (B1 & B2 & B3).
  cbn in *. split; split; trivial.
  - destruct A3 as [A3|A3]; trivial.
    exists v0. split; trivial. specialize (A2 v0 Hv0). lia.
  - destruct B3 as [B3|B3]; trivial.
    exists v0. split; trivial. specialize (B2 v0 Hv0). lia.
Qed.

(** An empty shape leaves the walk of a ShapeOutside query as it is. *)
Lemma GetFlowArea_walk_skips_empty_shape
    (aWM : WritingMode) (aBandInfoType : BandInfoType) (blockStart : Z)
    (fi : FloatInfo) (shape : ShapeInfo) (rest : list FloatInfo) (st : BandState) :
  mShapeInfo fi = Some shape -> Shape_IsEmpty shape = true ->
  GetFlowArea_walk aWM aBandInfoType ShapeOutside blockStart (fi :: rest) st
  = if (mLeftBEnd fi <=? blockStart) && (mRightBEnd fi <=? blockStart) then st
    else GetFlowArea_walk aWM aBandInfoType ShapeOutside blockStart rest st.
Proof.
  intros Hs He. cbn [GetFlowArea_walk]. unfold FloatInfo_IsEmpty.
  now rewrite Hs, He.
Qed.

(** While no product wraps, the determinant of the constructor is the one
    over the integers. *)
Lemma Determinant_cross_product (p0 p1 p2 : nsPoint) :
  - 2 ^ 14 < pt_x p0 < 2 ^ 14 -> - 2 ^ 14 < pt_y p0 < 2 ^ 14 ->
  - 2 ^ 14 < pt_x p1 < 2 ^ 14 -> - 2 ^ 14 < pt_y p1 < 2 ^ 14 ->
  - 2 ^ 14 < pt_x p2 < 2 ^ 14 -> - 2 ^ 14 < pt_y p2 < 2 ^ 14 ->
  Determinant (point_sub p2 p0) (point_sub p1 p0) = cross_product p0 p1 p2.
Proof.
  intros Hx0 Hy0 Hx1 Hy1 Hx2 Hy2.
  unfold Determinant, cross_product, point_sub. cbn [pt_x pt_y].
  unfold nscoord_sub, nscoord_mul.
  rewrite (wrap32_id (pt_x p2 - pt_x p0)), (wrap32_id (pt_y p1 - pt_y p0)),
    (wrap32_id (pt_y p2 - pt_y p0)), (wrap32_id (pt_x p1 - pt_x p0))
    by (unfold int32_ok; lia).
  assert (Hab : - 2 ^ 30 < (pt_x p2 - pt_x p0) * (pt_y p1 - pt_y p0) < 2 ^ 30)
    by nia.
  assert (Hcd : - 2 ^ 30 < (pt_y p2 - pt_y p0) * (pt_x p1 - pt_x p0) < 2 ^ 30)
    by nia.
  rewrite (wrap32_id ((pt_x p2 - pt_x p0) * (pt_y p1 - pt_y p0))),
    (wrap32_id ((pt_y p2 - pt_y p0) * (pt_x p1 - pt_x p0)))
    by (unfold int32_ok; lia).
  apply wrap32_id. unfold int32_ok. lia.
Qed.

Lemma small_vertices_nth (vs : list nsPoint) (k : nat) :
  small_vertices vs ->
  - 2 ^ 14 < pt_x (nth k vs (mkPoint 0 0)) < 2 ^ 14
  /\ - 2 ^ 14 < pt_y (nth k vs (mkPoint 0 0)) < 2 ^ 14.
Proof.
  unfold small_vertices. rewrite Forall_forall. intros H.
  destruct (nth_in_or_default k vs (mkPoint 0 0)) as [Hin| ->];
    [now apply H | cbn; lia].
Qed.

Lemma isEntirelyCollinear_exact (vs : list nsPoint) :
  small_vertices vs -> (isEntirelyCollinear vs <-> entirely_collinear vs).
Proof.
  intros Hs. unfold isEntirelyCollinear, entirely_collinear.
  destruct (small_vertices_nth vs 0 Hs) as [Hx0 Hy0].
  destruct (small_vertices_nth vs 1 Hs) as [Hx1 Hy1].
  assert (E : forall i p2, nth_error vs i = Some p2 ->
            Determinant (point_sub p2 (nth 0 vs (mkPoint 0 0)))
                        (point_sub (nth 1 vs (mkPoint 0 0))
                                   (nth 0 vs (mkPoint 0 0)))
            = cross_product (nth 0 vs (mkPoint 0 0)) (nth 1 vs (mkPoint 0 0)) p2).
  { intros i p2 Hn. unfold small_vertices in Hs. rewrite Forall_forall in Hs.
    destruct (Hs p2 (nth_error_In _ _ Hn)) as [Hx2 Hy2].
    now apply Determinant_cross_product. }
  split; intros H i p2 Hi Hn.
  - rewrite <- (E i p2 Hn). now apply (H i).
  - rewrite (E i p2 Hn). now apply (H i).
Qed.

(** Where no product of the determinant wraps (coordinates below 2^14 in
    absolute value) the constructor classifies as the spec says: the polygon
    reports [IsEmpty] exactly when the list has fewer than three vertices or
    all its vertices lie on one line, and the block extent of a polygon that
    is not empty is the least and the greatest vertex block coordinate. *)
Lemma PolygonShapeInfo_new_empty_iff_collinear (vs : list nsPoint) :
  small_vertices vs ->
  let p := PolygonShapeInfo_new vs in
  (Shape_IsEmpty (Polygon p) = true
   <-> (length vs < 3)%nat \/ entirely_collinear vs)
  /\ (Shape_IsEmpty (Polygon p) = false ->
      is_min_y vs (Shape_BStart (Polygon p))
      /\ is_max_y vs (Shape_BEnd (Polygon p))).
Proof.
  intros Hs p. cbn [Shape_IsEmpty Shape_BStart Shape_BEnd]. split.
  - unfold p. rewrite PolygonShapeInfo_new_mEmpty.
    pose proof (isEntirelyCollinear_exact vs Hs). tauto.
  - intros He. apply PolygonShapeInfo_new_extent; trivial.
    unfold small_vertices in Hs. eapply Forall_impl; [|exact Hs]. cbn beta.
    intros v [_ Hy]. unfold nscoord_ok, nscoord_MIN, nscoord_MAX. lia.
Qed.

(** The two sample polygons: three points on a line, and a right triangle
    with legs of 200 units. *)
Lemma PolygonShapeInfo_new_empty_iff_collinear_samples :
  Shape_IsEmpty (Polygon (PolygonShapeInfo_new collinear_3)) = true
  /\ entirely_collinear collinear_3
  /\ ~ entirely_collinear triangle_200
  /\ is_min_y triangle_200 0 /\ is_max_y triangle_200 200.
Proof.
  assert (Hc : small_vertices collinear_3) by (repeat constructor; cbn; lia).
  assert (Ht : small_vertices triangle_200) by (repeat constructor; cbn; lia).
  destruct (PolygonShapeInfo_new_empty_iff_collinear collinear_3 Hc) as [Hci _].
  destruct (PolygonShapeInfo_new_empty_iff_collinear triangle_200 Ht) as [Hti Hte].
  split; [reflexivity|]. split.
  - destruct (proj1 Hci eq_refl) as [Hlt|]; [cbn in Hlt; lia|assumption].
  - split.
    + intros H.
      assert (Shape_IsEmpty (Polygon (PolygonShapeInfo_new triangle_200)) = true)
        as He by (apply Hti; now right).
      discriminate He.
    + exact (Hte eq_refl).
Qed.

(** C7 (a defect of the code): the constructor tests collinearity with a
    determinant computed in 32 bits.  For the right triangle with legs of
    65536 units the determinant of [p2 - p0] and [p1 - p0] is -2^32 over the
    integers, so the three vertices are not collinear, but it is 0 in 32
    bits.  The polygon reports [IsEmpty] and keeps the sentinels as its
    block extent, where the least and greatest vertex block coordinates are
    0 and 65536; its own [LineRight] still finds the hypotenuse at 65436 for
    the band [100, 200].  A ShapeOutside query passes over the float and
    returns the whole content area without floats, where the Margin query
    on the same manager starts the band at 65536. *)
Theorem PolygonShapeInfo_new_triangle_classified_empty :
  (3 <= length triangle_65536)%nat
  /\ cross_product (mkPoint 0 0) (mkPoint 65536 0) (mkPoint 0 65536) = - 2 ^ 32
  /\ ~ entirely_collinear triangle_65536
  /\ Determinant (point_sub (mkPoint 0 65536) (mkPoint 0 0))
                 (point_sub (mkPoint 65536 0) (mkPoint 0 0)) = 0
  /\ Shape_IsEmpty (Polygon (PolygonShapeInfo_new triangle_65536)) = true
  /\ Shape_BStart (Polygon (PolygonShapeInfo_new triangle_65536)) = nscoord_MAX
  /\ Shape_BEnd (Polygon (PolygonShapeInfo_new triangle_65536)) = nscoord_MIN
  /\ is_min_y triangle_65536 0 /\ is_max_y triangle_65536 65536
  /\ Polygon_LineRight (PolygonShapeInfo_new triangle_65536) 100 200 = 65436
  /\ GetFlowArea triangle_65536_float horizontal_ltr 100 100 WidthWithinHeight
                 ShapeOutside content_0_100000 None container_100000
     = Some (mkFlowArea (mkLRect 0 100 100000 100) false)
  /\ GetFlowArea triangle_65536_float horizontal_ltr 100 100 WidthWithinHeight
                 Margin content_0_100000 None container_100000
     = Some (mkFlowArea (mkLRect 65536 100 34464 100) true).
Proof.
  split; [cbn; lia|]. split; [reflexivity|]. split.
  - intros H. specialize (H 2%nat (mkPoint 0 65536) (le_n 2) eq_refl).
    discriminate H.
  - split; [vm_compute; reflexivity|].
    split; [vm_compute; reflexivity|].
    split; [vm_compute; reflexivity|].
    split; [vm_compute; reflexivity|].
    split.
    { split; [exists (mkPoint 0 0); split; [now left|reflexivity]|].
      intros v Hv. cbn in Hv.
      repeat (destruct Hv as [<-|Hv]; [cbn; lia|]). contradiction. }
    split.
    { split; [exists (mkPoint 0 65536); split; [cbn; tauto|reflexivity]|].
      intros v Hv. cbn in Hv.
      repeat (destruct Hv as [<-|Hv]; [cbn; lia|]). contradiction. }
    repeat split; vm_compute; reflexivity.
Qed.

(** ** GetFlowArea: the result in the caller's frame *)

Lemma GetFlowArea_cases (m : nsFloatManager) (aWM : WritingMode)
    (aBCoord aBSize : Z) (aBandInfoType : BandInfoType) (aShapeType : ShapeType)
    (aContentArea : LogicalRect) (aState : option SavedState)
    (aContainerSize : nsSize) (r : nsFlowAreaRect) :
  GetFlowArea m aWM aBCoord aBSize aBandInfoType aShapeType aContentArea aState
              aContainerSize = Some r ->
  (GetFlowArea_quick m aBCoord aState = true
   /\ r = mkFlowArea (mkLRect (IStart aContentArea) aBCoord
                              (ISize aContentArea) aBSize) false)
  \/ (GetFlowArea_quick m aBCoord aState = false
      /\ let st := GetFlowArea_band m aWM aBCoord aBSize aBandInfoType aShapeType
                                    aContentArea aState aContainerSize in
         let blockStart := GetFlowArea_blockStart m aBCoord in
         r = mkFlowArea
               (mkLRect
                  (if IsBidiLTR aWM then lineLeft st .- mLineLeft m
                   else mLineLeft m .- lineRight st
                        .+ containerISize aWM aContainerSize)
                  (blockStart .- mBlockStart m)
                  (lineRight st .- lineLeft st)
                  (if blockEnd st =? nscoord_MAX then nscoord_MAX
                   else blockEnd st .- blockStart))
               (haveFloats st)).
Proof.
  unfold GetFlowArea, GetFlowArea_quick.
  destruct (GetFlowArea_floatCount m aState) as [|k].
  - intros [= <-]. now left.
  - destruct (nth_error (mFloats m) k) as [tail|]; [|discriminate].
    destruct ((mLeftBEnd tail <=? GetFlowArea_blockStart m aBCoord)
              && (mRightBEnd tail <=? GetFlowArea_blockStart m aBCoord)).
    + intros [= <-]. now left.
    + intros [= <-]. now right.
Qed.


(** The claim C8 as stated, with the content area's inline size in the RTL
    formula, fails: in a container 1000 wide, an RTL query with the content
    area [100, 900) against one left float ending at 200 computes the edges
    L = 200 and R = 900 and returns the inline start 0 - 900 + 1000 = 100,
    where the content area's own size, 800, would give -100. *)
Lemma GetFlowArea_rtl_inline_start_counterexample :
  GetFlowArea_edges one_left_float_rtl horizontal_rtl 20 30 WidthWithinHeight
                    Margin content_100_900 None container1000 = (200, 900)
  /\ GetFlowArea one_left_float_rtl horizontal_rtl 20 30 WidthWithinHeight
                 Margin content_100_900 None container1000
     = Some (mkFlowArea (mkLRect 100 20 700 30) true)
  /\ mLineLeft one_left_float_rtl .- 900 .+ ISize content_100_900 = -100
  /\ mLineLeft one_left_float_rtl .- 900
     .+ containerISize horizontal_rtl container1000 = 100.
Proof. repeat split; vm_compute; reflexivity. Qed.

(** Before the walk the band is the content area, translated by the origin:
    translating it back gives the content area's inline start and size. *)
Lemma GetFlowArea_init_translation (m : nsFloatManager) (aWM : WritingMode)
    (aBCoord aBSize : Z) (aContentArea : LogicalRect) (aContainerSize : nsSize) :
  safe_coord (mLineLeft m) ->
  content_area_ok aWM aContentArea aContainerSize ->
  let st := GetFlowArea_init m aWM aBCoord aBSize aContentArea aContainerSize in
  IStart aContentArea
  = (if IsBidiLTR aWM then lineLeft st .- mLineLeft m
     else mLineLeft m .- lineRight st .+ containerISize aWM aContainerSize)
  /\ ISize aContentArea = lineRight st .- lineLeft st.
Proof.
  intros Hm (Hsz & Hs & He & Hc). cbn zeta.
  unfold GetFlowArea_init. cbn [lineLeft lineRight].
  unfold LRect_LineLeft, LRect_LineRight, IEnd.
  destruct (IsBidiLTR aWM); unwrap;
    match goal with |- context [if ?a <? ?b then _ else _] =>
      destruct (Z.ltb_spec a b); [lia|] end;
    unwrap; split; lia.
Qed.

(** C8, amended: the result is translated back to the caller's frame with the
    container's inline size.  With L and R the band edges of the call in the
    manager's line-left frame, the returned inline start is [L - mLineLeft]
    under LTR and [mLineLeft - R + containerISize] under RTL, and the
    returned inline size is [R - L]. *)
Theorem GetFlowArea_inline_start_translation
    (m : nsFloatManager) (aWM : WritingMode) (aBCoord aBSize : Z)
    (aBandInfoType : BandInfoType) (aShapeType : ShapeType)
    (aContentArea : LogicalRect) (aState : option SavedState)
    (aContainerSize : nsSize) (r : nsFlowAreaRect) :
  safe_coord (mLineLeft m) ->
  content_area_ok aWM aContentArea aContainerSize ->
  GetFlowArea m aWM aBCoord aBSize aBandInfoType aShapeType aContentArea aState
              aContainerSize = Some r ->
  let L := fst (GetFlowArea_edges m aWM aBCoord aBSize aBandInfoType aShapeType
                                  aContentArea aState aContainerSize) in
  let R := snd (GetFlowArea_edges m aWM aBCoord aBSize aBandInfoType aShapeType
                                  aContentArea aState aContainerSize) in
  IStart (fa_mRect r)
  = (if IsBidiLTR aWM then L .- mLineLeft m
     else mLineLeft m .- R .+ containerISize aWM aContainerSize)
  /\ ISize (fa_mRect r) = R .- L.
Proof.
  intros Hm Hca Hr.
  unfold GetFlowArea_edges.
  apply GetFlowArea_cases in Hr as [[Hq ->]|[Hq Hr]]; rewrite Hq; cbn zeta.
  - cbn [fa_mRect IStart ISize fst snd].
    exact (GetFlowArea_init_translation m aWM aBCoord aBSize aContentArea
             aContainerSize Hm Hca).
  - cbn zeta in Hr. subst r. cbn [fa_mRect IStart ISize fst snd].
    split; reflexivity.
Qed.

Lemma GetFlowArea_inline_start_translation_witness :
  IStart (fa_mRect (mkFlowArea (mkLRect 100 20 700 30) true))
  = 0 .- 900 .+ 1000
  /\ ISize (fa_mRect (mkFlowArea (mkLRect 100 20 700 30) true)) = 900 .- 200.
Proof.
  assert (Hm : safe_coord (mLineLeft one_left_float_rtl)).
  { unfold safe_coord. cbn. lia. }
  assert (Hc : content_area_ok horizontal_rtl content_100_900 container1000).
  { unfold content_area_ok, safe_coord. cbn. lia. }
  exact (GetFlowArea_inline_start_translation
           one_left_float_rtl horizontal_rtl 20 30 WidthWithinHeight Margin
           content_100_900 None container1000
           (mkFlowArea (mkLRect 100 20 700 30) true) Hm Hc eq_refl).
Defined.

(** ** GetFlowArea: bounds on the result *)

(** An invariant of the walk: a property the band has before the walk, and
    that the body keeps for every float walked over, holds after it. *)
Lemma GetFlowArea_walk_invariant (P : BandState -> Prop)
    (aWM : WritingMode) (aBandInfoType : BandInfoType) (aShapeType : ShapeType)
    (blockStart : Z) (fs : list FloatInfo) (st : BandState) :
  (forall fi st', In fi fs -> P st' ->
     P (GetFlowArea_float aWM aBandInfoType aShapeType blockStart fi st')) ->
  P st ->
  P (GetFlowArea_walk aWM aBandInfoType aShapeType blockStart fs st).
Proof.
  revert st. induction fs as [|fi fs IH]; intros st Hstep Hst; cbn; trivial.
  destruct (_ && _); trivial.
  destruct (FloatInfo_IsEmpty fi aShapeType).
  - apply IH; trivial. intros. apply Hstep; trivial. now right.
  - apply IH.
    + intros. apply Hstep; trivial. now right.
    + apply Hstep; trivial. now left.
Qed.

Lemma FloatInfo_LineRight_le (fi : FloatInfo) (aShapeType : ShapeType) (bs be : Z) :
  FloatInfo_LineRight fi aShapeType bs be <= XMost (mRect fi).
Proof.
  unfold FloatInfo_LineRight, FI_LineRight.
  destruct aShapeType; [lia|]. destruct (mShapeInfo fi); lia.
Qed.

Lemma FloatInfo_LineLeft_ge (fi : FloatInfo) (aShapeType : ShapeType) (bs be : Z) :
  x (mRect fi) <= FloatInfo_LineLeft fi aShapeType bs be.
Proof.
  unfold FloatInfo_LineLeft, FI_LineLeft.
  destruct aShapeType; [lia|]. destruct (mShapeInfo fi); lia.
Qed.

Lemma GetFlowArea_float_blockEnd (aWM : WritingMode) (aBandInfoType : BandInfoType)
    (aShapeType : ShapeType) (blockStart : Z) (fi : FloatInfo) (st : BandState) :
  blockEnd_ok blockStart st ->
  blockEnd_ok blockStart
    (GetFlowArea_float aWM aBandInfoType aShapeType blockStart fi st).
Proof.
  unfold blockEnd_ok, GetFlowArea_float. intros [H1 H2].
  destruct (Z.ltb_spec blockStart (FloatInfo_BStart fi aShapeType));
    destruct (isBandFromPoint aBandInfoType); cbn [andb].
  - destruct (Z.ltb_spec (FloatInfo_BStart fi aShapeType) (blockEnd st));
      cbn [blockEnd]; lia.
  - destruct (Z.ltb_spec blockStart (FloatInfo_BEnd fi aShapeType));
      cbn [andb]; [|lia].
    destruct (_ || _); [|lia].
    destruct (StyleFloat_eqb _ _);
      match goal with |- context [if ?c then mkBand _ _ _ _ else st] =>
        destruct c end;
      rewrite andb_false_r; cbn [blockEnd]; lia.
  - destruct (Z.ltb_spec blockStart (FloatInfo_BEnd fi aShapeType));
      cbn [andb]; [|lia].
    destruct (_ || _); [|lia].
    destruct (Z.ltb_spec (FloatInfo_BEnd fi aShapeType) (blockEnd st));
      cbn [andb];
      destruct (StyleFloat_eqb _ _);
      match goal with |- context [if ?c then mkBand _ _ _ _ else st] =>
        destruct c end;
      cbn [blockEnd]; lia.
  - destruct (Z.ltb_spec blockStart (FloatInfo_BEnd fi aShapeType));
      cbn [andb]; [|lia].
    destruct (_ || _); [|lia].
    destruct (StyleFloat_eqb _ _);
      match goal with |- context [if ?c then mkBand _ _ _ _ else st] =>
        destruct c end;
      rewrite andb_false_r; cbn [blockEnd]; lia.
Qed.

Lemma GetFlowArea_float_edges (aWM : WritingMode) (aBandInfoType : BandInfoType)
    (aShapeType : ShapeType) (blockStart L0 R0 : Z) (fi : FloatInfo)
    (st : BandState) :
  float_rect_ok fi ->
  edges_ok L0 R0 st ->
  edges_ok L0 R0 (GetFlowArea_float aWM aBandInfoType aShapeType blockStart fi st).
Proof.
  unfold edges_ok, GetFlowArea_float, float_rect_ok. intros [Hx Hxm] H.
  assert (Hr : forall bs be, FloatInfo_LineRight fi aShapeType bs be <= 2 ^ 28).
  { intros. pose proof (FloatInfo_LineRight_le fi aShapeType bs be) as Hle.
    unfold XMost in Hle. unwrap. unfold safe_coord in *. lia. }
  assert (Hl : forall bs be, - 2 ^ 28 <= FloatInfo_LineLeft fi aShapeType bs be).
  { intros. pose proof (FloatInfo_LineLeft_ge fi aShapeType bs be).
    unfold safe_coord in *. lia. }
  destruct (_ && _).
  - destruct (_ <? _); cbn [lineLeft lineRight]; lia.
  - destruct (_ && _); [|lia].
    set (bandBlockEnd := if isBandFromPoint aBandInfoType then _ else _).
    specialize (Hr blockStart bandBlockEnd).
    specialize (Hl blockStart bandBlockEnd).
    destruct (StyleFloat_eqb _ _).
    + destruct (Z.gtb_spec (FloatInfo_LineRight fi aShapeType blockStart bandBlockEnd)
                           (lineLeft st));
        destruct (_ && _); cbn [lineLeft lineRight]; lia.
    + destruct (Z.ltb_spec (FloatInfo_LineLeft fi aShapeType blockStart bandBlockEnd)
                           (lineRight st));
        destruct (_ && _); cbn [lineLeft lineRight]; lia.
Qed.

Lemma GetFlowArea_init_blockEnd (m : nsFloatManager) (aWM : WritingMode)
    (aBCoord aBSize : Z) (aContentArea : LogicalRect) (aContainerSize : nsSize) :
  blockEnd_ok (GetFlowArea_blockStart m aBCoord)
              (GetFlowArea_init m aWM aBCoord aBSize aContentArea aContainerSize).
Proof.
  unfold blockEnd_ok, GetFlowArea_init. cbn [blockEnd].
  destruct (aBSize =? nscoord_MAX); [lia|].
  set (be := GetFlowArea_blockStart m aBCoord .+ aBSize).
  destruct (Z.ltb_spec be (GetFlowArea_blockStart m aBCoord)); cbn [orb]; [lia|].
  destruct (Z.gtb_spec be nscoord_MAX); lia.
Qed.

Lemma GetFlowArea_blockStart_ge (m : nsFloatManager) (aBCoord : Z) :
  nscoord_MIN <= GetFlowArea_blockStart m aBCoord.
Proof.
  unfold GetFlowArea_blockStart.
  destruct (Z.ltb_spec (aBCoord .+ mBlockStart m) nscoord_MIN); lia.
Qed.

(** The claim C6 as stated fails: a left float whose margin box ends at 500
    pushes the line-left edge past the content area [0, 300), and the query
    returns the inline start 500, outside the content area, with the inline
    size 300 - 500 = -200. *)
Lemma GetFlowArea_negative_inline_size_counterexample :
  0 <= 30 /\ 0 <= ISize content_0_300
  /\ GetFlowArea wide_left_float horizontal_ltr 20 30 WidthWithinHeight Margin
                 content_0_300 None container1000
     = Some (mkFlowArea (mkLRect 500 20 (-200) 30) true)
  /\ -200 < 0
  /\ IStart content_0_300 + ISize content_0_300 < 500.
Proof. repeat split; try (vm_compute; reflexivity); cbn; lia. Qed.

Lemma In_firstn_In (A : Type) (n : nat) (l : list A) (a : A) :
  In a (firstn n l) -> In a l.
Proof.
  intros H. rewrite <- (firstn_skipn n l). apply in_or_app. now left.
Qed.

Lemma GetFlowArea_band_blockEnd (m : nsFloatManager) (aWM : WritingMode)
    (aBCoord aBSize : Z) (aBandInfoType : BandInfoType) (aShapeType : ShapeType)
    (aContentArea : LogicalRect) (aState : option SavedState)
    (aContainerSize : nsSize) :
  blockEnd_ok (GetFlowArea_blockStart m aBCoord)
    (GetFlowArea_band m aWM aBCoord aBSize aBandInfoType aShapeType aContentArea
                      aState aContainerSize).
Proof.
  unfold GetFlowArea_band. apply GetFlowArea_walk_invariant.
  - intros. now apply GetFlowArea_float_blockEnd.
  - apply GetFlowArea_init_blockEnd.
Qed.

(** The translated content-area edges the walk starts from. *)
Lemma GetFlowArea_init_edges (m : nsFloatManager) (aWM : WritingMode)
    (aBCoord aBSize : Z) (aContentArea : LogicalRect) (aContainerSize : nsSize) :
  safe_coord (mLineLeft m) ->
  content_area_ok aWM aContentArea aContainerSize ->
  let st := GetFlowArea_init m aWM aBCoord aBSize aContentArea aContainerSize in
  lineLeft st
  = mLineLeft m
    + (if IsBidiLTR aWM then IStart aContentArea
       else containerISize aWM aContainerSize
            - (IStart aContentArea + ISize aContentArea))
  /\ lineRight st
     = mLineLeft m
       + (if IsBidiLTR aWM then IStart aContentArea + ISize aContentArea
          else containerISize aWM aContainerSize - IStart aContentArea).
Proof.
  intros Hm (Hsz & Hs & He & Hc). cbn zeta.
  unfold GetFlowArea_init. cbn [lineLeft lineRight].
  unfold LRect_LineLeft, LRect_LineRight, IEnd.
  destruct (IsBidiLTR aWM); unwrap;
    match goal with |- context [if ?a <? ?b then _ else _] =>
      destruct (Z.ltb_spec a b); [lia|] end;
    split; lia.
Qed.

Lemma GetFlowArea_band_edges (m : nsFloatManager) (aWM : WritingMode)
    (aBCoord aBSize : Z) (aBandInfoType : BandInfoType) (aShapeType : ShapeType)
    (aContentArea : LogicalRect) (aState : option SavedState)
    (aContainerSize : nsSize) :
  Forall float_rect_ok (mFloats m) ->
  let st0 := GetFlowArea_init m aWM aBCoord aBSize aContentArea aContainerSize in
  edges_ok (lineLeft st0) (lineRight st0)
    (GetFlowArea_band m aWM aBCoord aBSize aBandInfoType aShapeType aContentArea
                      aState aContainerSize).
Proof.
  intros Hfs st0. unfold GetFlowArea_band. apply GetFlowArea_walk_invariant.
  - intros fi st' Hin Hst. apply GetFlowArea_float_edges; trivial.
    rewrite Forall_forall in Hfs. apply Hfs.
    apply in_rev in Hin. eapply In_firstn_In; eauto.
  - unfold edges_ok. fold st0. lia.
Qed.

(** C6, amended: for every [GetFlowArea] call with a non-negative band size
    and a content area of non-negative inline size (coordinates away from the
    32-bit limits), the returned block size is non-negative and the returned
    inline start is not before the content area's inline start.  The inline
    size is [R - L]: it is non-negative, and the inline start is not past the
    content area's inline end, when the band edges have not crossed
    ([L <= R]); [GetFlowArea] does not clamp crossed edges. *)
Theorem GetFlowArea_result_bounds
    (m : nsFloatManager) (aWM : WritingMode) (aBCoord aBSize : Z)
    (aBandInfoType : BandInfoType) (aShapeType : ShapeType)
    (aContentArea : LogicalRect) (aState : option SavedState)
    (aContainerSize : nsSize) (r : nsFlowAreaRect) :
  0 <= aBSize ->
  safe_coord (mLineLeft m) ->
  content_area_ok aWM aContentArea aContainerSize ->
  Forall float_rect_ok (mFloats m) ->
  GetFlowArea m aWM aBCoord aBSize aBandInfoType aShapeType aContentArea aState
              aContainerSize = Some r ->
  let L := fst (GetFlowArea_edges m aWM aBCoord aBSize aBandInfoType aShapeType
                                  aContentArea aState aContainerSize) in
  let R := snd (GetFlowArea_edges m aWM aBCoord aBSize aBandInfoType aShapeType
                                  aContentArea aState aContainerSize) in
  0 <= BSizeL (fa_mRect r)
  /\ IStart aContentArea <= IStart (fa_mRect r)
  /\ ISize (fa_mRect r) = R .- L
  /\ (L <= R ->
      0 <= ISize (fa_mRect r)
      /\ IStart (fa_mRect r) <= IStart aContentArea + ISize aContentArea).
Proof.
  intros Hh Hm (Hsz & Hs & He & Hc) Hfs Hr.
  pose proof (GetFlowArea_init_translation m aWM aBCoord aBSize aContentArea
                aContainerSize Hm (conj Hsz (conj Hs (conj He Hc)))) as [_ Hq0].
  cbn zeta in Hq0. cbn zeta.
  split; [|split; [|split]].
  all: unfold GetFlowArea_edges.
  all: apply GetFlowArea_cases in Hr as [[Hq ->]|[Hq Hr]]; rewrite ?Hq;
         cbn [fa_mRect IStart ISize BSizeL fst snd]; try lia; try exact Hq0.
  all: cbn zeta in Hr; subst r; cbn [fa_mRect IStart ISize BSizeL fst snd];
         clear Hq0; try reflexivity.
  - (* block size *)
    destruct (GetFlowArea_band_blockEnd m aWM aBCoord aBSize aBandInfoType
                aShapeType aContentArea aState aContainerSize) as [Hb1 Hb2].
    pose proof (GetFlowArea_blockStart_ge m aBCoord).
    destruct (Z.eqb_spec (blockEnd (GetFlowArea_band m aWM aBCoord aBSize
                aBandInfoType aShapeType aContentArea aState aContainerSize))
              nscoord_MAX) as [E|E].
    + unfold nscoord_MAX. lia.
    + unwrap. lia.
  - (* inline start, lower bound *)
    pose proof (GetFlowArea_band_edges m aWM aBCoord aBSize aBandInfoType
                  aShapeType aContentArea aState aContainerSize Hfs) as [HL HR].
    destruct (GetFlowArea_init_edges m aWM aBCoord aBSize aContentArea
                aContainerSize Hm (conj Hsz (conj Hs (conj He Hc)))) as [EL ER].
    cbn zeta in HL, HR, EL, ER. rewrite EL in HL. rewrite ER in HR.
    destruct (IsBidiLTR aWM); unwrap; lia.
  - (* uncrossed edges *)
    intros HLR.
    pose proof (GetFlowArea_band_edges m aWM aBCoord aBSize aBandInfoType
                  aShapeType aContentArea aState aContainerSize Hfs) as [HL HR].
    destruct (GetFlowArea_init_edges m aWM aBCoord aBSize aContentArea
                aContainerSize Hm (conj Hsz (conj Hs (conj He Hc)))) as [EL ER].
    cbn zeta in HL, HR, EL, ER. rewrite EL in HL. rewrite ER in HR.
    destruct (IsBidiLTR aWM); unwrap; lia.
Qed.

(** Scenario 2 of the spec: a query within the extent of the left float
    (0, 0, 200, 100) returns the inline start 200 and the inline size 800. *)
Lemma GetFlowArea_result_bounds_witness :
  GetFlowArea one_left_float horizontal_ltr 20 30 WidthWithinHeight Margin
              content_0_1000 None container1000
  = Some (mkFlowArea (mkLRect 200 20 800 30) true)
  /\ 0 <= 30
  /\ IStart content_0_1000 <= 200
  /\ 800 = 1000 .- 200
  /\ 0 <= 800
  /\ 200 <= IStart content_0_1000 + ISize content_0_1000.
Proof.
  assert (Hh : 0 <= 30) by lia.
  assert (Hm : safe_coord (mLineLeft one_left_float)).
  { unfold safe_coord. cbn. lia. }
  assert (Hc : content_area_ok horizontal_ltr content_0_1000 container1000).
  { unfold content_area_ok, safe_coord. cbn. lia. }
  assert (Hfs : Forall float_rect_ok (mFloats one_left_float)).
  { repeat constructor; unfold safe_coord; cbn; lia. }
  pose proof (GetFlowArea_result_bounds
                one_left_float horizontal_ltr 20 30 WidthWithinHeight Margin
                content_0_1000 None container1000
                (mkFlowArea (mkLRect 200 20 800 30) true) Hh Hm Hc Hfs eq_refl)
    as (H1 & H2 & H3 & H4).
  split; [reflexivity|].
  split; [exact H1|]. split; [exact H2|]. split; [exact H3|].
  apply H4. vm_compute. discriminate.
Defined.

(** ** The intercept helpers *)

Lemma nscoord_sub_nonzero (a b : Z) :
  int32_ok a -> int32_ok b -> a <> b -> a .- b <> 0.
Proof.
  unfold nscoord_sub, wrap32, int32_ok. intros Ha Hb Hab H.
  pose proof (Z.div_mod (a - b + 2 ^ 31) (2 ^ 32) ltac:(lia)) as Hdm.
  set (q := (a - b + 2 ^ 31) / 2 ^ 32) in *.
  lia.
Qed.

(** In [ComputeLineIntercept] over vertices whose block coordinates are
    [nscoord]s between the two sentinels, every call of the polygon
    [XInterceptAtY] meets its assertions and divides by a positive block
    span: a step never faults, and it computes what the unchecked step
    computes. *)
Lemma ComputeLineIntercept_step_checked_ok (vs : list nsPoint) (aBStart aBEnd : Z)
    (aCompareOp : Z -> Z -> Z) (lineIntercept : Z) (i : nat) :
  Forall (fun v => nscoord_ok (pt_y v)) vs ->
  ComputeLineIntercept_step_checked vs aBStart aBEnd aCompareOp (Ok lineIntercept) i
  = Ok (ComputeLineIntercept_step vs aBStart aBEnd aCompareOp lineIntercept i).
Proof.
  intros Hvs.
  assert (Hnth : forall k, nscoord_ok (pt_y (nth k vs (mkPoint 0 0)))).
  { intros k. destruct (nth_in_or_default k vs (mkPoint 0 0)) as [Hin| ->].
    - rewrite Forall_forall in Hvs. now apply Hvs.
    - unfold nscoord_ok, nscoord_MIN, nscoord_MAX. cbn. lia. }
  unfold ComputeLineIntercept_step_checked, ComputeLineIntercept_step. cbn zeta.
  set (v0 := nth i vs (mkPoint 0 0)).
  set (v1 := nth ((i + 1) mod length vs)%nat vs (mkPoint 0 0)).
  pose proof (Hnth i) as H0. pose proof (Hnth ((i + 1) mod length vs)%nat) as H1.
  fold v0 in H0. fold v1 in H1.
  set (small := if pt_y v0 >? pt_y v1 then v1 else v0).
  set (big := if pt_y v0 >? pt_y v1 then v0 else v1).
  assert (Hs : nscoord_ok (pt_y small)) by (subst small; now destruct (_ >? _)).
  assert (Hb : nscoord_ok (pt_y big)) by (subst big; now destruct (_ >? _)).
  assert (Hle : pt_y small <= pt_y big).
  { subst small big. destruct (Z.gtb_spec (pt_y v0) (pt_y v1)); lia. }
  destruct (Z.geb_spec aBStart (pt_y big)) as [|Hlt1]; cbn [orb]; trivial.
  destruct (Z.leb_spec aBEnd (pt_y small)) as [|Hlt2]; cbn [orb]; trivial.
  destruct (Z.eqb_spec (pt_y small) (pt_y big)) as [|Hne]; trivial.
  assert (Hspan : pt_y big .- pt_y small = pt_y big - pt_y small).
  { unfold nscoord_sub. apply wrap32_id.
    unfold nscoord_ok, nscoord_MIN, nscoord_MAX, int32_ok in *. lia. }
  assert (Hchk : forall aY, pt_y small < aY < pt_y big ->
            Polygon_XInterceptAtY_checked aY small big
            = Ok (Polygon_XInterceptAtY aY small big)).
  { intros aY HaY. unfold Polygon_XInterceptAtY_checked, nscoord_div_traps.
    destruct (Z.leb_spec (pt_y small) aY); [|lia].
    destruct (Z.leb_spec aY (pt_y big)); [|lia]. cbn [andb negb].
    destruct (Z.eqb_spec (pt_y small) (pt_y big)); [contradiction|].
    cbn zeta. rewrite Hspan.
    destruct (Z.eqb_spec (pt_y big - pt_y small) 0); [lia|].
    destruct (Z.eqb_spec (pt_y big - pt_y small) (-1)); [lia|].
    cbn [orb]. now rewrite andb_false_r. }
  destruct (Z.leb_spec aBStart (pt_y small));
    destruct (Z.geb_spec aBEnd (pt_y big));
    rewrite ?Hchk by lia; reflexivity.
Qed.

Lemma ComputeLineIntercept_checked_ok (vs : list nsPoint) (aBStart aBEnd : Z)
    (aCompareOp : Z -> Z -> Z) (aLineInterceptInitialValue : Z) :
  Forall (fun v => nscoord_ok (pt_y v)) vs ->
  ComputeLineIntercept_checked vs aBStart aBEnd aCompareOp aLineInterceptInitialValue
  = Ok (ComputeLineIntercept vs aBStart aBEnd aCompareOp aLineInterceptInitialValue).
Proof.
  intros Hvs. unfold ComputeLineIntercept_checked, ComputeLineIntercept.
  generalize (seq 0 (length vs)) as idx. generalize aLineInterceptInitialValue as acc.
  intros acc idx. revert acc.
  induction idx as [|i idx IH]; intros acc; cbn [fold_left]; trivial.
  now rewrite ComputeLineIntercept_step_checked_ok.
Qed.

(** Outside that range the division of the polygon [XInterceptAtY] can trap:
    on a segment from the least to the greatest 32-bit block coordinate the
    block span wraps to -1, and at the band (0, 0) the dividend is the least
    32-bit integer. *)
Remark ComputeLineIntercept_checked_overflow :
  Polygon_XInterceptAtY_checked 0 (mkPoint 0 (- 2 ^ 31)) (mkPoint 1 (2 ^ 31 - 1))
  = DivisionOverflow
  /\ ComputeLineIntercept_checked
       [mkPoint 0 (- 2 ^ 31); mkPoint 1 (2 ^ 31 - 1); mkPoint 5 0] 0 0
       Z.min nscoord_MAX
     = DivisionOverflow.
Proof. split; vm_compute; reflexivity. Qed.

(** In [ComputeEllipseLineInterceptDiff] every call of the ellipse
    [XInterceptAtY] meets its assertion [aRadiusY > 0]. *)
Lemma ComputeEllipseLineInterceptDiff_checked_asserts
    (aShapeBoxBStart aShapeBoxBEnd aBStartCornerRadiusL aBStartCornerRadiusB
     aBEndCornerRadiusL aBEndCornerRadiusB aBandBStart aBandBEnd : Z) :
  ComputeEllipseLineInterceptDiff_checked
    aShapeBoxBStart aShapeBoxBEnd aBStartCornerRadiusL aBStartCornerRadiusB
    aBEndCornerRadiusL aBEndCornerRadiusB aBandBStart aBandBEnd
  <> AssertionFailure.
Proof.
  unfold ComputeEllipseLineInterceptDiff_checked, Ellipse_XInterceptAtY_checked.
  destruct (aBStartCornerRadiusB >? 0) eqn:E1; cbn [andb negb].
  - destruct (_ && _).
    + destruct (_ =? 0); discriminate.
    + destruct (aBEndCornerRadiusB >? 0) eqn:E2; cbn [andb negb]; [|discriminate].
      destruct (_ && _); [|discriminate]. destruct (_ =? 0); discriminate.
  - destruct (aBEndCornerRadiusB >? 0) eqn:E2; cbn [andb negb]; [|discriminate].
    destruct (_ && _); [|discriminate]. destruct (_ =? 0); discriminate.
Qed.

(** With block-axis radii below 46341 the squares do not wrap, the divisors
    are positive, and the checked helper is the unchecked one. *)
Lemma ComputeEllipseLineInterceptDiff_checked_ok
    (aShapeBoxBStart aShapeBoxBEnd aBStartCornerRadiusL aBStartCornerRadiusB
     aBEndCornerRadiusL aBEndCornerRadiusB aBandBStart aBandBEnd : Z) :
  aBStartCornerRadiusB <= 46340 -> aBEndCornerRadiusB <= 46340 ->
  ComputeEllipseLineInterceptDiff_checked
    aShapeBoxBStart aShapeBoxBEnd aBStartCornerRadiusL aBStartCornerRadiusB
    aBEndCornerRadiusL aBEndCornerRadiusB aBandBStart aBandBEnd
  = Ok (ComputeEllipseLineInterceptDiff
          aShapeBoxBStart aShapeBoxBEnd aBStartCornerRadiusL aBStartCornerRadiusB
          aBEndCornerRadiusL aBEndCornerRadiusB aBandBStart aBandBEnd).
Proof.
  intros Hs He.
  assert (Hsq : forall r, 0 < r <= 46340 -> (r .* r =? 0) = false).
  { intros r Hr. apply Z.eqb_neq. unfold nscoord_mul.
    rewrite wrap32_id; unfold int32_ok; nia. }
  unfold ComputeEllipseLineInterceptDiff_checked, ComputeEllipseLineInterceptDiff,
    Ellipse_XInterceptAtY_checked.
  destruct (Z.gtb_spec aBStartCornerRadiusB 0); cbn [andb negb].
  - destruct (_ && _).
    + now rewrite Hsq by lia.
    + destruct (Z.gtb_spec aBEndCornerRadiusB 0); cbn [andb negb]; trivial.
      destruct (_ && _); trivial. now rewrite Hsq by lia.
  - destruct (Z.gtb_spec aBEndCornerRadiusB 0); cbn [andb negb]; trivial.
    destruct (_ && _); trivial. now rewrite Hsq by lia.
Qed.

(** C10, at the failing input: a circle of radius 65536 (top at 0) and the
    band [10, 20] inside its block-start corner.  The guard
    [aBStartCornerRadiusB > 0] holds and [XInterceptAtY] is called with its
    assertion met, but the divisor [double(aRadiusY * aRadiusY)] is the
    32-bit product 65536 * 65536 = 0: the division is by zero, the intercept
    is not a number, and the line-left edge computed from it is far outside
    the circle. *)
Theorem ComputeEllipseLineInterceptDiff_zero_divisor :
  (65536 >? 0) = true
  /\ 65536 .* 65536 = 0
  /\ ComputeEllipseLineInterceptDiff_checked 0 131072 65536 65536 65536 65536 10 20
     = DivisionByZero
  /\ Ellipse_XInterceptAtY 65516 65536 65536 = - 2 ^ 31
  /\ Ellipse_LineLeft (mkPoint 65536 65536) (mkSize 65536 65536) 10 20
     = -2147418112.
Proof. repeat split; vm_compute; reflexivity. Qed.

(** ** WidthWithinHeight against BandFromPoint *)

(** C2, at the failing input: a left float with margin box
    (0, 0, 200000, 200000) and the shape [circle(50000)] centred in it, queried
    at B = 60000.  The square 50000 * 50000 wraps in 32 bits, the intercepts of
    [XInterceptAtY] are beyond the radius and grow with the distance from the
    centre line, and the WidthWithinHeight query over [60000, 90000] returns
    the inline start 151373, a region wider on the line-left side than the
    one of the BandFromPoint query at 60000, which starts at 168763. *)
Theorem GetFlowArea_WidthWithinHeight_wider_for_large_circle :
  50000 .* 50000 = -1794967296
  /\ GetFlowArea circle_float horizontal_ltr 60000 30000 WidthWithinHeight
                 ShapeOutside content_wide None container_wide
     = Some (mkFlowArea (mkLRect 151373 60000 848627 30000) true)
  /\ GetFlowArea circle_float horizontal_ltr 60000 30000 BandFromPoint
                 ShapeOutside content_wide None container_wide
     = Some (mkFlowArea (mkLRect 168763 60000 831237 30000) true)
  /\ 151373 < 168763.
Proof. repeat split; vm_compute; reflexivity. Qed.

Lemma FloatInfo_LineRight_mono (fi : FloatInfo) (aShapeType : ShapeType) (bs be : Z) :
  float_band_monotone aShapeType fi -> bs <= be ->
  FloatInfo_LineRight fi aShapeType bs bs <= FloatInfo_LineRight fi aShapeType bs be.
Proof.
  unfold float_band_monotone, FloatInfo_LineRight.
  destruct aShapeType; [lia|]. destruct (mShapeInfo fi) as [s|]; [|lia].
  intros Hm Hle. destruct (Hm bs be Hle). lia.
Qed.

Lemma FloatInfo_LineLeft_mono (fi : FloatInfo) (aShapeType : ShapeType) (bs be : Z) :
  float_band_monotone aShapeType fi -> bs <= be ->
  FloatInfo_LineLeft fi aShapeType bs be <= FloatInfo_LineLeft fi aShapeType bs bs.
Proof.
  unfold float_band_monotone, FloatInfo_LineLeft.
  destruct aShapeType; [lia|]. destruct (mShapeInfo fi) as [s|]; [|lia].
  intros Hm Hle. destruct (Hm bs be Hle). lia.
Qed.

Lemma GetFlowArea_float_narrower (aWM : WritingMode) (aShapeType : ShapeType)
    (blockStart beW : Z) (fi : FloatInfo) (stP stW : BandState) :
  float_band_monotone aShapeType fi ->
  blockStart <= beW ->
  narrower beW stP stW ->
  narrower beW
    (GetFlowArea_float aWM BandFromPoint aShapeType blockStart fi stP)
    (GetFlowArea_float aWM WidthWithinHeight aShapeType blockStart fi stW).
Proof.
  intros Hmono Hle (HL & HR & HB).
  pose proof (FloatInfo_LineRight_mono fi aShapeType blockStart beW Hmono Hle) as HmR.
  pose proof (FloatInfo_LineLeft_mono fi aShapeType blockStart beW Hmono Hle) as HmL.
  unfold narrower, GetFlowArea_float. cbn [isBandFromPoint]. rewrite HB.
  rewrite !andb_true_r, !andb_false_r.
  set (fBS := FloatInfo_BStart fi aShapeType) in *.
  set (fBE := FloatInfo_BEnd fi aShapeType) in *.
  set (eR := FloatInfo_LineRight fi aShapeType blockStart) in *.
  set (eL := FloatInfo_LineLeft fi aShapeType blockStart) in *.
  cbn [andb].
  destruct (Z.ltb_spec blockStart fBS) as [Hbelow|Hin].
  - (* the float starts below the band start: only the block end of the
       BandFromPoint band moves *)
    assert (HP : forall b, lineLeft (if fBS <? blockEnd stP
                  then mkBand (lineLeft stP) (lineRight stP) b (haveFloats stP)
                  else stP) = lineLeft stP
              /\ lineRight (if fBS <? blockEnd stP
                  then mkBand (lineLeft stP) (lineRight stP) b (haveFloats stP)
                  else stP) = lineRight stP).
    { intros b. now destruct (_ <? _). }
    destruct (HP fBS) as [-> ->].
    destruct (Z.ltb_spec blockStart fBE); cbn [andb];
      [destruct (_ || _)|]; try (repeat split; lia).
    destruct (StyleFloat_eqb _ _).
    + destruct (Z.gtb_spec (eR beW) (lineLeft stW));
        cbn [lineLeft lineRight blockEnd]; repeat split; lia.
    + destruct (Z.ltb_spec (eL beW) (lineRight stW));
        cbn [lineLeft lineRight blockEnd]; repeat split; lia.
  - destruct (Z.ltb_spec blockStart fBE) as [Hend|Hend]; cbn [andb];
      [|repeat split; lia].
    assert (HW : (fBS <? beW) || ((fBS =? beW) && (blockStart =? beW)) = true).
    { destruct (Z.ltb_spec fBS beW); cbn [orb]; trivial.
      replace (fBS =? beW) with true by (symmetry; apply Z.eqb_eq; lia).
      replace (blockStart =? beW) with true by (symmetry; apply Z.eqb_eq; lia).
      reflexivity. }
    rewrite HW.
    destruct ((fBS <? blockEnd stP)
              || ((fBS =? blockEnd stP) && (blockStart =? blockEnd stP))).
    + destruct (StyleFloat_eqb _ _).
      * destruct (Z.gtb_spec (eR blockStart) (lineLeft stP));
          destruct (Z.gtb_spec (eR beW) (lineLeft stW));
          destruct (fBE <? blockEnd stP);
          cbn [lineLeft lineRight blockEnd]; repeat split; lia.
      * destruct (Z.ltb_spec (eL blockStart) (lineRight stP));
          destruct (Z.ltb_spec (eL beW) (lineRight stW));
          destruct (fBE <? blockEnd stP);
          cbn [lineLeft lineRight blockEnd]; repeat split; lia.
    + destruct (StyleFloat_eqb _ _).
      * destruct (Z.gtb_spec (eR beW) (lineLeft stW));
          cbn [lineLeft lineRight blockEnd]; repeat split; lia.
      * destruct (Z.ltb_spec (eL beW) (lineRight stW));
          cbn [lineLeft lineRight blockEnd]; repeat split; lia.
Qed.

Lemma GetFlowArea_walk_narrower (aWM : WritingMode) (aShapeType : ShapeType)
    (blockStart beW : Z) (fs : list FloatInfo) (stP stW : BandState) :
  Forall (float_band_monotone aShapeType) fs ->
  blockStart <= beW ->
  narrower beW stP stW ->
  narrower beW
    (GetFlowArea_walk aWM BandFromPoint aShapeType blockStart fs stP)
    (GetFlowArea_walk aWM WidthWithinHeight aShapeType blockStart fs stW).
Proof.
  intros Hfs Hle. revert stP stW.
  induction Hfs as [|fi fs Hfi Hfs IH]; intros stP stW Hn; cbn [GetFlowArea_walk];
    trivial.
  destruct (_ && _); trivial.
  destruct (FloatInfo_IsEmpty fi aShapeType); [now apply IH|].
  apply IH. now apply GetFlowArea_float_narrower.
Qed.

Lemma GetFlowArea_init_blockEnd_ge (m : nsFloatManager) (aWM : WritingMode)
    (aBCoord aBSize : Z) (aContentArea : LogicalRect) (aContainerSize : nsSize) :
  GetFlowArea_blockStart m aBCoord <= nscoord_MAX ->
  GetFlowArea_blockStart m aBCoord
  <= blockEnd (GetFlowArea_init m aWM aBCoord aBSize aContentArea aContainerSize).
Proof.
  intros Hmax. unfold GetFlowArea_init. cbn [blockEnd].
  destruct (aBSize =? nscoord_MAX); trivial.
  set (be := GetFlowArea_blockStart m aBCoord .+ aBSize).
  destruct (Z.ltb_spec be (GetFlowArea_blockStart m aBCoord)); cbn [orb]; trivial.
  destruct (Z.gtb_spec be nscoord_MAX); lia.
Qed.

(** The documented invariant of [GetFlowArea], on the band edges: with the
    same state, content area and band start, a WidthWithinHeight call ends
    with a band at least as narrow on both sides as a BandFromPoint call,
    whatever their band sizes, for Margin queries and for ShapeOutside
    queries over shapes that are monotone in the band. *)
Theorem GetFlowArea_band_WidthWithinHeight_narrower
    (m : nsFloatManager) (aWM : WritingMode) (aBCoord aBSizeW aBSizeP : Z)
    (aShapeType : ShapeType) (aContentArea : LogicalRect)
    (aState : option SavedState) (aContainerSize : nsSize) :
  GetFlowArea_blockStart m aBCoord <= nscoord_MAX ->
  Forall (float_band_monotone aShapeType) (mFloats m) ->
  let W := GetFlowArea_band m aWM aBCoord aBSizeW WidthWithinHeight aShapeType
                            aContentArea aState aContainerSize in
  let P := GetFlowArea_band m aWM aBCoord aBSizeP BandFromPoint aShapeType
                            aContentArea aState aContainerSize in
  lineLeft P <= lineLeft W /\ lineRight W <= lineRight P.
Proof.
  intros Hmax Hfs W P. subst W P. unfold GetFlowArea_band.
  set (stW := GetFlowArea_init m aWM aBCoord aBSizeW aContentArea aContainerSize).
  set (stP := GetFlowArea_init m aWM aBCoord aBSizeP aContentArea aContainerSize).
  assert (Hn : narrower (blockEnd stW) stP stW).
  { unfold narrower, stW, stP, GetFlowArea_init. cbn [lineLeft lineRight].
    repeat split; lia. }
  assert (Hfs' : Forall (float_band_monotone aShapeType)
                   (rev (firstn (GetFlowArea_floatCount m aState) (mFloats m)))).
  { rewrite Forall_forall in *. intros fi Hin. apply Hfs.
    apply in_rev in Hin. eapply In_firstn_In; eauto. }
  pose proof (GetFlowArea_walk_narrower aWM aShapeType
                (GetFlowArea_blockStart m aBCoord) (blockEnd stW) _ stP stW Hfs'
                (GetFlowArea_init_blockEnd_ge m aWM aBCoord aBSizeW aContentArea
                   aContainerSize Hmax) Hn) as (HL & HR & _).
  split; assumption.
Qed.

(** Every float is monotone in the band for Margin queries. *)
Lemma float_band_monotone_Margin (fs : list FloatInfo) :
  Forall (float_band_monotone Margin) fs.
Proof. apply Forall_forall. intros fi _. exact I. Qed.

(** *** Which shapes are monotone in the band *)

Lemma band_monotone_plain_box (r : nsRect) : band_monotone (RoundedBox r None).
Proof. intros bs be _. cbn. lia. Qed.

Lemma ComputeLineIntercept_step_max_ge (vs : list nsPoint) (bs be acc : Z) (i : nat) :
  acc <= ComputeLineIntercept_step vs bs be Z.max acc i.
Proof.
  unfold ComputeLineIntercept_step. cbn zeta.
  destruct (_ || _); lia.
Qed.

Lemma ComputeLineIntercept_step_min_le (vs : list nsPoint) (bs be acc : Z) (i : nat) :
  ComputeLineIntercept_step vs bs be Z.min acc i <= acc.
Proof.
  unfold ComputeLineIntercept_step. cbn zeta.
  destruct (_ || _); lia.
Qed.

(** A segment that the band [bs, bs] meets is met by [bs, be] at the same
    block-start intercept. *)
Lemma ComputeLineIntercept_step_max_mono (vs : list nsPoint) (bs be accP accW : Z)
    (i : nat) :
  bs <= be -> accP <= accW ->
  ComputeLineIntercept_step vs bs bs Z.max accP i
  <= ComputeLineIntercept_step vs bs be Z.max accW i.
Proof.
  intros Hle Hacc. unfold ComputeLineIntercept_step. cbn zeta.
  set (small := if _ >? _ then _ else _).
  set (big := if _ >? _ then _ else _).
  zcases; lia.
Qed.

Lemma ComputeLineIntercept_step_min_mono (vs : list nsPoint) (bs be accP accW : Z)
    (i : nat) :
  bs <= be -> accW <= accP ->
  ComputeLineIntercept_step vs bs be Z.min accW i
  <= ComputeLineIntercept_step vs bs bs Z.min accP i.
Proof.
  intros Hle Hacc. unfold ComputeLineIntercept_step. cbn zeta.
  set (small := if _ >? _ then _ else _).
  set (big := if _ >? _ then _ else _).
  zcases; lia.
Qed.

Lemma band_monotone_polygon (p : PolygonShapeInfo) : band_monotone (Polygon p).
Proof.
  intros bs be Hle. cbn [Shape_LineRight Shape_LineLeft].
  unfold Polygon_LineRight, Polygon_LineLeft, ComputeLineIntercept.
  generalize (seq 0 (length (mVertices p))) as idx. intros idx. split.
  - assert (H : forall accP accW, accP <= accW ->
       fold_left (ComputeLineIntercept_step (mVertices p) bs bs Z.max) idx accP
       <= fold_left (ComputeLineIntercept_step (mVertices p) bs be Z.max) idx accW).
    { induction idx as [|i idx IH]; intros accP accW Hacc; cbn [fold_left]; trivial.
      apply IH. now apply ComputeLineIntercept_step_max_mono. }
    apply H. lia.
  - assert (H : forall accP accW, accW <= accP ->
       fold_left (ComputeLineIntercept_step (mVertices p) bs be Z.min) idx accW
       <= fold_left (ComputeLineIntercept_step (mVertices p) bs bs Z.min) idx accP).
    { induction idx as [|i idx IH]; intros accP accW Hacc; cbn [fold_left]; trivial.
      apply IH. now apply ComputeLineIntercept_step_min_mono. }
    apply H. lia.
Qed.

Lemma LineEdge_scan_max_ge (ivs : list nsRect) (be acc : Z) :
  acc <= LineEdge_scan ivs be false acc.
Proof.
  revert acc. induction ivs as [|iv ivs IH]; intros acc; cbn; [lia|].
  destruct (_ >? _); [lia|]. specialize (IH (Z.max acc (XMost iv))). lia.
Qed.

Lemma LineEdge_scan_min_le (ivs : list nsRect) (be acc : Z) :
  LineEdge_scan ivs be true acc <= acc.
Proof.
  revert acc. induction ivs as [|iv ivs IH]; intros acc; cbn; [lia|].
  destruct (_ >? _); [lia|]. specialize (IH (Z.min acc (x iv))). lia.
Qed.

Lemma LineEdge_scan_max_mono (ivs : list nsRect) (bs be accP accW : Z) :
  bs <= be -> accP <= accW ->
  LineEdge_scan ivs bs false accP <= LineEdge_scan ivs be false accW.
Proof.
  intros Hle. revert accP accW.
  induction ivs as [|iv ivs IH]; intros accP accW Hacc; cbn; trivial.
  destruct (Z.gtb_spec (y iv) bs); destruct (Z.gtb_spec (y iv) be); try lia.
  - pose proof (LineEdge_scan_max_ge ivs be (Z.max accW (XMost iv))). lia.
  - apply IH. lia.
Qed.

Lemma LineEdge_scan_min_mono (ivs : list nsRect) (bs be accP accW : Z) :
  bs <= be -> accW <= accP ->
  LineEdge_scan ivs be true accW <= LineEdge_scan ivs bs true accP.
Proof.
  intros Hle. revert accP accW.
  induction ivs as [|iv ivs IH]; intros accP accW Hacc; cbn; trivial.
  destruct (Z.gtb_spec (y iv) bs); destruct (Z.gtb_spec (y iv) be); try lia.
  - pose proof (LineEdge_scan_min_le ivs be (Z.min accW (x iv))). lia.
  - apply IH. lia.
Qed.

Lemma band_monotone_image (s : ImageShapeInfo) : band_monotone (Image s).
Proof.
  intros bs be Hle. cbn [Shape_LineRight Shape_LineLeft]. unfold LineEdge. split.
  - apply LineEdge_scan_max_mono; lia.
  - apply LineEdge_scan_min_mono; lia.
Qed.

(** The binary search of [MinIntervalIndexContainingY] ends within its fuel:
    more fuel than the width of the interval searched changes nothing. *)
Lemma MinIntervalIndex_loop_fuel (ivs : list nsRect) (aTargetY : Z)
    (f1 f2 startIdx endIdx : nat) :
  (endIdx - startIdx < f1)%nat -> (endIdx - startIdx < f2)%nat ->
  MinIntervalIndex_loop f1 ivs aTargetY startIdx endIdx
  = MinIntervalIndex_loop f2 ivs aTargetY startIdx endIdx.
Proof.
  revert f2 startIdx endIdx.
  induction f1 as [|f1 IH]; intros f2 startIdx endIdx H1 H2; [lia|].
  destruct f2 as [|f2]; [lia|]. cbn [MinIntervalIndex_loop].
  destruct (Nat.ltb_spec startIdx endIdx) as [Hlt|Hge]; trivial.
  destruct (ContainsY _ _); trivial.
  assert (Hhalf : ((endIdx - startIdx) / 2 < endIdx - startIdx)%nat)
    by (apply Nat.div_lt; lia).
  destruct (_ <? _); apply IH; lia.
Qed.

(** The same invariant on the returned rectangles, for coordinates away from
    the 32-bit limits: the inline start of the WidthWithinHeight result is no
    smaller, and its inline end no larger, than those of the BandFromPoint
    result. *)
Theorem GetFlowArea_WidthWithinHeight_narrower
    (m : nsFloatManager) (aWM : WritingMode) (aBCoord aBSizeW aBSizeP : Z)
    (aShapeType : ShapeType) (aContentArea : LogicalRect)
    (aState : option SavedState) (aContainerSize : nsSize)
    (rW rP : nsFlowAreaRect) :
  GetFlowArea_blockStart m aBCoord <= nscoord_MAX ->
  Forall (float_band_monotone aShapeType) (mFloats m) ->
  safe_coord (mLineLeft m) ->
  content_area_ok aWM aContentArea aContainerSize ->
  Forall float_rect_ok (mFloats m) ->
  GetFlowArea m aWM aBCoord aBSizeW WidthWithinHeight aShapeType aContentArea
              aState aContainerSize = Some rW ->
  GetFlowArea m aWM aBCoord aBSizeP BandFromPoint aShapeType aContentArea
              aState aContainerSize = Some rP ->
  IStart (fa_mRect rP) <= IStart (fa_mRect rW)
  /\ IStart (fa_mRect rW) + ISize (fa_mRect rW)
     <= IStart (fa_mRect rP) + ISize (fa_mRect rP).
Proof.
  intros Hmax Hmono Hm Hca Hfs HW HP.
  apply GetFlowArea_cases in HW as [[HqW ->]|[HqW HW]];
    apply GetFlowArea_cases in HP as [[HqP ->]|[HqP HP]]; try congruence.
  - cbn. lia.
  - cbn zeta in HW, HP. subst rW rP. cbn [fa_mRect IStart ISize].
    destruct (GetFlowArea_band_WidthWithinHeight_narrower m aWM aBCoord aBSizeW
                aBSizeP aShapeType aContentArea aState aContainerSize Hmax Hmono)
      as [HL HR].
    pose proof (GetFlowArea_band_edges m aWM aBCoord aBSizeW WidthWithinHeight
                  aShapeType aContentArea aState aContainerSize Hfs) as [HLW HRW].
    pose proof (GetFlowArea_band_edges m aWM aBCoord aBSizeP BandFromPoint
                  aShapeType aContentArea aState aContainerSize Hfs) as [HLP HRP].
    destruct (GetFlowArea_init_edges m aWM aBCoord aBSizeW aContentArea
                aContainerSize Hm Hca) as [ELW ERW].
    destruct (GetFlowArea_init_edges m aWM aBCoord aBSizeP aContentArea
                aContainerSize Hm Hca) as [ELP ERP].
    cbn zeta in *.
    rewrite ELW in HLW. rewrite ERW in HRW. rewrite ELP in HLP. rewrite ERP in HRP.
    destruct Hca as (Hsz & Hs & He & Hc).
    destruct (IsBidiLTR aWM); unwrap; lia.
Qed.

(** A zero-height WidthWithinHeight band includes a float whose block extent
    begins exactly at the band: a left float raises the line-left edge to its
    line-right edge, a right float lowers the line-right edge to its line-left
    edge. *)
Lemma GetFlowArea_float_zero_height (aWM : WritingMode) (aShapeType : ShapeType)
    (blockStart : Z) (fi : FloatInfo) (st : BandState) :
  blockEnd st = blockStart ->
  FloatInfo_BStart fi aShapeType = blockStart ->
  blockStart < FloatInfo_BEnd fi aShapeType ->
  let st' := GetFlowArea_float aWM WidthWithinHeight aShapeType blockStart fi st in
  (PhysicalFloats (mFrame fi) aWM = StyleFloat_Left ->
     lineLeft st'
     = Z.max (lineLeft st) (FloatInfo_LineRight fi aShapeType blockStart blockStart))
  /\ (PhysicalFloats (mFrame fi) aWM = StyleFloat_Right ->
     lineRight st'
     = Z.min (lineRight st) (FloatInfo_LineLeft fi aShapeType blockStart blockStart)).
Proof.
  intros Hbe Hbs Hlt. unfold GetFlowArea_float. cbn [isBandFromPoint].
  rewrite Hbe, Hbs, !andb_false_r, Z.ltb_irrefl, !Z.eqb_refl.
  replace (blockStart <? FloatInfo_BEnd fi aShapeType) with true
    by (symmetry; apply Z.ltb_lt; lia).
  cbn [andb orb].
  split; intros ->; cbn [StyleFloat_eqb]; zcases; cbn [lineLeft lineRight]; lia.
Qed.

(** ** The determinant test and 32-bit products *)

(** For vertices with coordinates below 2^14 in absolute value, the
    determinant of the constructor is the exact one: the test is geometric
    collinearity of [p0], [p1] and [p2]. *)
Lemma Determinant_exact (p0 p1 p2 : nsPoint) :
  (forall v, In v [pt_x p0; pt_y p0; pt_x p1; pt_y p1; pt_x p2; pt_y p2] ->
     - 2 ^ 14 < v < 2 ^ 14) ->
  Determinant (point_sub p2 p0) (point_sub p1 p0)
  = (pt_x p2 - pt_x p0) * (pt_y p1 - pt_y p0)
    - (pt_y p2 - pt_y p0) * (pt_x p1 - pt_x p0).
Proof.
  intros H.
  pose proof (H (pt_x p0) ltac:(cbn; tauto)).
  pose proof (H (pt_y p0) ltac:(cbn; tauto)).
  pose proof (H (pt_x p1) ltac:(cbn; tauto)).
  pose proof (H (pt_y p1) ltac:(cbn; tauto)).
  pose proof (H (pt_x p2) ltac:(cbn; tauto)).
  pose proof (H (pt_y p2) ltac:(cbn; tauto)).
  clear H.
  unfold Determinant, point_sub. cbn [pt_x pt_y].
  unfold nscoord_sub, nscoord_mul.
  rewrite (wrap32_id (pt_x p2 - pt_x p0)), (wrap32_id (pt_y p1 - pt_y p0)),
    (wrap32_id (pt_y p2 - pt_y p0)), (wrap32_id (pt_x p1 - pt_x p0))
    by (unfold int32_ok; lia).
  set (a := pt_x p2 - pt_x p0). set (b := pt_y p1 - pt_y p0).
  set (c := pt_y p2 - pt_y p0). set (d := pt_x p1 - pt_x p0).
  assert (Ha : - 2 ^ 15 < a < 2 ^ 15) by (subst a; lia).
  assert (Hb : - 2 ^ 15 < b < 2 ^ 15) by (subst b; lia).
  assert (Hc : - 2 ^ 15 < c < 2 ^ 15) by (subst c; lia).
  assert (Hd : - 2 ^ 15 < d < 2 ^ 15) by (subst d; lia).
  clearbody a b c d.
  assert (Hab : - 2 ^ 30 < a * b < 2 ^ 30) by nia.
  assert (Hcd : - 2 ^ 30 < c * d < 2 ^ 30) by nia.
  rewrite (wrap32_id (a * b)), (wrap32_id (c * d)) by (unfold int32_ok; lia).
  apply wrap32_id. unfold int32_ok. lia.
Qed.

(** ** The general statements at sample inputs *)

(** A band [90, 120] over [three_floats]: the third float starts at 100,
    below the band start, so the BandFromPoint band stops there and keeps the
    first float's edge 200, and the WidthWithinHeight band takes the third
    float's edge 300. *)
Lemma GetFlowArea_WidthWithinHeight_narrower_witness :
  GetFlowArea three_floats horizontal_ltr 90 30 WidthWithinHeight Margin
              content_0_1000 None container1000
  = Some (mkFlowArea (mkLRect 300 90 500 30) true)
  /\ GetFlowArea three_floats horizontal_ltr 90 30 BandFromPoint Margin
                 content_0_1000 None container1000
     = Some (mkFlowArea (mkLRect 200 90 600 10) true)
  /\ 200 <= 300
  /\ 300 + 500 <= 200 + 600.
Proof.
  assert (Hmax : GetFlowArea_blockStart three_floats 90 <= nscoord_MAX).
  { vm_compute. discriminate. }
  assert (Hm : safe_coord (mLineLeft three_floats)).
  { unfold safe_coord. cbn. lia. }
  assert (Hc : content_area_ok horizontal_ltr content_0_1000 container1000).
  { unfold content_area_ok, safe_coord. cbn. lia. }
  assert (Hfs : Forall float_rect_ok (mFloats three_floats)).
  { repeat constructor; unfold safe_coord; cbn; lia. }
  split; [reflexivity|]. split; [reflexivity|].
  exact (GetFlowArea_WidthWithinHeight_narrower
           three_floats horizontal_ltr 90 30 30 Margin content_0_1000 None
           container1000
           (mkFlowArea (mkLRect 300 90 500 30) true)
           (mkFlowArea (mkLRect 200 90 600 10) true)
           Hmax (float_band_monotone_Margin _) Hm Hc Hfs eq_refl eq_refl).
Defined.

(** The hypotenuse of [triangle_200] over the band [150, 160]: x = 50 at the
    band start, 40 at its end. *)
Lemma ComputeLineIntercept_checked_ok_witness :
  ComputeLineIntercept_checked triangle_200 150 160 Z.max nscoord_MIN = Ok 50.
Proof.
  assert (Hvs : Forall (fun v => nscoord_ok (pt_y v)) triangle_200).
  { repeat constructor; unfold nscoord_MIN, nscoord_MAX; cbn; lia. }
  exact (ComputeLineIntercept_checked_ok triangle_200 150 160 Z.max nscoord_MIN Hvs).
Defined.

(** A corner of radii (100, 100) at the top of a box [0, 200], band end 20:
    the intercept at y = 80 is 60, the line diff 40. *)
Lemma ComputeEllipseLineInterceptDiff_checked_ok_witness :
  ComputeEllipseLineInterceptDiff_checked 0 200 100 100 100 100 10 20 = Ok 40.
Proof.
  exact (ComputeEllipseLineInterceptDiff_checked_ok 0 200 100 100 100 100 10 20
           ltac:(lia) ltac:(lia)).
Defined.

Lemma Determinant_exact_witness :
  Determinant (point_sub (mkPoint 0 200) (mkPoint 0 0))
              (point_sub (mkPoint 200 0) (mkPoint 0 0))
  = (0 - 0) * (0 - 0) - (200 - 0) * (200 - 0).
Proof.
  apply (Determinant_exact (mkPoint 0 0) (mkPoint 200 0) (mkPoint 0 200)).
  cbn. intros v Hv. repeat (destruct Hv as [<-|Hv]; [lia|]). contradiction.
Defined.


(** The float of [one_left_float] begins at 0: a zero-height band at 0
    takes its line-right edge, 200. *)
Lemma GetFlowArea_float_zero_height_witness :
  lineLeft (GetFlowArea_float horizontal_ltr WidthWithinHeight Margin 0
              (mkFloatInfo (plain_frame 1 StyleFloat_Left) 100 nscoord_MIN
                           (mkRect 0 0 200 100) None)
              (mkBand 0 1000 0 false))
  = Z.max 0 200.
Proof.
  apply (GetFlowArea_float_zero_height horizontal_ltr Margin 0
           (mkFloatInfo (plain_frame 1 StyleFloat_Left) 100 nscoord_MIN
                        (mkRect 0 0 200 100) None)
           (mkBand 0 1000 0 false));
    (reflexivity || (cbn; lia)).
Defined.

(** ** The instance cache *)

Lemma cache_stack_count (c : ManagerCache) :
  Z.of_nat (length (cache_stack c)) = Z.max 0 (sCachedFloatManagerCount c).
Proof.
  unfold cache_stack. rewrite length_map, length_rev, length_seq. lia.
Qed.

Lemma cache_stack_succ (slots : Z -> nat) (n : Z) :
  0 <= n ->
  cache_stack (mkCache (n + 1) slots) = slots n :: cache_stack (mkCache n slots).
Proof.
  intros Hn. unfold cache_stack. cbn [sCachedFloatManagerCount sCachedFloatManagers].
  replace (Z.to_nat (n + 1)) with (S (Z.to_nat n)) by lia.
  rewrite seq_S, rev_app_distr. cbn. f_equal. f_equal. lia.
Qed.

Lemma cache_stack_store (slots : Z -> nat) (n : Z) (p : nat) :
  cache_stack (mkCache n (cache_store slots n p)) = cache_stack (mkCache n slots).
Proof.
  unfold cache_stack. cbn [sCachedFloatManagerCount sCachedFloatManagers].
  apply map_ext_in. intros i Hi. apply in_rev, in_seq in Hi.
  unfold cache_store. destruct (Z.eqb_spec (Z.of_nat i) n); trivial. lia.
Qed.

(** The cache is a bounded stack.  While caching is enabled, [operator new]
    pops the most recently cached instance and calls the allocator only on an
    empty cache; [operator delete] pushes a non-null pointer while fewer than
    the capacity are cached, frees it otherwise, and ignores null. *)
Theorem cache_is_bounded_stack (size : Z) (c : ManagerCache) (aPtr : nat) :
  0 <= sCachedFloatManagerCount c ->
  (match cache_stack c with
   | [] => operator_new c = (FromMalloc, c)
   | p :: rest =>
       fst (operator_new c) = FromCache p
       /\ cache_stack (snd (operator_new c)) = rest
   end)
  /\ (aPtr = O -> operator_delete size c aPtr = (NullIgnored, c))
  /\ (aPtr <> O ->
      if Z.of_nat (length (cache_stack c)) <? size
      then fst (operator_delete size c aPtr) = Cached
           /\ cache_stack (snd (operator_delete size c aPtr)) = aPtr :: cache_stack c
      else operator_delete size c aPtr = (Freed, c)).
Proof.
  intros Hc. destruct c as [n slots]. cbn [sCachedFloatManagerCount] in Hc.
  split; [|split].
  - unfold operator_new. cbn [sCachedFloatManagerCount sCachedFloatManagers].
    destruct (Z.gtb_spec n 0) as [Hpos|Hz].
    + assert (E : cache_stack (mkCache n slots)
                  = slots (n - 1) :: cache_stack (mkCache (n - 1) slots)).
      { rewrite <- cache_stack_succ by lia. do 2 f_equal. lia. }
      rewrite E. cbn [fst snd]. split; reflexivity.
    + assert (n = 0) by lia. subst n. reflexivity.
  - intros ->. reflexivity.
  - intros Hp. unfold operator_delete.
    destruct (Nat.eqb_spec aPtr O); [contradiction|].
    rewrite cache_stack_count. cbn [sCachedFloatManagerCount sCachedFloatManagers].
    rewrite Z.max_r by lia.
    destruct (Z.ltb_spec n size); destruct (Z.geb_spec n 0); try lia; cbn [andb fst snd].
    + split; trivial.
      rewrite cache_stack_succ by lia. rewrite cache_stack_store.
      unfold cache_store. now rewrite Z.eqb_refl.
    + reflexivity.
Qed.

Lemma cache_stack_shutdown (slots : Z -> nat) : cache_stack (mkCache (-1) slots) = [].
Proof. reflexivity. Qed.

Lemma cache_step_ok (size : Z) (c : ManagerCache) (op : CacheOp) :
  0 <= size -> cache_ok size c -> cache_ok size (snd (cache_step size c op)).
Proof.
  intros Hsize [Hcount Hnn]. destruct c as [n slots].
  cbn [sCachedFloatManagerCount] in Hcount.
  destruct op as [|p|]; cbn [cache_step].
  - unfold operator_new. cbn [sCachedFloatManagerCount sCachedFloatManagers].
    destruct (Z.gtb_spec n 0) as [Hpos|Hz]; cbn [snd]; [|now split].
    split; [cbn; lia|].
    assert (E : cache_stack (mkCache n slots)
                = slots (n - 1) :: cache_stack (mkCache (n - 1) slots)).
    { rewrite <- cache_stack_succ by lia. do 2 f_equal. lia. }
    rewrite E in Hnn. now inversion Hnn.
  - unfold operator_delete. cbn [sCachedFloatManagerCount sCachedFloatManagers].
    destruct (Nat.eqb_spec p O); cbn [snd]; [now split|].
    destruct (Z.ltb_spec n size); destruct (Z.geb_spec n 0); cbn [andb snd];
      try (now split).
    split; [cbn; lia|].
    rewrite cache_stack_succ by lia. rewrite cache_stack_store.
    unfold cache_store. rewrite Z.eqb_refl. now constructor.
  - cbn [Shutdown snd]. split; [now left|]. rewrite cache_stack_shutdown. constructor.
Qed.

Lemma cache_run_cons (size : Z) (c : ManagerCache) (op : CacheOp) (ops : list CacheOp) :
  cache_run size c (op :: ops)
  = (fst (cache_step size c op) :: fst (cache_run size (snd (cache_step size c op)) ops),
     snd (cache_run size (snd (cache_step size c op)) ops)).
Proof.
  cbn [cache_run]. destruct (cache_step size c op) as [ev c'].
  cbn [fst snd]. now destruct (cache_run size c' ops).
Qed.

(** Whatever the driver does, the cache stays well formed: the count is -1
    after a shutdown and between 0 and the capacity otherwise, and no null
    pointer is cached. *)
Theorem cache_run_ok (size : Z) (ops : list CacheOp) (c : ManagerCache) :
  0 <= size -> cache_ok size c -> cache_ok size (snd (cache_run size c ops)).
Proof.
  intros Hsize. revert c.
  induction ops as [|op ops IH]; intros c Hc; [exact Hc|].
  rewrite cache_run_cons. cbn [snd]. apply IH. now apply cache_step_ok.
Qed.

(** After [Shutdown] nothing is cached again: the count stays -1, every
    [operator new] goes to the allocator and every non-null pointer deleted
    is freed, whatever operations follow. *)
Theorem Shutdown_disables_caching (size : Z) (c0 : ManagerCache) (ops : list CacheOp) :
  let c := snd (Shutdown c0) in
  sCachedFloatManagerCount (snd (cache_run size c ops)) = -1
  /\ Forall uncached_event (fst (cache_run size c ops)).
Proof.
  cbn zeta. cbn [Shutdown snd].
  generalize (sCachedFloatManagers c0) as slots. intros slots.
  induction ops as [|op ops IH]; [split; [reflexivity|constructor]|].
  rewrite cache_run_cons. cbn [fst snd].
  assert (Hstep : snd (cache_step size (mkCache (-1) slots) op) = mkCache (-1) slots
                  /\ uncached_event (fst (cache_step size (mkCache (-1) slots) op))).
  { destruct op as [|p|]; cbn [cache_step].
    - split; reflexivity.
    - unfold operator_delete, uncached_event.
      cbn [sCachedFloatManagerCount sCachedFloatManagers].
      destruct (Nat.eqb p O) eqn:E; cbn [fst snd]; rewrite ?E;
        [split; reflexivity|].
      rewrite andb_false_r. cbn [fst snd]. rewrite E. split; reflexivity.
    - split; reflexivity. }
  destruct Hstep as [-> Hev]. destruct IH as [IH1 IH2].
  split; [exact IH1|]. now constructor.
Qed.

Lemma Shutdown_frees_stack (c : ManagerCache) :
  Forall (fun p => p <> O) (cache_stack c) ->
  Permutation (cache_stack c) (fst (Shutdown c)).
Proof.
  intros Hnn. cbn [Shutdown fst].
  assert (E : map (fun i => sCachedFloatManagers c (Z.of_nat i))
                  (seq 0 (Z.to_nat (sCachedFloatManagerCount c)))
              = rev (cache_stack c)).
  { unfold cache_stack. now rewrite <- map_rev, rev_involutive. }
  rewrite E.
  assert (Hf : forall l : list nat, Forall (fun p => p <> O) l ->
                 filter (fun p => negb (Nat.eqb p O)) l = l).
  { induction l as [|a l IH]; intros H; [reflexivity|].
    inversion H; subst. cbn. destruct (Nat.eqb_spec a O); [contradiction|].
    cbn. f_equal. now apply IH. }
  rewrite Hf.
  - apply Permutation_rev.
  - apply Forall_rev. exact Hnn.
Qed.

Lemma cache_step_conserves (size : Z) (c : ManagerCache) (op : CacheOp) :
  cache_ok size c ->
  let ev := fst (cache_step size c op) in
  let c' := snd (cache_step size c op) in
  Permutation (cache_stack c ++ deleted_of ev)
              (reused_of ev ++ freed_of ev ++ cache_stack c').
Proof.
  intros [Hcount Hnn]. cbn zeta.
  destruct op as [|p|]; cbn [cache_step].
  - destruct c as [n slots]. unfold operator_new.
    cbn [sCachedFloatManagerCount sCachedFloatManagers].
    destruct (Z.gtb_spec n 0) as [Hpos|Hz]; cbn [fst snd deleted_of reused_of freed_of].
    + assert (E : cache_stack (mkCache n slots)
                  = slots (n - 1) :: cache_stack (mkCache (n - 1) slots)).
      { rewrite <- cache_stack_succ by lia. do 2 f_equal. lia. }
      rewrite E, app_nil_r. reflexivity.
    + rewrite app_nil_r. reflexivity.
  - destruct c as [n slots]. unfold operator_delete.
    cbn [sCachedFloatManagerCount sCachedFloatManagers].
    destruct (Nat.eqb_spec p O); cbn [fst snd deleted_of reused_of freed_of].
    + rewrite app_nil_r. reflexivity.
    + destruct (Z.ltb_spec n size); destruct (Z.geb_spec n 0);
        cbn [andb fst snd deleted_of reused_of freed_of app].
      * rewrite cache_stack_succ by lia. rewrite cache_stack_store.
        unfold cache_store. rewrite Z.eqb_refl.
        symmetry. apply Permutation_cons_append.
      * symmetry. apply Permutation_cons_append.
      * symmetry. apply Permutation_cons_append.
      * symmetry. apply Permutation_cons_append.
  - cbn [deleted_of reused_of freed_of app].
    replace (cache_stack (snd (Shutdown c))) with (@nil nat) by reflexivity.
    rewrite !app_nil_r. now apply Shutdown_frees_stack.
Qed.

(** No instance is lost or handed out twice.  Over any run from a well-formed
    cache, the pointers cached at the start together with those given to
    [operator delete] are, counted with multiplicity, those [operator new]
    took from the cache, those freed by [operator delete] or [Shutdown], and
    those still cached at the end. *)
Theorem cache_run_conserves (size : Z) (ops : list CacheOp) (c : ManagerCache) :
  0 <= size ->
  cache_ok size c ->
  let evs := fst (cache_run size c ops) in
  let c' := snd (cache_run size c ops) in
  Permutation (cache_stack c ++ flat_map deleted_of evs)
              (flat_map reused_of evs ++ flat_map freed_of evs ++ cache_stack c').
Proof.
  intros Hsize. revert c.
  induction ops as [|op ops IH]; intros c Hc; cbn zeta.
  - cbn. rewrite app_nil_r. reflexivity.
  - rewrite cache_run_cons. cbn [fst snd flat_map].
    pose proof (cache_step_conserves size c op Hc) as Hstep. cbn zeta in Hstep.
    specialize (IH _ (cache_step_ok size c op Hsize Hc)). cbn zeta in IH.
    set (ev := fst (cache_step size c op)) in *.
    set (c1 := snd (cache_step size c op)) in *.
    set (evs := fst (cache_run size c1 ops)) in *.
    set (c2 := snd (cache_run size c1 ops)) in *.
    rewrite app_assoc.
    rewrite Hstep.
    rewrite <- !app_assoc.
    apply Permutation_app_head.
    transitivity (freed_of ev ++ flat_map reused_of evs
                  ++ flat_map freed_of evs ++ cache_stack c2).
    + apply Permutation_app_head. exact IH.
    + rewrite !app_assoc. apply Permutation_app_tail. apply Permutation_app_tail.
      apply Permutation_app_comm.
Qed.

(** A run of deletions, allocations and a shutdown from the initial cache of
    capacity 2. *)
Lemma cache_run_conserves_witness :
  fst (cache_run 2 ManagerCache_init
         [OpDelete 7; OpDelete 8; OpDelete 9; OpNew; OpShutdown; OpDelete 5; OpNew])
  = [EvDelete 7 Cached; EvDelete 8 Cached; EvDelete 9 Freed; EvNew (FromCache 8);
     EvShutdown [7%nat]; EvDelete 5 Freed; EvNew FromMalloc]
  /\ Permutation ([] ++ [7; 8; 9; 5])%nat ([8] ++ [9; 7; 5] ++ [])%nat.
Proof.
  split; [reflexivity|].
  apply (cache_run_conserves 2
           [OpDelete 7; OpDelete 8; OpDelete 9; OpNew; OpShutdown; OpDelete 5; OpNew]
           ManagerCache_init); [lia|].
  split; [right; cbn; lia | constructor].
Defined.

Lemma cache_run_ok_witness :
  cache_ok 2 (snd (cache_run 2 ManagerCache_init
                     [OpDelete 7; OpDelete 8; OpDelete 9; OpNew])).
Proof.
  apply (cache_run_ok 2 [OpDelete 7; OpDelete 8; OpDelete 9; OpNew] ManagerCache_init);
    [lia|].
  split; [right; cbn; lia | constructor].
Defined.

Lemma cache_is_bounded_stack_witness :
  operator_new ManagerCache_init = (FromMalloc, ManagerCache_init)
  /\ fst (operator_delete 2 ManagerCache_init 7) = Cached
  /\ cache_stack (snd (operator_delete 2 ManagerCache_init 7)) = [7%nat].
Proof.
  pose proof (cache_is_bounded_stack 2 ManagerCache_init 7 ltac:(cbn; lia))
    as (Hnew & _ & Hdel).
  split; [exact Hnew|]. exact (Hdel ltac:(discriminate)).
Defined.

(** ** CalculateRegionFor *)

Lemma wrap32_idem (z : Z) : wrap32 (wrap32 z) = wrap32 z.
Proof. apply wrap32_id, wrap32_range. Qed.

Lemma IEnd_add_0 (r : LogicalRect) : IEnd r .+ 0 = IEnd r.
Proof.
  unfold IEnd, nscoord_add. rewrite Z.add_0_r. apply wrap32_idem.
Qed.

(** The region [CalculateRegionFor] returns never has a negative inline or
    block size, and it is the frame's rect expanded by the margin whenever
    that rect has none. *)
Theorem CalculateRegionFor_sizes (aWM : WritingMode) (aFloat : nsIFrame)
    (aFrameRect : LogicalRect) (aMargin : LogicalMargin) :
  let region := CalculateRegionFor aWM aFloat aFrameRect aMargin in
  let inflated := LRect_Inflate aFrameRect aMargin in
  0 <= ISize region /\ 0 <= BSizeL region
  /\ BStartL region = BStartL inflated
  /\ (0 <= ISize inflated -> IStart region = IStart inflated
                             /\ ISize region = ISize inflated)
  /\ (0 <= BSizeL inflated -> BSizeL region = BSizeL inflated).
Proof.
  cbn zeta. unfold CalculateRegionFor.
  set (inflated := LRect_Inflate aFrameRect aMargin).
  destruct (Z.ltb_spec (ISize inflated) 0) as [Hi|Hi];
    [destruct (Bool.eqb _ _)|];
    cbn [ISize BSizeL BStartL IStart];
    destruct (Z.ltb_spec (BSizeL inflated) 0) as [Hb|Hb];
    cbn [ISize BSizeL BStartL IStart]; repeat split; lia.
Qed.

Lemma LRect_Inflate_IStart_add_0 (r : LogicalRect) (m : LogicalMargin) :
  IStart (LRect_Inflate r m) .+ 0 = IStart (LRect_Inflate r m).
Proof.
  unfold LRect_Inflate, nscoord_add, nscoord_sub. cbn [IStart].
  rewrite Z.add_0_r. apply wrap32_idem.
Qed.

(** When the expanded rect has a negative inline size, the region collapses
    onto the margin edge away from the float's side: both edges of a left
    float's region are the line-right edge of the expanded rect, both edges
    of a right float's region are its line-left edge, under LTR and under
    RTL. *)
Theorem CalculateRegionFor_collapsed_edge (aWM : WritingMode) (aFloat : nsIFrame)
    (aFrameRect : LogicalRect) (aMargin : LogicalMargin) (aContainerSize : nsSize) :
  let region := CalculateRegionFor aWM aFloat aFrameRect aMargin in
  let inflated := LRect_Inflate aFrameRect aMargin in
  ISize inflated < 0 ->
  (PhysicalFloats aFloat aWM = StyleFloat_Left ->
     LRect_LineLeft region aWM aContainerSize
     = LRect_LineRight inflated aWM aContainerSize
     /\ LRect_LineRight region aWM aContainerSize
        = LRect_LineRight inflated aWM aContainerSize)
  /\ (PhysicalFloats aFloat aWM = StyleFloat_Right ->
     LRect_LineLeft region aWM aContainerSize
     = LRect_LineLeft inflated aWM aContainerSize
     /\ LRect_LineRight region aWM aContainerSize
        = LRect_LineLeft inflated aWM aContainerSize).
Proof.
  cbn zeta. unfold CalculateRegionFor. intros Hneg.
  pose proof (LRect_Inflate_IStart_add_0 aFrameRect aMargin) as HI.
  pose proof (IEnd_add_0 (LRect_Inflate aFrameRect aMargin)) as HE.
  destruct (Z.ltb_spec (ISize (LRect_Inflate aFrameRect aMargin)) 0) as [_|];
    [|lia].
  split; intros Hside; rewrite Hside; cbn [StyleFloat_eqb];
    unfold LRect_LineLeft, LRect_LineRight;
    destruct (IsBidiLTR aWM); cbn [Bool.eqb];
    match goal with
    | |- context [if ?c then _ else _] => destruct c
    end;
    unfold IEnd in *; cbn [IStart ISize];
    rewrite ?HE, ?HI; split; reflexivity.
Qed.

Lemma CalculateRegionFor_collapsed_edge_witness :
  let frame := plain_frame 1 StyleFloat_Left in
  let rect := mkLRect 100 0 50 20 in
  let margin := mkLMargin (-40) (-40) 0 0 in
  LRect_LineLeft (CalculateRegionFor horizontal_rtl frame rect margin)
                 horizontal_rtl container1000 = 860
  /\ LRect_LineRight (CalculateRegionFor horizontal_rtl frame rect margin)
                     horizontal_rtl container1000 = 860.
Proof.
  cbn zeta.
  apply (CalculateRegionFor_collapsed_edge horizontal_rtl
           (plain_frame 1 StyleFloat_Left) (mkLRect 100 0 50 20)
           (mkLMargin (-40) (-40) 0 0) container1000).
  - vm_compute. reflexivity.
  - reflexivity.
Defined.

(** ** RemoveTrailingRegions *)

Lemma RemoveTrailingRegions_newLength_app (frameSet : list nsIFrame)
    (pre suf : list FloatInfo) (n : nat) :
  (n <= length pre)%nat ->
  RemoveTrailingRegions_newLength frameSet (pre ++ suf) n
  = RemoveTrailingRegions_newLength frameSet pre n.
Proof.
  induction n as [|n IH]; intros Hn; [reflexivity|].
  cbn [RemoveTrailingRegions_newLength].
  rewrite nth_error_app1 by lia.
  destruct (nth_error pre n); [|reflexivity].
  destruct (negb _); [reflexivity|]. apply IH. lia.
Qed.

Lemma RemoveTrailingRegions_newLength_snoc (frameSet : list nsIFrame)
    (pre : list FloatInfo) (fi : FloatInfo) :
  RemoveTrailingRegions_newLength frameSet (pre ++ [fi]) (length (pre ++ [fi]))
  = if frameSet_Contains frameSet (mFrame fi)
    then RemoveTrailingRegions_newLength frameSet pre (length pre)
    else length (pre ++ [fi]).
Proof.
  rewrite length_app. cbn [length].
  replace (length pre + 1)%nat with (S (length pre)) by lia.
  cbn [RemoveTrailingRegions_newLength].
  rewrite nth_error_app2 by lia. rewrite Nat.sub_diag. cbn [nth_error].
  destruct (frameSet_Contains frameSet (mFrame fi)); cbn [negb]; [|reflexivity].
  now apply RemoveTrailingRegions_newLength_app.
Qed.

(** The split of the registry the truncation loop computes. *)
Lemma RemoveTrailingRegions_newLength_split (frameSet : list nsIFrame)
    (fs : list FloatInfo) :
  exists kept dropped,
    fs = kept ++ dropped
    /\ RemoveTrailingRegions_newLength frameSet fs (length fs) = length kept
    /\ Forall (fun fi => frameSet_Contains frameSet (mFrame fi) = true) dropped
    /\ (forall tail, tailFloat kept = Some tail ->
          frameSet_Contains frameSet (mFrame tail) = false).
Proof.
  induction fs as [|fi pre IH] using rev_ind.
  - exists [], []. repeat split; [constructor|]. intros tail H. discriminate H.
  - rewrite RemoveTrailingRegions_newLength_snoc.
    destruct (frameSet_Contains frameSet (mFrame fi)) eqn:E.
    + destruct IH as (kept & dropped & -> & Hlen & Hall & Htail).
      exists kept, (dropped ++ [fi]). rewrite app_assoc. repeat split.
      * assumption.
      * apply Forall_app. split; [assumption|]. now constructor.
      * assumption.
    + exists (pre ++ [fi]), []. rewrite app_nil_r. repeat split; [constructor|].
      intros tail. rewrite tailFloat_app. now intros [= <-].
Qed.

Lemma firstn_length_app {A : Type} (l1 l2 : list A) :
  firstn (length l1) (l1 ++ l2) = l1.
Proof.
  rewrite firstn_app, Nat.sub_diag, firstn_all. cbn. apply app_nil_r.
Qed.

(** [RemoveTrailingRegions] with a non-empty frame list cuts off exactly the
    longest run of registry entries at the end whose frames all are in the
    list: what it drops is a suffix of frames of the list, the last entry
    it keeps (if any) is a float whose frame is not in the list, and the
    origin, the damage and the break flags stay.  Entries of the list below
    that float are kept. *)
Theorem RemoveTrailingRegions_longest_suffix (m : nsFloatManager)
    (f : nsIFrame) (rest : list nsIFrame) :
  let aFrameList := f :: rest in
  let m' := RemoveTrailingRegions m aFrameList in
  exists dropped,
    mFloats m = mFloats m' ++ dropped
    /\ Forall (fun fi => frameSet_Contains aFrameList (mFrame fi) = true) dropped
    /\ (forall tail, tailFloat (mFloats m') = Some tail ->
          frameSet_Contains aFrameList (mFrame tail) = false)
    /\ m' = set_mFloats m (mFloats m').
Proof.
  cbn zeta. unfold RemoveTrailingRegions.
  destruct (RemoveTrailingRegions_newLength_split (f :: rest) (mFloats m))
    as (kept & dropped & Hfs & Hlen & Hall & Htail).
  assert (Hkept : firstn (length kept) (mFloats m) = kept)
    by (rewrite Hfs; apply firstn_length_app).
  rewrite Hlen, Hkept.
  exists dropped. cbn [set_mFloats mFloats]. repeat split; assumption.
Qed.

Lemma RemoveTrailingRegions_newLength_stays (frameSet : list nsIFrame)
    (fs : list FloatInfo) :
  (forall tail, tailFloat fs = Some tail ->
     frameSet_Contains frameSet (mFrame tail) = false) ->
  RemoveTrailingRegions_newLength frameSet fs (length fs) = length fs.
Proof.
  intros Htail.
  destruct fs as [|fi pre _] using rev_ind; [reflexivity|].
  rewrite RemoveTrailingRegions_newLength_snoc.
  now rewrite (Htail fi) by apply tailFloat_app.
Qed.

(** A second [RemoveTrailingRegions] with the same frame list changes nothing. *)
Theorem RemoveTrailingRegions_idempotent (m : nsFloatManager)
    (aFrameList : list nsIFrame) :
  RemoveTrailingRegions (RemoveTrailingRegions m aFrameList) aFrameList
  = RemoveTrailingRegions m aFrameList.
Proof.
  destruct aFrameList as [|f rest]; [reflexivity|].
  destruct (RemoveTrailingRegions_newLength_split (f :: rest) (mFloats m))
    as (kept & dropped & Hfs & Hlen & Hall & Htail).
  assert (Hkept : firstn (length kept) (mFloats m) = kept)
    by (rewrite Hfs; apply firstn_length_app).
  assert (E : RemoveTrailingRegions m (f :: rest) = set_mFloats m kept).
  { unfold RemoveTrailingRegions. now rewrite Hlen, Hkept. }
  rewrite E. unfold RemoveTrailingRegions. cbn [set_mFloats mFloats].
  rewrite RemoveTrailingRegions_newLength_stays by assumption.
  now rewrite firstn_all.
Qed.

Lemma FloatInfo_new_mFrame (aFrame : nsIFrame) (aLineLeft aBlockStart : Z)
    (aMarginRect : LogicalRect) (aWM : WritingMode) (aContainerSize : nsSize) :
  mFrame (FloatInfo_new aFrame aLineLeft aBlockStart aMarginRect aWM aContainerSize)
  = aFrame.
Proof.
  unfold FloatInfo_new.
  repeat match goal with
         | |- context [match ?c with _ => _ end] => destruct c
         end; reflexivity.
Qed.

Lemma AddFloat_mFloats_frame (m : nsFloatManager) (aFloatFrame : nsIFrame)
    (aMarginRect : LogicalRect) (aWM : WritingMode) (aContainerSize : nsSize) :
  exists info,
    mFloats (AddFloat m aFloatFrame aMarginRect aWM aContainerSize)
    = mFloats m ++ [info]
    /\ mFrame info = aFloatFrame.
Proof.
  unfold AddFloat.
  destruct (tailFloat (mFloats m)); cbn zeta;
    destruct (StyleFloat_eqb _ _); cbn [mFloats mFrame];
    eexists; (split; [reflexivity|]); cbn [mFrame];
    apply FloatInfo_new_mFrame.
Qed.

Lemma frameSet_Contains_self (f : nsIFrame) (rest : list nsIFrame) :
  frameSet_Contains (f :: rest) f = true.
Proof.
  unfold frameSet_Contains. cbn [existsb]. now rewrite Nat.eqb_refl.
Qed.

(** [RemoveTrailingRegions] undoes the [AddFloat]s of the frames it is given:
    when the registry's last float is not among those frames (or the
    registry is empty), adding floats for frames of the list and then
    removing the list's trailing regions gives back the manager. *)
Theorem AddFloat_RemoveTrailingRegions (m : nsFloatManager)
    (aFloatFrame : nsIFrame) (aMarginRect : LogicalRect) (aWM : WritingMode)
    (aContainerSize : nsSize) (aFrameList : list nsIFrame) :
  frameSet_Contains aFrameList aFloatFrame = true ->
  (forall tail, tailFloat (mFloats m) = Some tail ->
     frameSet_Contains aFrameList (mFrame tail) = false) ->
  RemoveTrailingRegions
    (AddFloat m aFloatFrame aMarginRect aWM aContainerSize) aFrameList
  = m.
Proof.
  intros Hin Htail.
  destruct (AddFloat_mFloats_frame m aFloatFrame aMarginRect aWM aContainerSize)
    as (info & Hfs & Hframe).
  unfold RemoveTrailingRegions.
  destruct aFrameList as [|f rest]; [discriminate Hin|].
  rewrite Hfs, RemoveTrailingRegions_newLength_snoc, Hframe, Hin.
  rewrite RemoveTrailingRegions_newLength_stays by assumption.
  rewrite firstn_length_app.
  unfold AddFloat, set_mFloats.
  destruct (tailFloat (mFloats m)); cbn zeta;
    destruct (StyleFloat_eqb _ _); now destruct m.
Qed.

Lemma AddFloat_RemoveTrailingRegions_witness :
  RemoveTrailingRegions left_and_right_float [plain_frame 2 StyleFloat_Right]
  = one_left_float.
Proof.
  apply (AddFloat_RemoveTrailingRegions one_left_float
           (plain_frame 2 StyleFloat_Right) (mkLRect 800 0 200 150)
           horizontal_ltr container1000 [plain_frame 2 StyleFloat_Right]).
  - reflexivity.
  - intros tail H. vm_compute in H. injection H as <-. reflexivity.
Defined.

(** ** The cumulative block ends bound every earlier float *)

Lemma summaries_monotone_le (fs : list FloatInfo) (i j : nat) (fi fj : FloatInfo) :
  summaries_monotone fs -> (i <= j)%nat ->
  nth_error fs i = Some fi -> nth_error fs j = Some fj ->
  mLeftBEnd fi <= mLeftBEnd fj /\ mRightBEnd fi <= mRightBEnd fj.
Proof.
  intros Hm Hij Hi. revert fj.
  induction Hij as [|j Hij IH]; intros fj Hj.
  - rewrite Hi in Hj. injection Hj as <-. lia.
  - assert (Hlt : (j < length fs)%nat).
    { assert (Hs : nth_error fs (S j) <> None) by congruence.
      apply nth_error_Some in Hs. lia. }
    destruct (nth_error fs j) as [fk|] eqn:Ek;
      [|apply nth_error_None in Ek; lia].
    specialize (IH fk eq_refl).
    assert (H := Hm (S j) fk fj).
    replace (S j - 1)%nat with j in H by lia.
    specialize (H ltac:(lia) Ek Hj). lia.
Qed.

Lemma summaries_cover_firstn (n : nat) (fs : list FloatInfo) :
  summaries_cover fs -> summaries_cover (firstn n fs).
Proof.
  unfold summaries_cover. rewrite !Forall_forall.
  intros H fi Hin. apply H. eapply In_firstn_In; eauto.
Qed.

Lemma AddFloat_cover (m : nsFloatManager) (aFloatFrame : nsIFrame)
    (aMarginRect : LogicalRect) (aWM : WritingMode) (aContainerSize : nsSize) :
  summaries_cover (mFloats m) ->
  summaries_cover (mFloats (AddFloat m aFloatFrame aMarginRect aWM aContainerSize)).
Proof.
  unfold summaries_cover, AddFloat. intros H.
  destruct (tailFloat (mFloats m)); cbn zeta;
    destruct (StyleFloat_eqb _ _); cbn [mFloats];
    (apply Forall_app; split; [assumption|]); constructor; try constructor;
    unfold FI_BEnd; cbn [mRect mLeftBEnd mRightBEnd];
    match goal with |- context [if ?a >? ?b then _ else _] =>
      destruct (Z.gtb_spec a b) end; lia.
Qed.

Lemma reachable_summaries (m : nsFloatManager) :
  reachable m -> summaries_monotone (mFloats m) /\ summaries_cover (mFloats m).
Proof.
  induction 1 as [|m op _ [IHm IHc]|m fl _ [IHm IHc]|m s m' _ [IHm IHc] Hp].
  - split; [apply summaries_monotone_nil | constructor].
  - split; [now apply applyOp_summaries|].
    destruct op; cbn [applyOp]; trivial. now apply AddFloat_cover.
  - split; [now apply RemoveTrailingRegions_summaries|].
    unfold RemoveTrailingRegions. destruct fl; trivial.
    cbn [set_mFloats mFloats]. now apply summaries_cover_firstn.
  - split; [eapply PopState_summaries; eauto|].
    unfold PopState in Hp.
    destruct (length (mFloats m) <? s_mFloatInfoCount s)%nat; [discriminate|].
    injection Hp as <-. cbn [mFloats]. now apply summaries_cover_firstn.
Qed.

Lemma FloatInfo_BEnd_le (fi : FloatInfo) (aShapeType : ShapeType) :
  FloatInfo_BEnd fi aShapeType <= FI_BEnd fi.
Proof.
  unfold FloatInfo_BEnd. destruct aShapeType; [lia|].
  destruct (mShapeInfo fi); lia.
Qed.

Lemma summaries_bound (fs : list FloatInfo) (i j : nat) (fi fj : FloatInfo)
    (aShapeType : ShapeType) :
  summaries_monotone fs -> summaries_cover fs -> (i <= j)%nat ->
  nth_error fs i = Some fi -> nth_error fs j = Some fj ->
  FloatInfo_BEnd fi aShapeType <= Z.max (mLeftBEnd fj) (mRightBEnd fj).
Proof.
  intros Hm Hc Hij Hi Hj.
  pose proof (summaries_monotone_le fs i j fi fj Hm Hij Hi Hj).
  pose proof (FloatInfo_BEnd_le fi aShapeType).
  unfold summaries_cover in Hc. rewrite Forall_forall in Hc.
  specialize (Hc fi (nth_error_In _ _ Hi)). lia.
Qed.

(** In every manager state a driver can reach, the cumulative block ends of
    an entry bound the block end of every float at or before it, for the
    margin box and for the shape: no float stored at or below index j ends
    after the larger of entry j's two summaries. *)
Theorem summaries_bound_block_ends (m : nsFloatManager) (i j : nat)
    (fi fj : FloatInfo) (aShapeType : ShapeType) :
  reachable m -> (i <= j)%nat ->
  nth_error (mFloats m) i = Some fi -> nth_error (mFloats m) j = Some fj ->
  FI_BEnd fi <= Z.max (mLeftBEnd fj) (mRightBEnd fj)
  /\ FloatInfo_BEnd fi aShapeType <= Z.max (mLeftBEnd fj) (mRightBEnd fj).
Proof.
  intros Hr Hij Hi Hj. destruct (reachable_summaries m Hr) as [Hm Hc].
  split.
  - exact (summaries_bound _ i j fi fj Margin Hm Hc Hij Hi Hj).
  - exact (summaries_bound _ i j fi fj aShapeType Hm Hc Hij Hi Hj).
Qed.

(** The early return of [GetFlowArea] is sound in every reachable state: when
    the call returns before the walk, every float in its scope ends at or
    before the band's block start, so none of them could narrow the band. *)
Theorem GetFlowArea_quick_sound (m : nsFloatManager) (aBCoord : Z)
    (aState : option SavedState) (aShapeType : ShapeType) (fi : FloatInfo) :
  reachable m ->
  GetFlowArea_quick m aBCoord aState = true ->
  In fi (GetFlowArea_scope m aState) ->
  FloatInfo_BEnd fi aShapeType <= GetFlowArea_blockStart m aBCoord.
Proof.
  intros Hr Hq Hin. destruct (reachable_summaries m Hr) as [Hm Hc].
  unfold GetFlowArea_quick, GetFlowArea_scope in *.
  destruct (GetFlowArea_floatCount m aState) as [|k]; [destruct Hin|].
  destruct (nth_error (mFloats m) k) as [tail|] eqn:Ek; [|discriminate].
  apply andb_prop in Hq as [Hl Hrt].
  apply Z.leb_le in Hl, Hrt.
  apply In_nth_error in Hin as [i Hi].
  assert (Hlt : (i < S k)%nat).
  { destruct (Nat.lt_ge_cases i (S k)) as [|Hge]; trivial.
    rewrite nth_error_firstn in Hi.
    replace (i <? S k)%nat with false in Hi by (symmetry; apply Nat.ltb_ge; lia).
    discriminate. }
  rewrite nth_error_firstn in Hi.
  replace (i <? S k)%nat with true in Hi by (symmetry; apply Nat.ltb_lt; lia).
  pose proof (summaries_bound _ i k fi tail aShapeType Hm Hc ltac:(lia) Hi Ek).
  lia.
Qed.

(** ** Queries against a checkpoint *)

(** A query with a checkpoint sees the registry as truncated to the
    checkpoint's float count, and nothing else of the checkpoint: it is the
    query without a checkpoint on the manager with the later floats cut
    off and the present origin. *)
Theorem GetFlowArea_checkpoint_truncates (m : nsFloatManager) (aWM : WritingMode)
    (aBCoord aBSize : Z) (aBandInfoType : BandInfoType) (aShapeType : ShapeType)
    (aContentArea : LogicalRect) (aState : SavedState) (aContainerSize : nsSize) :
  (s_mFloatInfoCount aState <= length (mFloats m))%nat ->
  GetFlowArea m aWM aBCoord aBSize aBandInfoType aShapeType aContentArea
              (Some aState) aContainerSize
  = GetFlowArea (set_mFloats m (firstn (s_mFloatInfoCount aState) (mFloats m)))
                aWM aBCoord aBSize aBandInfoType aShapeType aContentArea
                None aContainerSize.
Proof.
  intros Hle.
  unfold GetFlowArea, GetFlowArea_band, GetFlowArea_floatCount,
    GetFlowArea_blockStart, GetFlowArea_init.
  cbn [set_mFloats mFloats mLineLeft mBlockStart].
  rewrite length_firstn, Nat.min_l by assumption.
  destruct (s_mFloatInfoCount aState) as [|k] eqn:Ec; [reflexivity|].
  rewrite nth_error_firstn.
  replace (k <? S k)%nat with true by (symmetry; apply Nat.ltb_lt; lia).
  rewrite (firstn_all2 (n := S k) (firstn (S k) (mFloats m)))
    by (rewrite length_firstn; lia).
  reflexivity.
Qed.

Lemma summaries_bound_block_ends_witness :
  FI_BEnd (float_at left_and_right_float 0)
  <= Z.max (mLeftBEnd (float_at left_and_right_float 1))
           (mRightBEnd (float_at left_and_right_float 1))
  /\ FloatInfo_BEnd (float_at left_and_right_float 0) ShapeOutside
     <= Z.max (mLeftBEnd (float_at left_and_right_float 1))
              (mRightBEnd (float_at left_and_right_float 1)).
Proof.
  apply (summaries_bound_block_ends left_and_right_float 0 1).
  - apply left_and_right_float_reachable.
  - lia.
  - reflexivity.
  - reflexivity.
Defined.

Lemma GetFlowArea_quick_sound_witness :
  FloatInfo_BEnd (float_at left_and_right_float 0) ShapeOutside
  <= GetFlowArea_blockStart left_and_right_float 150.
Proof.
  apply (GetFlowArea_quick_sound left_and_right_float 150 None).
  - apply left_and_right_float_reachable.
  - reflexivity.
  - left. reflexivity.
Defined.

Lemma GetFlowArea_checkpoint_truncates_witness :
  GetFlowArea left_and_right_float horizontal_ltr 20 30 WidthWithinHeight Margin
              content_0_1000 (Some (PushState one_left_float)) container1000
  = GetFlowArea
      (set_mFloats left_and_right_float
         (firstn (s_mFloatInfoCount (PushState one_left_float))
                 (mFloats left_and_right_float)))
      horizontal_ltr 20 30 WidthWithinHeight Margin content_0_1000 None
      container1000.
Proof.
  apply (GetFlowArea_checkpoint_truncates left_and_right_float horizontal_ltr
           20 30 WidthWithinHeight Margin content_0_1000
           (PushState one_left_float) container1000).
  cbn. lia.
Defined.

(** ** What the walk does to the band *)

Lemma GetFlowArea_float_narrowed (aWM : WritingMode) (aBandInfoType : BandInfoType)
    (aShapeType : ShapeType) (blockStart : Z) (fi : FloatInfo)
    (st0 st : BandState) :
  narrowed_ok st0 st ->
  narrowed_ok st0 (GetFlowArea_float aWM aBandInfoType aShapeType blockStart fi st).
Proof.
  unfold narrowed_ok, GetFlowArea_float. intros (HL & HR & Hh).
  destruct (_ && _).
  - destruct (_ <? _); cbn [lineLeft lineRight haveFloats]; tauto.
  - destruct (_ && _); [|tauto].
    set (bandBlockEnd := if isBandFromPoint aBandInfoType then _ else _).
    destruct (StyleFloat_eqb _ _).
    + destruct (Z.gtb_spec (FloatInfo_LineRight fi aShapeType blockStart bandBlockEnd)
                           (lineLeft st));
        destruct (_ && _); cbn [lineLeft lineRight haveFloats];
        try tauto; (split; [lia|split; [lia|]]); split; intros; (lia || trivial).
    + destruct (Z.ltb_spec (FloatInfo_LineLeft fi aShapeType blockStart bandBlockEnd)
                           (lineRight st));
        destruct (_ && _); cbn [lineLeft lineRight haveFloats];
        try tauto; (split; [lia|split; [lia|]]); split; intros; (lia || trivial).
Qed.

Lemma GetFlowArea_band_narrowed (m : nsFloatManager) (aWM : WritingMode)
    (aBCoord aBSize : Z) (aBandInfoType : BandInfoType) (aShapeType : ShapeType)
    (aContentArea : LogicalRect) (aState : option SavedState)
    (aContainerSize : nsSize) :
  narrowed_ok
    (GetFlowArea_init m aWM aBCoord aBSize aContentArea aContainerSize)
    (GetFlowArea_band m aWM aBCoord aBSize aBandInfoType aShapeType
                      aContentArea aState aContainerSize).
Proof.
  unfold GetFlowArea_band. apply GetFlowArea_walk_invariant.
  - intros fi st' _ Hst. now apply GetFlowArea_float_narrowed.
  - unfold narrowed_ok. cbn [GetFlowArea_init haveFloats].
    split; [lia|split; [lia|]]. split; [discriminate|lia].
Qed.

(** [GetFlowArea] reports floats exactly when the band it returns is narrower
    than the content area: with (L0, R0) the translated content-area edges
    and (L, R) the band edges of the call, [mHasFloats] holds if and only if
    [L0 < L] or [R < R0]; and the edges never move outwards.  A float that
    intersects the band without reaching past the content-area edge is not
    reported. *)
Theorem GetFlowArea_mHasFloats_iff_narrowed
    (m : nsFloatManager) (aWM : WritingMode) (aBCoord aBSize : Z)
    (aBandInfoType : BandInfoType) (aShapeType : ShapeType)
    (aContentArea : LogicalRect) (aState : option SavedState)
    (aContainerSize : nsSize) (r : nsFlowAreaRect) :
  GetFlowArea m aWM aBCoord aBSize aBandInfoType aShapeType aContentArea aState
              aContainerSize = Some r ->
  let st0 := GetFlowArea_init m aWM aBCoord aBSize aContentArea aContainerSize in
  let L := fst (GetFlowArea_edges m aWM aBCoord aBSize aBandInfoType aShapeType
                                  aContentArea aState aContainerSize) in
  let R := snd (GetFlowArea_edges m aWM aBCoord aBSize aBandInfoType aShapeType
                                  aContentArea aState aContainerSize) in
  lineLeft st0 <= L /\ R <= lineRight st0
  /\ (mHasFloats r = true <-> lineLeft st0 < L \/ R < lineRight st0).
Proof.
  intros Hr. cbn zeta. unfold GetFlowArea_edges.
  apply GetFlowArea_cases in Hr as [[Hq ->]|[Hq Hr]]; rewrite Hq;
    cbn [fst snd mHasFloats].
  - split; [lia|split; [lia|]]. split; [discriminate|lia].
  - cbn zeta in Hr. subst r. cbn [mHasFloats].
    apply GetFlowArea_band_narrowed.
Qed.

Lemma GetFlowArea_float_blockEnd_lowered (aWM : WritingMode)
    (aBandInfoType : BandInfoType) (aShapeType : ShapeType) (blockStart be0 : Z)
    (fi : FloatInfo) (st : BandState) :
  blockEnd_lowered aBandInfoType be0 st ->
  blockEnd_lowered aBandInfoType be0
    (GetFlowArea_float aWM aBandInfoType aShapeType blockStart fi st).
Proof.
  unfold blockEnd_lowered, GetFlowArea_float. intros [Hle Hw].
  destruct aBandInfoType; cbn [isBandFromPoint];
    rewrite ?andb_true_r, ?andb_false_r.
  - destruct (Z.ltb_spec blockStart (FloatInfo_BStart fi aShapeType)).
    + destruct (Z.ltb_spec (FloatInfo_BStart fi aShapeType) (blockEnd st));
        cbn [blockEnd]; split; (lia || discriminate).
    + destruct (_ && _); [|split; (lia || discriminate)].
      destruct (Z.ltb_spec (FloatInfo_BEnd fi aShapeType) (blockEnd st));
        destruct (StyleFloat_eqb _ _);
        match goal with |- context [if ?c then mkBand _ _ _ _ else st] =>
          destruct c end;
        cbn [blockEnd]; split; (lia || discriminate).
  - specialize (Hw eq_refl).
    destruct (_ && _); [|split; [lia|trivial]].
    destruct (StyleFloat_eqb _ _);
      match goal with |- context [if ?c then mkBand _ _ _ _ else st] =>
        destruct c end;
      cbn [blockEnd]; split; (lia || trivial).
Qed.

Lemma GetFlowArea_band_blockEnd_lowered (m : nsFloatManager) (aWM : WritingMode)
    (aBCoord aBSize : Z) (aBandInfoType : BandInfoType) (aShapeType : ShapeType)
    (aContentArea : LogicalRect) (aState : option SavedState)
    (aContainerSize : nsSize) :
  blockEnd_lowered aBandInfoType
    (blockEnd (GetFlowArea_init m aWM aBCoord aBSize aContentArea aContainerSize))
    (GetFlowArea_band m aWM aBCoord aBSize aBandInfoType aShapeType
                      aContentArea aState aContainerSize).
Proof.
  unfold GetFlowArea_band. apply GetFlowArea_walk_invariant.
  - intros fi st' _ Hst. now apply GetFlowArea_float_blockEnd_lowered.
  - split; [lia|reflexivity].
Qed.

(** The block extent of the result: for a band whose size and block end are
    below the sentinel (coordinates away from the 32-bit limits) the returned
    block
    start is the requested one; a WidthWithinHeight call returns the
    requested block size, and a BandFromPoint call returns at most the
    requested block size. *)
Theorem GetFlowArea_block_extent
    (m : nsFloatManager) (aWM : WritingMode) (aBCoord aBSize : Z)
    (aBandInfoType : BandInfoType) (aShapeType : ShapeType)
    (aContentArea : LogicalRect) (aState : option SavedState)
    (aContainerSize : nsSize) (r : nsFlowAreaRect) :
  safe_coord aBCoord -> safe_coord (mBlockStart m) ->
  0 <= aBSize < nscoord_MAX ->
  aBCoord + mBlockStart m + aBSize < nscoord_MAX ->
  GetFlowArea m aWM aBCoord aBSize aBandInfoType aShapeType aContentArea aState
              aContainerSize = Some r ->
  BStartL (fa_mRect r) = aBCoord
  /\ (aBandInfoType = WidthWithinHeight -> BSizeL (fa_mRect r) = aBSize)
  /\ (aBandInfoType = BandFromPoint -> BSizeL (fa_mRect r) <= aBSize).
Proof.
  intros Hb Ho Hs Hend Hr.
  apply GetFlowArea_cases in Hr as [[Hq ->]|[Hq Hr]].
  - cbn [fa_mRect BStartL BSizeL]. repeat split; intros; lia.
  - cbn zeta in Hr. subst r. cbn [fa_mRect BStartL BSizeL].
    pose proof (GetFlowArea_band_blockEnd_lowered m aWM aBCoord aBSize
                  aBandInfoType aShapeType aContentArea aState aContainerSize)
      as [Hle Hw].
    pose proof (GetFlowArea_band_blockEnd m aWM aBCoord aBSize aBandInfoType
                  aShapeType aContentArea aState aContainerSize) as [_ Hge].
    set (st := GetFlowArea_band _ _ _ _ _ _ _ _ _) in *.
    assert (Hbs : GetFlowArea_blockStart m aBCoord = aBCoord + mBlockStart m).
    { unfold GetFlowArea_blockStart. unwrap.
      destruct (Z.ltb_spec (aBCoord + mBlockStart m) nscoord_MIN); [|reflexivity].
      unfold safe_coord, nscoord_MIN, nscoord_MAX in *. lia. }
    assert (Hbe : blockEnd (GetFlowArea_init m aWM aBCoord aBSize aContentArea
                              aContainerSize)
                  = aBCoord + mBlockStart m + aBSize).
    { unfold GetFlowArea_init. cbn [blockEnd]. rewrite Hbs.
      destruct (Z.eqb_spec aBSize nscoord_MAX); [lia|].
      unwrap. zcases; lia. }
    rewrite Hbe in *. rewrite Hbs in *.
    destruct (Z.eqb_spec (blockEnd st) nscoord_MAX); [lia|].
    destruct Hge as [Hge|]; [|lia].
    split; [unwrap; lia|].
    split; intros Ht.
    + rewrite (Hw Ht). unwrap. lia.
    + unwrap. lia.
Qed.

Lemma GetFlowArea_mHasFloats_iff_narrowed_witness :
  let st0 := GetFlowArea_init left_and_right_float horizontal_ltr 20 30
                              content_0_1000 container1000 in
  let L := fst (GetFlowArea_edges left_and_right_float horizontal_ltr 20 30
                  WidthWithinHeight Margin content_0_1000 None container1000) in
  let R := snd (GetFlowArea_edges left_and_right_float horizontal_ltr 20 30
                  WidthWithinHeight Margin content_0_1000 None container1000) in
  lineLeft st0 <= L /\ R <= lineRight st0
  /\ (mHasFloats (mkFlowArea (mkLRect 200 20 600 30) true) = true
      <-> lineLeft st0 < L \/ R < lineRight st0).
Proof.
  exact (GetFlowArea_mHasFloats_iff_narrowed left_and_right_float horizontal_ltr
           20 30 WidthWithinHeight Margin content_0_1000 None container1000
           (mkFlowArea (mkLRect 200 20 600 30) true) eq_refl).
Defined.

Lemma GetFlowArea_block_extent_witness :
  BStartL (fa_mRect (mkFlowArea (mkLRect 200 20 600 80) true)) = 20
  /\ (BandFromPoint = WidthWithinHeight ->
      BSizeL (fa_mRect (mkFlowArea (mkLRect 200 20 600 80) true)) = 200)
  /\ (BandFromPoint = BandFromPoint ->
      BSizeL (fa_mRect (mkFlowArea (mkLRect 200 20 600 80) true)) <= 200).
Proof.
  apply (GetFlowArea_block_extent left_and_right_float horizontal_ltr 20 200
           BandFromPoint Margin content_0_1000 None container1000
           (mkFlowArea (mkLRect 200 20 600 80) true)).
  - unfold safe_coord. lia.
  - unfold safe_coord. cbn. lia.
  - unfold nscoord_MAX. lia.
  - unfold nscoord_MAX. cbn. lia.
  - reflexivity.
Defined.

(** ** GetLowestFloatTop and ClearFloats *)

(** After [AddFloat], [GetLowestFloatTop] is the block start of the margin
    rect just added, in the caller's frame, whether or not the translation
    by the block origin wraps; with a float pushed past the break it is the
    maximum sentinel.  It reads the last float only. *)
Theorem GetLowestFloatTop_AddFloat (m : nsFloatManager) (aFloatFrame : nsIFrame)
    (aMarginRect : LogicalRect) (aWM : WritingMode) (aContainerSize : nsSize) :
  int32_ok (BStartL aMarginRect) ->
  GetLowestFloatTop (AddFloat m aFloatFrame aMarginRect aWM aContainerSize)
  = if mPushedLeftFloatPastBreak m || mPushedRightFloatPastBreak m
    then nscoord_MAX else BStartL aMarginRect.
Proof.
  intros Hok. unfold GetLowestFloatTop.
  assert (Hflags :
    forall m', m' = AddFloat m aFloatFrame aMarginRect aWM aContainerSize ->
      mPushedLeftFloatPastBreak m' = mPushedLeftFloatPastBreak m
      /\ mPushedRightFloatPastBreak m' = mPushedRightFloatPastBreak m
      /\ mBlockStart m' = mBlockStart m
      /\ exists info, tailFloat (mFloats m') = Some info
           /\ FI_BStart info = BStartL aMarginRect .+ mBlockStart m).
  { intros m' ->. unfold AddFloat.
    destruct (tailFloat (mFloats m)); cbn zeta;
      destruct (StyleFloat_eqb _ _);
      cbn [mPushedLeftFloatPastBreak mPushedRightFloatPastBreak mBlockStart mFloats];
      repeat split; eexists; (split; [apply tailFloat_app|]);
      unfold FI_BStart, FloatInfo_new; cbn [mRect];
      repeat match goal with
             | |- context [match ?c with _ => _ end] => destruct c
             end; reflexivity. }
  destruct (Hflags _ eq_refl) as (-> & -> & -> & info & -> & ->).
  destruct (_ || _); [reflexivity|].
  now apply nscoord_add_sub_cancel.
Qed.

Lemma GetLowestFloatTop_AddFloat_witness :
  GetLowestFloatTop left_and_right_float = 0.
Proof.
  apply (GetLowestFloatTop_AddFloat one_left_float (plain_frame 2 StyleFloat_Right)
           (mkLRect 800 0 200 150) horizontal_ltr container1000).
  unfold int32_ok. cbn. lia.
Defined.

Lemma ClearFloats_not_sentinel (m : nsFloatManager) (aBCoord : Z)
    (aBreakType : StyleClear) (aFlags : Z) (tail : FloatInfo) :
  (Z.land aFlags DONT_CLEAR_PUSHED_FLOATS =? 0) && ClearContinues m aBreakType
  = false ->
  tailFloat (mFloats m) = Some tail ->
  ClearFloats m aBCoord aBreakType aFlags
  = Z.max (aBCoord .+ mBlockStart m)
          (match aBreakType with
           | StyleClear_Both => Z.max (mLeftBEnd tail) (mRightBEnd tail)
           | StyleClear_Left => mLeftBEnd tail
           | StyleClear_Right => mRightBEnd tail
           | _ => aBCoord .+ mBlockStart m
           end) .- mBlockStart m.
Proof.
  intros E Ht. unfold ClearFloats. rewrite E, Ht.
  destruct aBreakType; f_equal; lia.
Qed.

(** [ClearFloats] never moves the coordinate up and is idempotent: clearing
    from the coordinate it returned returns that coordinate again
    (arguments away from the 32-bit limits). *)
Theorem ClearFloats_idempotent (m : nsFloatManager) (aBCoord : Z)
    (aBreakType : StyleClear) (aFlags : Z) :
  clear_args_ok m aBCoord ->
  aBCoord <= ClearFloats m aBCoord aBreakType aFlags
  /\ ClearFloats m (ClearFloats m aBCoord aBreakType aFlags) aBreakType aFlags
     = ClearFloats m aBCoord aBreakType aFlags.
Proof.
  intros (Hb & Ho & Ht).
  destruct ((Z.land aFlags DONT_CLEAR_PUSHED_FLOATS =? 0)
            && ClearContinues m aBreakType) eqn:E.
  - unfold ClearFloats. rewrite E.
    unfold safe_coord, nscoord_MAX in *. split; [lia|reflexivity].
  - destruct (tailFloat (mFloats m)) as [tail|] eqn:Et.
    + rewrite !(ClearFloats_not_sentinel m _ aBreakType aFlags tail E Et).
      destruct (Ht tail eq_refl) as [Hl Hr].
      destruct aBreakType; unwrap; split; lia.
    + unfold ClearFloats. rewrite E, Et. split; [lia|reflexivity].
Qed.


Lemma left_and_right_float_clear_args_ok : clear_args_ok left_and_right_float 20.
Proof.
  unfold clear_args_ok, safe_coord. repeat split; try (cbn; lia);
    vm_compute in H; injection H as <-; vm_compute; discriminate.
Defined.

Lemma ClearFloats_idempotent_witness :
  20 <= ClearFloats left_and_right_float 20 StyleClear_Left 0
  /\ ClearFloats left_and_right_float
       (ClearFloats left_and_right_float 20 StyleClear_Left 0) StyleClear_Left 0
     = ClearFloats left_and_right_float 20 StyleClear_Left 0.
Proof.
  apply (ClearFloats_idempotent left_and_right_float 20 StyleClear_Left 0).
  apply left_and_right_float_clear_args_ok.
Defined.


(** ** ImageShapeInfo: the binary search and the scan *)

Lemma MinIntervalIndex_loop_spec (ivs : list nsRect) (aTargetY : Z) :
  intervals_ascending ivs ->
  forall (fuel startIdx endIdx : nat),
    (endIdx - startIdx < fuel)%nat ->
    (startIdx <= endIdx <= length ivs)%nat ->
    (forall i a, (i < startIdx)%nat -> nth_error ivs i = Some a ->
                 YMost a <= aTargetY) ->
    (forall i a, (endIdx <= i)%nat -> nth_error ivs i = Some a ->
                 aTargetY < y a) ->
    let k := MinIntervalIndex_loop fuel ivs aTargetY startIdx endIdx in
    (k <= length ivs)%nat
    /\ (forall i a, (i < k)%nat -> nth_error ivs i = Some a -> YMost a <= aTargetY)
    /\ (forall i a, (k <= i)%nat -> nth_error ivs i = Some a -> aTargetY < YMost a).
Proof.
  intros [Hpos Hasc]. rewrite Forall_forall in Hpos.
  induction fuel as [|fuel IH]; intros startIdx endIdx Hf Hse Hlo Hhi; [lia|].
  cbn [MinIntervalIndex_loop].
  destruct (Nat.ltb_spec startIdx endIdx) as [Hlt|Hge].
  - set (midIdx := (startIdx + (endIdx - startIdx) / 2)%nat).
    assert (Hhalf : ((endIdx - startIdx) / 2 < endIdx - startIdx)%nat)
      by (apply Nat.div_lt; lia).
    assert (Hmid : (startIdx <= midIdx < endIdx)%nat) by (unfold midIdx; lia).
    set (mid := nth midIdx ivs (mkRect 0 0 0 0)).
    assert (Emid : nth_error ivs midIdx = Some mid)
      by (apply nth_error_nth'; lia).
    pose proof (Hpos mid (nth_error_In _ _ Emid)) as Hmpos.
    unfold ContainsY.
    destruct (Z.leb_spec (y mid) aTargetY) as [Hy|Hy];
      [destruct (Z.ltb_spec aTargetY (YMost mid)) as [Hym|Hym]|]; cbn [andb].
    + (* found *)
      cbn zeta. split; [lia|]. split; intros i a Hi Ha.
      * pose proof (Hasc i midIdx a mid Hi Ha Emid). lia.
      * destruct (Nat.eq_dec i midIdx) as [->|Hne].
        -- rewrite Emid in Ha. injection Ha as <-. lia.
        -- pose proof (Hasc midIdx i mid a ltac:(lia) Emid Ha).
           pose proof (Hpos a (nth_error_In _ _ Ha)). lia.
    + (* the interval at midIdx ends at or before the target *)
      destruct (Z.ltb_spec (y mid) aTargetY) as [_|]; [|lia].
      apply IH; try lia.
      * intros i a Hi Ha.
        destruct (Nat.eq_dec i midIdx) as [->|Hne].
        -- rewrite Emid in Ha. injection Ha as <-. lia.
        -- pose proof (Hasc i midIdx a mid ltac:(lia) Ha Emid). lia.
      * assumption.
    + (* the interval at midIdx starts after the target *)
      destruct (Z.ltb_spec (y mid) aTargetY) as [|_]; [lia|].
      apply IH; try lia.
      * assumption.
      * intros i a Hi Ha.
        destruct (Nat.eq_dec i midIdx) as [->|Hne].
        -- rewrite Emid in Ha. injection Ha as <-. lia.
        -- pose proof (Hasc midIdx i mid a ltac:(lia) Emid Ha). lia.
  - cbn zeta. split; [lia|]. split; intros i a Hi Ha.
    + apply (Hlo i a); [lia|assumption].
    + pose proof (Hhi i a ltac:(lia) Ha).
      pose proof (Hpos a (nth_error_In _ _ Ha)). lia.
Qed.

Lemma MinIntervalIndexContainingY_split (ivs : list nsRect) (aTargetY : Z) :
  intervals_ascending ivs ->
  let k := MinIntervalIndexContainingY ivs aTargetY in
  (k <= length ivs)%nat
  /\ (forall i a, (i < k)%nat -> nth_error ivs i = Some a -> YMost a <= aTargetY)
  /\ (forall i a, (k <= i)%nat -> nth_error ivs i = Some a -> aTargetY < YMost a).
Proof.
  intros Hasc. unfold MinIntervalIndexContainingY.
  apply MinIntervalIndex_loop_spec; trivial; try lia.
  intros i a Hi Ha.
  assert (Hs : nth_error ivs i <> None) by congruence.
  apply nth_error_Some in Hs. lia.
Qed.

(** On intervals in ascending block order, [MinIntervalIndexContainingY]
    returns the index of the first interval that ends after the target:
    every interval before it ends at or before the target, every interval
    from it on ends after the target.  When no interval contains the target
    this is the index of the first interval below the target, which is the
    number of intervals only when there is none. *)
Theorem MinIntervalIndexContainingY_first_beyond (ivs : list nsRect)
    (aTargetY : Z) :
  intervals_ascending ivs ->
  let k := MinIntervalIndexContainingY ivs aTargetY in
  (k <= length ivs)%nat
  /\ (forall i a, (i < k)%nat -> nth_error ivs i = Some a -> YMost a <= aTargetY)
  /\ (forall i a, (k <= i)%nat -> nth_error ivs i = Some a -> aTargetY < YMost a).
Proof.
  intros Hasc. unfold MinIntervalIndexContainingY.
  apply MinIntervalIndex_loop_spec; trivial; try lia.
  intros i a Hi Ha.
  assert (Hs : nth_error ivs i <> None) by congruence.
  apply nth_error_Some in Hs. lia.
Qed.

Lemma filter_none {A : Type} (f : A -> bool) (l : list A) :
  (forall a, In a l -> f a = false) -> filter f l = [].
Proof.
  induction l as [|a l IH]; intros H; [reflexivity|].
  cbn [filter]. rewrite (H a (or_introl eq_refl)).
  apply IH. intros b Hb. apply H. now right.
Qed.

Lemma LineEdge_scan_filter (aBEnd : Z) (aLeft : bool) (ivs : list nsRect) :
  (forall i j a b, (i < j)%nat -> nth_error ivs i = Some a ->
                   nth_error ivs j = Some b -> y a <= y b) ->
  forall lineEdge,
    LineEdge_scan ivs aBEnd aLeft lineEdge
    = fold_left (LineEdge_update aLeft)
                (filter (fun iv => y iv <=? aBEnd) ivs) lineEdge.
Proof.
  induction ivs as [|iv rest IH]; intros Hasc lineEdge; [reflexivity|].
  cbn [LineEdge_scan filter].
  destruct (Z.gtb_spec (y iv) aBEnd) as [Hgt|Hle].
  - replace (y iv <=? aBEnd) with false by (symmetry; apply Z.leb_gt; lia).
    assert (Hnone : filter (fun iv0 => y iv0 <=? aBEnd) rest = []).
    { apply filter_none. intros b Hb.
      apply In_nth_error in Hb as [j Hj].
      pose proof (Hasc O (S j) iv b ltac:(lia) eq_refl Hj).
      apply Z.leb_gt. lia. }
    now rewrite Hnone.
  - replace (y iv <=? aBEnd) with true by (symmetry; apply Z.leb_le; lia).
    cbn [fold_left]. rewrite IH.
    + reflexivity.
    + intros i j a b Hij Ha Hb. exact (Hasc (S i) (S j) a b ltac:(lia) Ha Hb).
Qed.

(** On intervals in ascending block order, [LineEdge] is the extremum over
    exactly the intervals that overlap the band: the least inline start (for
    the left edge) or the greatest inline end (for the right edge) of the
    intervals that end after the band's start and start at or before the
    band's end, and the sentinel when there is none. *)
Theorem LineEdge_extremum (s : ImageShapeInfo) (aBStart aBEnd : Z) (aLeft : bool) :
  intervals_ascending (mIntervals s) ->
  LineEdge s aBStart aBEnd aLeft
  = fold_left (LineEdge_update aLeft)
              (filter (overlaps_band aBStart aBEnd) (mIntervals s))
              (if aLeft then nscoord_MAX else nscoord_MIN).
Proof.
  intros Hasc. unfold LineEdge.
  destruct (MinIntervalIndexContainingY_split (mIntervals s) aBStart Hasc)
    as (_ & Hbefore & Hafter).
  set (k := MinIntervalIndexContainingY (mIntervals s) aBStart) in *.
  destruct Hasc as [Hpos Hasc]. rewrite Forall_forall in Hpos.
  rewrite <- (firstn_skipn k (mIntervals s)) at 2.
  rewrite filter_app.
  rewrite (filter_none (overlaps_band aBStart aBEnd) (firstn k (mIntervals s))).
  - cbn [app].
    rewrite (filter_ext_in (overlaps_band aBStart aBEnd)
               (fun iv => y iv <=? aBEnd) (skipn k (mIntervals s))).
    + apply (LineEdge_scan_filter aBEnd aLeft (skipn k (mIntervals s))).
      intros i j a b Hij Ha Hb. rewrite nth_error_skipn in Ha, Hb.
      pose proof (Hasc (k + i)%nat (k + j)%nat a b ltac:(lia) Ha Hb).
      pose proof (Hpos a (nth_error_In _ _ Ha)). lia.
    + intros a Ha. apply In_nth_error in Ha as [i Hi].
      rewrite nth_error_skipn in Hi.
      pose proof (Hafter (k + i)%nat a ltac:(lia) Hi).
      unfold overlaps_band.
      replace (aBStart <? YMost a) with true by (symmetry; apply Z.ltb_lt; lia).
      reflexivity.
  - intros a Ha. apply In_nth_error in Ha as [i Hi].
    rewrite nth_error_firstn in Hi.
    destruct (Nat.ltb_spec i k) as [Hlt|]; [|discriminate].
    pose proof (Hbefore i a Hlt Hi).
    unfold overlaps_band.
    replace (aBStart <? YMost a) with false by (symmetry; apply Z.ltb_ge; lia).
    reflexivity.
Qed.

Lemma three_rows_ascending : intervals_ascending three_rows.
Proof.
  split.
  - repeat constructor.
  - intros i j a b Hij Ha Hb.
    destruct i as [|[|[|i]]]; destruct j as [|[|[|j]]];
      try lia; cbn [three_rows nth_error] in Ha, Hb;
      try (destruct j; discriminate Hb); try (destruct i; discriminate Ha);
      injection Ha as <-; injection Hb as <-; vm_compute; discriminate.
Defined.

Lemma MinIntervalIndexContainingY_first_beyond_witness :
  (MinIntervalIndexContainingY three_rows 70 <= length three_rows)%nat
  /\ (forall i a, (i < MinIntervalIndexContainingY three_rows 70)%nat ->
        nth_error three_rows i = Some a -> YMost a <= 70)
  /\ (forall i a, (MinIntervalIndexContainingY three_rows 70 <= i)%nat ->
        nth_error three_rows i = Some a -> 70 < YMost a).
Proof.
  exact (MinIntervalIndexContainingY_first_beyond three_rows 70
           three_rows_ascending).
Defined.

Lemma LineEdge_extremum_witness :
  LineEdge (mkImage three_rows 0 180) 70 130 true
  = fold_left (LineEdge_update true)
              (filter (overlaps_band 70 130) three_rows) nscoord_MAX.
Proof.
  exact (LineEdge_extremum (mkImage three_rows 0 180) 70 130 true
           three_rows_ascending).
Defined.

(** ** Shapes: translation *)

Lemma nscoord_add_sub_comm (a b c : Z) : (a .+ b) .- c = (a .- c) .+ b.
Proof.
  unfold nscoord_add, nscoord_sub. apply wrap32_congr.
  rewrite Zminus_mod, wrap32_eqm, <- Zminus_mod.
  rewrite (Zplus_mod (wrap32 (a - c))), wrap32_eqm, <- Zplus_mod.
  f_equal. lia.
Qed.

Lemma nscoord_add_add_comm (a b c : Z) : (a .+ b) .+ c = (a .+ c) .+ b.
Proof.
  unfold nscoord_add. apply wrap32_congr.
  rewrite (Zplus_mod (wrap32 (a + b))), wrap32_eqm, <- Zplus_mod.
  rewrite (Zplus_mod (wrap32 (a + c))), wrap32_eqm, <- Zplus_mod.
  f_equal. lia.
Qed.

(** [Translate] moves the block extent of every shape by the block offset,
    in 32-bit arithmetic, and changes no shape's emptiness. *)
Theorem Shape_Translate_block_extent (s : ShapeInfo) (aLineLeft aBlockStart : Z) :
  Shape_BStart (Shape_Translate s aLineLeft aBlockStart)
  = Shape_BStart s .+ aBlockStart
  /\ Shape_BEnd (Shape_Translate s aLineLeft aBlockStart)
     = Shape_BEnd s .+ aBlockStart
  /\ Shape_IsEmpty (Shape_Translate s aLineLeft aBlockStart) = Shape_IsEmpty s.
Proof.
  destruct s as [r radii|c radii|p|i];
    cbn [Shape_Translate Shape_BStart Shape_BEnd Shape_IsEmpty].
  - unfold YMost, rect_MoveBy, rect_IsEmpty. cbn [y height width].
    repeat split. apply nscoord_add_add_comm.
  - unfold Ellipse_BStart, Ellipse_BEnd, point_MoveBy. cbn [pt_y].
    repeat split; [apply nscoord_add_sub_comm | apply nscoord_add_add_comm].
  - repeat split.
  - unfold Image_Translate. cbn [img_mBStart img_mBEnd mIntervals].
    repeat split. now destruct (mIntervals i).
Qed.

(** ** Polygon: the two edges of a band *)

Lemma ComputeLineIntercept_step_ordered (vs : list nsPoint) (aBStart aBEnd : Z)
    (l r : Z) (i : nat) :
  edges_ordered l r ->
  edges_ordered (ComputeLineIntercept_step vs aBStart aBEnd Z.min l i)
                (ComputeLineIntercept_step vs aBStart aBEnd Z.max r i).
Proof.
  unfold edges_ordered, ComputeLineIntercept_step. cbn zeta. intros H.
  destruct (_ || _); [assumption|]. right. lia.
Qed.

Lemma ComputeLineIntercept_fold_ordered (vs : list nsPoint) (aBStart aBEnd : Z)
    (idx : list nat) (l r : Z) :
  edges_ordered l r ->
  edges_ordered
    (fold_left (ComputeLineIntercept_step vs aBStart aBEnd Z.min) idx l)
    (fold_left (ComputeLineIntercept_step vs aBStart aBEnd Z.max) idx r).
Proof.
  revert l r. induction idx as [|i idx IH]; intros l r H; [assumption|].
  cbn [fold_left]. apply IH. now apply ComputeLineIntercept_step_ordered.
Qed.

(** For every polygon and every band, either no segment meets the band and
    [LineLeft] and [LineRight] return their sentinels ([nscoord_MAX] and
    [nscoord_MIN]), or [LineLeft] is at or before [LineRight]; this holds
    also where the intercept products wrap. *)
Theorem Polygon_edges_ordered (p : PolygonShapeInfo) (aBStart aBEnd : Z) :
  edges_ordered (Polygon_LineLeft p aBStart aBEnd)
                (Polygon_LineRight p aBStart aBEnd).
Proof.
  unfold Polygon_LineLeft, Polygon_LineRight, ComputeLineIntercept.
  apply ComputeLineIntercept_fold_ordered. now left.
Qed.

(** ** The constructor of ImageShapeInfo stores ascending intervals *)

Lemma ImageShapeInfo_interval_row (aAppUnitsPerDevPixel bSize : Z)
    (origin : nsPoint) (isVerticalRL isSidewaysLR : bool) (b iMin iMax : Z) :
  image_block_ok aAppUnitsPerDevPixel bSize origin ->
  0 <= b < bSize ->
  interval_of_row aAppUnitsPerDevPixel origin isVerticalRL b
    (ImageShapeInfo_interval aAppUnitsPerDevPixel origin isVerticalRL
       isSidewaysLR b iMin iMax).
Proof.
  intros (Hpos & Hsz & Hlo & Hhi) Hb.
  rewrite Z.max_l in Hlo, Hhi by lia.
  assert (H0 : 0 <= b * aAppUnitsPerDevPixel) by nia.
  assert (H1 : b * aAppUnitsPerDevPixel + aAppUnitsPerDevPixel
               <= bSize * aAppUnitsPerDevPixel) by nia.
  assert (H2 : (bSize + 1) * aAppUnitsPerDevPixel
               = bSize * aAppUnitsPerDevPixel + aAppUnitsPerDevPixel) by lia.
  rewrite H2 in Hlo, Hhi. clear H2.
  unfold interval_of_row, ImageShapeInfo_interval, YMost, point_MoveBy,
    nscoord_mul.
  destruct isVerticalRL; [|destruct isSidewaysLR];
    cbn [y height pt_y sz_height]; unwrap; split; lia.
Qed.

Lemma seq_rows (n start : nat) :
  StronglySorted Z.lt (map Z.of_nat (seq start n))
  /\ Forall (fun b => Z.of_nat start <= b < Z.of_nat (start + n))
            (map Z.of_nat (seq start n)).
Proof.
  revert start. induction n as [|n IH]; intros start; cbn [seq map].
  - split; constructor.
  - destruct (IH (S start)) as [Hs Hf]. split.
    + constructor; [assumption|].
      eapply Forall_impl; [|exact Hf]. cbn beta. intros b Hb. lia.
    + constructor; [lia|].
      eapply Forall_impl; [|exact Hf]. cbn beta. intros b Hb. lia.
Qed.

Lemma appended_sorted (aAppUnitsPerDevPixel : Z) (origin : nsPoint)
    (isVerticalRL : bool) (g : Z -> list nsRect) (bs : list Z) :
  0 < aAppUnitsPerDevPixel ->
  (forall b iv, In b bs -> In iv (g b) ->
     g b = [iv]
     /\ interval_of_row aAppUnitsPerDevPixel origin isVerticalRL b iv) ->
  StronglySorted Z.lt bs ->
  StronglySorted (appended_order isVerticalRL) (flat_map g bs)
  /\ Forall (fun iv => exists b, In b bs
               /\ interval_of_row aAppUnitsPerDevPixel origin isVerticalRL b iv)
            (flat_map g bs).
Proof.
  intros Hpos. induction bs as [|b bs IH]; intros Hg Hs; cbn [flat_map].
  - split; constructor.
  - apply StronglySorted_inv in Hs as [Hs Hlt].
    destruct IH as [IHs IHf]; [intros; apply Hg; trivial; now right|assumption|].
    assert (IHf' : Forall (fun iv => exists b0, In b0 (b :: bs)
                     /\ interval_of_row aAppUnitsPerDevPixel origin
                          isVerticalRL b0 iv) (flat_map g bs)).
    { eapply Forall_impl; [|exact IHf]. cbn beta.
      intros iv (b0 & Hin & Hrow). exists b0. split; [now right|assumption]. }
    destruct (g b) as [|iv rest] eqn:Eg; [now split|].
    destruct (Hg b iv (or_introl eq_refl)) as [Eone Hrow];
      [rewrite Eg; now left|].
    rewrite Eg in Eone. injection Eone as ->. cbn [app].
    split.
    + constructor; [assumption|].
      rewrite Forall_forall in IHf, Hlt. apply Forall_forall.
      intros iv' Hin'. destruct (IHf iv' Hin') as (b' & Hb' & Hrow').
      specialize (Hlt b' Hb').
      unfold appended_order, interval_of_row in *.
      destruct isVerticalRL; nia.
    + constructor; [|assumption].
      exists b. split; [now left|assumption].
Qed.

Lemma StronglySorted_app {A : Type} (R : A -> A -> Prop) (l1 l2 : list A) :
  StronglySorted R l1 -> StronglySorted R l2 ->
  (forall a b, In a l1 -> In b l2 -> R a b) ->
  StronglySorted R (l1 ++ l2).
Proof.
  induction l1 as [|a l1 IH]; intros H1 H2 H; [assumption|].
  apply StronglySorted_inv in H1 as [H1 Ha]. cbn [app]. constructor.
  - apply IH; trivial. intros; apply H; trivial. now right.
  - apply Forall_app. split; [assumption|].
    apply Forall_forall. intros b Hb. apply H; [now left|assumption].
Qed.

Lemma StronglySorted_rev {A : Type} (R : A -> A -> Prop) (l : list A) :
  StronglySorted R l -> StronglySorted (fun a b => R b a) (rev l).
Proof.
  induction l as [|a l IH]; intros H; [constructor|].
  apply StronglySorted_inv in H as [H Ha]. cbn [rev].
  apply StronglySorted_app; [now apply IH|repeat constructor|].
  intros b c Hb [<-|[]]. rewrite Forall_forall in Ha.
  apply Ha. now apply in_rev.
Qed.

Lemma StronglySorted_nth_error {A : Type} (R : A -> A -> Prop) (l : list A) :
  StronglySorted R l ->
  forall i j a b, (i < j)%nat ->
    nth_error l i = Some a -> nth_error l j = Some b -> R a b.
Proof.
  induction l as [|c l IH]; intros H i j a b Hij Ha Hb;
    [now destruct i|].
  apply StronglySorted_inv in H as [H Hc].
  destruct j as [|j]; [lia|]. cbn [nth_error] in Hb.
  destruct i as [|i].
  - cbn in Ha. injection Ha as <-. rewrite Forall_forall in Hc.
    apply Hc. eapply nth_error_In; eauto.
  - cbn [nth_error] in Ha. apply (IH H i j); trivial. lia.
Qed.

Lemma ImageShapeInfo_new_mIntervals (aAlphaPixels : Z -> Z) (aStride : Z)
    (w h : Z) (aAppUnitsPerDevPixel : Z) (threshold : Z) (origin : nsPoint)
    (isVertical isVerticalRL isSidewaysLR : bool) :
  mIntervals (ImageShapeInfo_new aAlphaPixels aStride w h aAppUnitsPerDevPixel
                threshold origin isVertical isVerticalRL isSidewaysLR)
  = if isVerticalRL
    then rev (ImageShapeInfo_appended aAlphaPixels aStride w h
                aAppUnitsPerDevPixel threshold origin isVertical isVerticalRL
                isSidewaysLR)
    else ImageShapeInfo_appended aAlphaPixels aStride w h
           aAppUnitsPerDevPixel threshold origin isVertical isVerticalRL
           isSidewaysLR.
Proof.
  unfold ImageShapeInfo_new. cbn zeta.
  destruct (if isVerticalRL then _ else _); reflexivity.
Qed.

Lemma ImageShapeInfo_appended_sorted (aAlphaPixels : Z -> Z) (aStride : Z)
    (w h : Z) (aAppUnitsPerDevPixel : Z) (threshold : Z) (origin : nsPoint)
    (isVertical isVerticalRL isSidewaysLR : bool) :
  image_block_ok aAppUnitsPerDevPixel (if isVertical then w else h) origin ->
  let appended :=
    ImageShapeInfo_appended aAlphaPixels aStride w h aAppUnitsPerDevPixel
      threshold origin isVertical isVerticalRL isSidewaysLR in
  StronglySorted (appended_order isVerticalRL) appended
  /\ Forall (fun iv => y iv < YMost iv) appended.
Proof.
  intros Hok. cbn zeta. unfold ImageShapeInfo_appended.
  set (bSize := if isVertical then w else h) in *.
  set (g := fun b : Z => _).
  destruct (seq_rows (Z.to_nat bSize) 0) as [Hsorted Hrange].
  assert (Hpos : 0 < aAppUnitsPerDevPixel) by apply Hok.
  destruct (appended_sorted aAppUnitsPerDevPixel origin isVerticalRL g
              (map Z.of_nat (seq 0 (Z.to_nat bSize))) Hpos) as [Hs Hf];
    trivial.
  - intros b iv Hb Hiv. rewrite Forall_forall in Hrange.
    specialize (Hrange b Hb). unfold g in *.
    destruct (fst _ =? -1); [destruct Hiv|].
    destruct Hiv as [<-|[]]. split; [reflexivity|].
    apply (ImageShapeInfo_interval_row _ bSize); trivial. lia.
  - split; [assumption|].
    eapply Forall_impl; [|exact Hf]. cbn beta.
    intros iv (b & _ & _ & Hym). lia.
Qed.

Lemma ImageShapeInfo_new_intervals_ascending (aAlphaPixels : Z -> Z)
    (aStride : Z) (w h : Z) (aAppUnitsPerDevPixel : Z) (threshold : Z)
    (origin : nsPoint) (isVertical isVerticalRL isSidewaysLR : bool) :
  image_block_ok aAppUnitsPerDevPixel (if isVertical then w else h) origin ->
  intervals_ascending
    (mIntervals (ImageShapeInfo_new aAlphaPixels aStride w h
                   aAppUnitsPerDevPixel threshold origin isVertical
                   isVerticalRL isSidewaysLR)).
Proof.
  intros Hok. rewrite ImageShapeInfo_new_mIntervals.
  destruct (ImageShapeInfo_appended_sorted aAlphaPixels aStride w h
              aAppUnitsPerDevPixel threshold origin isVertical isVerticalRL
              isSidewaysLR Hok) as [Hs Hf].
  cbn zeta in Hs, Hf. unfold intervals_ascending.
  destruct isVerticalRL.
  - split.
    + apply Forall_forall. intros iv Hin. rewrite Forall_forall in Hf.
      apply Hf. now apply in_rev.
    + apply StronglySorted_rev in Hs.
      exact (StronglySorted_nth_error _ _ Hs).
  - split; [assumption|]. exact (StronglySorted_nth_error _ _ Hs).
Qed.

(** ** The inner loop of the constructor *)

Lemma ImageShapeInfo_scan_prefix (aAlphaPixels : Z -> Z) (aStride : Z)
    (isVertical : bool) (threshold : Z) (b : Z) (n : nat) :
  scan_found (alpha_above aAlphaPixels aStride isVertical threshold b)
    (Z.of_nat n)
    (fold_left
       (fun (acc : Z * Z) (i : Z) =>
          let col := if isVertical then b else i in
          let row := if isVertical then i else b in
          let alpha := aAlphaPixels (col .+ row .* aStride) in
          if alpha >? threshold
          then (if fst acc =? -1 then i else fst acc, i)
          else acc)
       (map Z.of_nat (seq 0 n)) (-1, -1)).
Proof.
  induction n as [|n IH].
  - left. split; [reflexivity|]. intros i Hi. lia.
  - rewrite seq_S, map_app, fold_left_app. cbn [Nat.add map fold_left].
    set (found := fold_left _ _ _) in *.
    fold (alpha_above aAlphaPixels aStride isVertical threshold b (Z.of_nat n)).
    set (above := alpha_above aAlphaPixels aStride isVertical threshold b) in *.
    destruct (above (Z.of_nat n)) eqn:En.
    + right. cbn [fst snd].
      destruct IH as [[-> Hnone]|(Hr & Hlt & Hmin & Hmax & Hall)].
      * cbn [fst snd]. rewrite Z.eqb_refl.
        split; [lia|]. split; [lia|]. split; [assumption|].
        split; [assumption|]. intros i Hi Ha.
        destruct (Z.eq_dec i (Z.of_nat n)) as [->|]; [lia|].
        rewrite Hnone in Ha by lia. discriminate.
      * destruct (Z.eqb_spec (fst found) (-1)) as [|_]; [lia|].
        split; [lia|]. split; [lia|]. split; [assumption|].
        split; [assumption|]. intros i Hi Ha.
        destruct (Z.eq_dec i (Z.of_nat n)) as [->|]; [lia|].
        assert (fst found <= i <= snd found) by (apply Hall; [lia|assumption]).
        lia.
    + destruct IH as [[-> Hnone]|(Hr & Hlt & Hmin & Hmax & Hall)].
      * left. split; [reflexivity|]. intros i Hi.
        destruct (Z.eq_dec i (Z.of_nat n)) as [->|]; [assumption|].
        apply Hnone. lia.
      * right. split; [lia|]. split; [lia|]. split; [assumption|].
        split; [assumption|]. intros i Hi Ha.
        apply Hall; [|assumption].
        destruct (Z.eq_dec i (Z.of_nat n)) as [->|]; [congruence|lia].
Qed.

(** The inner loop finds the inline extent of the pixels above the
    threshold: it returns (-1, -1) exactly when no pixel of the row or
    column is above the threshold, and otherwise the least and the greatest
    inline index of such a pixel. *)
Theorem ImageShapeInfo_scan_extent (aAlphaPixels : Z -> Z) (aStride : Z)
    (isVertical : bool) (threshold : Z) (iSize b : Z) :
  scan_found (alpha_above aAlphaPixels aStride isVertical threshold b)
    (Z.max iSize 0)
    (ImageShapeInfo_scan aAlphaPixels aStride isVertical threshold iSize b).
Proof.
  unfold ImageShapeInfo_scan.
  replace (Z.max iSize 0) with (Z.of_nat (Z.to_nat iSize)) by lia.
  apply ImageShapeInfo_scan_prefix.
Qed.

(** ** The block extent the constructor records *)

Lemma nth_error_last {A : Type} (l : list A) (a d : A) :
  nth_error (a :: l) (length l) = Some (last (a :: l) d).
Proof.
  revert a. induction l as [|b l IH]; intros a; [reflexivity|].
  cbn [length nth_error]. rewrite IH. reflexivity.
Qed.

Lemma ImageShapeInfo_new_extent_covers (aAlphaPixels : Z -> Z)
    (aStride : Z) (w h : Z) (aAppUnitsPerDevPixel : Z) (threshold : Z)
    (origin : nsPoint) (isVertical isVerticalRL isSidewaysLR : bool) :
  image_block_ok aAppUnitsPerDevPixel (if isVertical then w else h) origin ->
  let s := ImageShapeInfo_new aAlphaPixels aStride w h aAppUnitsPerDevPixel
             threshold origin isVertical isVerticalRL isSidewaysLR in
  (mIntervals s = [] /\ img_mBStart s = nscoord_MAX /\ img_mBEnd s = nscoord_MIN)
  \/ (img_mBStart s < img_mBEnd s
      /\ Forall (fun iv => img_mBStart s <= y iv /\ YMost iv <= img_mBEnd s)
                (mIntervals s)).
Proof.
  intros Hok. cbn zeta.
  pose proof (ImageShapeInfo_new_intervals_ascending aAlphaPixels aStride w h
                aAppUnitsPerDevPixel threshold origin isVertical isVerticalRL
                isSidewaysLR Hok) as Hasc.
  revert Hasc. unfold ImageShapeInfo_new. cbn zeta.
  destruct (if isVerticalRL then _ else _) as [|first rest];
    cbn [mIntervals img_mBStart img_mBEnd]; intros [Hpos Hasc];
    [left; repeat split|right].
  pose proof (nth_error_last rest first first) as Hlast.
  set (lst := last (first :: rest) first) in *.
  rewrite Forall_forall in Hpos.
  assert (Hall : forall iv, In iv (first :: rest) ->
                   y first <= y iv /\ YMost iv <= YMost lst).
  { intros iv Hin. apply In_nth_error in Hin as [i Hi].
    assert (Hi' : (i < length (first :: rest))%nat)
      by (apply nth_error_Some; congruence).
    cbn [length] in Hi'.
    pose proof (Hpos first (or_introl eq_refl)).
    pose proof (Hpos lst (nth_error_In _ _ Hlast)).
    pose proof (Hpos iv (nth_error_In _ _ Hi)).
    split.
    - destruct i as [|i]; [cbn in Hi; injection Hi as <-; lia|].
      pose proof (Hasc O (S i) first iv ltac:(lia) eq_refl Hi). lia.
    - destruct (Nat.eq_dec i (length rest)) as [->|Hne].
      + rewrite Hlast in Hi. injection Hi as <-. lia.
      + pose proof (Hasc i (length rest) iv lst ltac:(lia) Hi Hlast). lia. }
  split.
  - pose proof (Hall lst (nth_error_In _ _ Hlast)).
    pose proof (Hpos lst (nth_error_In _ _ Hlast)). lia.
  - apply Forall_forall. exact Hall.
Qed.

(** What the constructor establishes (pixel size positive, block extent
    within 32 bits), under every writing mode.  The intervals it stores have
    a positive block size and are in ascending block order, none reaching
    into the next (for vertical-rl thanks to the final reversal): this is
    what the binary search relies on.  And the block extent it records is
    that of the intervals: the sentinels when there is none, and otherwise a
    non-empty range from the block start of the first interval to the block
    end of the last one, within which every interval lies. *)
Theorem ImageShapeInfo_new_ascending (aAlphaPixels : Z -> Z)
    (aStride : Z) (w h : Z) (aAppUnitsPerDevPixel : Z) (threshold : Z)
    (origin : nsPoint) (isVertical isVerticalRL isSidewaysLR : bool) :
  image_block_ok aAppUnitsPerDevPixel (if isVertical then w else h) origin ->
  let s := ImageShapeInfo_new aAlphaPixels aStride w h aAppUnitsPerDevPixel
             threshold origin isVertical isVerticalRL isSidewaysLR in
  intervals_ascending (mIntervals s)
  /\ ((mIntervals s = [] /\ img_mBStart s = nscoord_MAX
       /\ img_mBEnd s = nscoord_MIN)
      \/ (img_mBStart s < img_mBEnd s
          /\ Forall (fun iv => img_mBStart s <= y iv /\ YMost iv <= img_mBEnd s)
                    (mIntervals s))).
Proof.
  intros Hok. split.
  - now apply ImageShapeInfo_new_intervals_ascending.
  - now apply ImageShapeInfo_new_extent_covers.
Qed.

Lemma ImageShapeInfo_new_ascending_witness :
  let s := ImageShapeInfo_new alpha_3x2 3 3 2 60 127 (mkPoint 0 0)
             true true false in
  intervals_ascending (mIntervals s)
  /\ ((mIntervals s = [] /\ img_mBStart s = nscoord_MAX
       /\ img_mBEnd s = nscoord_MIN)
      \/ (img_mBStart s < img_mBEnd s
          /\ Forall (fun iv => img_mBStart s <= y iv /\ YMost iv <= img_mBEnd s)
                    (mIntervals s))).
Proof.
  apply (ImageShapeInfo_new_ascending alpha_3x2 3 3 2 60 127 (mkPoint 0 0)
           true true false).
  unfold image_block_ok. cbn. lia.
Defined.

(** ** Queries and the origin *)

#[local] Instance eqm32_Equivalence : Equivalence eqm32.
Proof.
  unfold eqm32. split.
  - intros a. reflexivity.
  - intros a b H. now symmetry.
  - intros a b c H1 H2. now rewrite H1.
Qed.

#[local] Instance eqm32_add : Proper (eqm32 ==> eqm32 ==> eqm32) Z.add.
Proof.
  unfold eqm32. intros a a' Ha b b' Hb.
  now rewrite (Zplus_mod a), (Zplus_mod a'), Ha, Hb.
Qed.

#[local] Instance eqm32_sub : Proper (eqm32 ==> eqm32 ==> eqm32) Z.sub.
Proof.
  unfold eqm32. intros a a' Ha b b' Hb.
  now rewrite (Zminus_mod a), (Zminus_mod a'), Ha, Hb.
Qed.

Lemma wrap32_eqm32 (z : Z) : eqm32 (wrap32 z) z.
Proof. apply wrap32_eqm. Qed.

Lemma wrap32_eqm32_congr (a b : Z) : eqm32 a b -> wrap32 a = wrap32 b.
Proof. apply wrap32_congr. Qed.

(** Equalities of sums and differences of [nscoord]s hold as soon as they
    hold for the integers. *)
Ltac wrap_eq :=
  unfold nscoord_add, nscoord_sub;
  apply wrap32_eqm32_congr;
  repeat setoid_rewrite wrap32_eqm32;
  unfold eqm32; f_equal; lia.

Lemma GetFlowArea_blockStart_Translate (m : nsFloatManager) (aBCoord dx dy : Z) :
  GetFlowArea_blockStart (Translate m dx dy) (aBCoord .- dy)
  = GetFlowArea_blockStart m aBCoord.
Proof.
  unfold GetFlowArea_blockStart, Translate. cbn [mBlockStart].
  replace ((aBCoord .- dy) .+ (mBlockStart m .+ dy))
    with (aBCoord .+ mBlockStart m) by wrap_eq.
  reflexivity.
Qed.

Lemma GetFlowArea_init_Translate (m : nsFloatManager) (aWM : WritingMode)
    (aBCoord aBSize dx dy : Z) (aContentArea : LogicalRect)
    (aContainerSize : nsSize) :
  GetFlowArea_init (Translate m dx dy) aWM (aBCoord .- dy) aBSize
                   (shift_LogicalRect aWM dx dy aContentArea) aContainerSize
  = GetFlowArea_init m aWM aBCoord aBSize aContentArea aContainerSize.
Proof.
  unfold GetFlowArea_init. rewrite GetFlowArea_blockStart_Translate.
  assert (HL : mLineLeft (Translate m dx dy)
               .+ LRect_LineLeft (shift_LogicalRect aWM dx dy aContentArea)
                                 aWM aContainerSize
               = mLineLeft m .+ LRect_LineLeft aContentArea aWM aContainerSize).
  { unfold LRect_LineLeft, shift_LogicalRect, shift_inline, IEnd, Translate.
    cbn [mLineLeft IStart ISize]. destruct (IsBidiLTR aWM); wrap_eq. }
  assert (HR : mLineLeft (Translate m dx dy)
               .+ LRect_LineRight (shift_LogicalRect aWM dx dy aContentArea)
                                  aWM aContainerSize
               = mLineLeft m .+ LRect_LineRight aContentArea aWM aContainerSize).
  { unfold LRect_LineRight, shift_LogicalRect, shift_inline, IEnd, Translate.
    cbn [mLineLeft IStart ISize]. destruct (IsBidiLTR aWM); wrap_eq. }
  cbn zeta. rewrite HL, HR. reflexivity.
Qed.

(** A query does not depend on where the origin is: after [Translate] by
    (dx, dy), the query for the same place, given in the new coordinates
    (block coordinate less dy, content area moved by dx along the line),
    returns the same band in the new coordinates, with the same sizes and
    the same float flag.  This holds in 32-bit arithmetic without any bound
    on the coordinates. *)
Theorem GetFlowArea_Translate (m : nsFloatManager) (aWM : WritingMode)
    (aBCoord aBSize : Z) (aBandInfoType : BandInfoType) (aShapeType : ShapeType)
    (aContentArea : LogicalRect) (aState : option SavedState)
    (aContainerSize : nsSize) (dx dy : Z) :
  GetFlowArea (Translate m dx dy) aWM (aBCoord .- dy) aBSize aBandInfoType
              aShapeType (shift_LogicalRect aWM dx dy aContentArea) aState
              aContainerSize
  = option_map (shift_nsFlowAreaRect aWM dx dy)
      (GetFlowArea m aWM aBCoord aBSize aBandInfoType aShapeType aContentArea
                   aState aContainerSize).
Proof.
  unfold GetFlowArea, GetFlowArea_band.
  rewrite GetFlowArea_init_Translate, GetFlowArea_blockStart_Translate.
  replace (GetFlowArea_floatCount (Translate m dx dy) aState)
    with (GetFlowArea_floatCount m aState) by now destruct aState.
  cbn [Translate mFloats mLineLeft mBlockStart].
  destruct (GetFlowArea_floatCount m aState) as [|k]; [reflexivity|].
  destruct (nth_error (mFloats m) k) as [tail|]; [|reflexivity].
  destruct (_ && _); [reflexivity|].
  unfold shift_nsFlowAreaRect, shift_LogicalRect.
  cbn [option_map fa_mRect mHasFloats IStart BStartL ISize BSizeL].
  do 2 f_equal.
  unfold shift_inline. f_equal; destruct (IsBidiLTR aWM); wrap_eq.
Qed.
